(** * Forge-AI DAPP client: chat controller and stats poller

    A shallow embedding of the browser scripts [back_connect.js] (chat
    controller) and of its two stats variants (the dollar variant that
    extends the chat script, and the stand-alone BNB variant), together
    with the properties of the page state they maintain.

    - JavaScript strings are sequences of UTF-16 code units ([list N]).
    - The page (DOM regions named by the scripts' selectors) and the
      module-level variables form one record; the functions of the script
      are state transformers in a small state-and-exception monad.
    - An [await] splits [sendMessage] in two parts: what runs up to the
      request, and the continuation run when the request settles.
    - The body of a response is what the script reads of it: [null], or a
      value whose [images] and [type] may be missing. The bodies of the
      response contract (an array of images and a type string) are the
      ones that have both.
    - JavaScript numbers are IEEE binary64 values ([PrimFloat.float])
      where the script computes with fractions ([formatVolume]). *)

From Stdlib Require Import ZArith NArith List String Ascii Lia.
From Stdlib Require Import DecimalString DecimalPos.
From Stdlib Require Import Floats.
From stdpp Require Import gmap list option.

Import ListNotations.
Local Open Scope list_scope.

(** ** JavaScript strings *)

Module JS.

(** A string value: its UTF-16 code units. *)
Abbreviation jsstring := (list N).

(** An ASCII literal of the script as a string value. *)
Definition lit (s : string) : jsstring :=
  map N_of_ascii (list_ascii_of_string s).

(** [n.toString()] / template interpolation of a non-negative integer. *)
Definition nat_toString (n : nat) : jsstring :=
  lit (NilZero.string_of_uint (Nat.to_uint n)).

(** [z.toString()] for an integer of magnitude below [10^21] (radix 10,
    leading [-] when negative). *)
Definition int_toString (z : Z) : jsstring :=
  lit (NilZero.string_of_int (Z.to_int z)).

(** ECMAScript [WhiteSpace] and [LineTerminator] code units, the characters
    removed by [String.prototype.trim] and matched by the regex class [\s]. *)
Definition isWhiteSpace (c : N) : bool :=
  ((c =? 0x09) || (c =? 0x0A) || (c =? 0x0B) || (c =? 0x0C) || (c =? 0x0D)
   || (c =? 0x20) || (c =? 0xA0) || (c =? 0x1680)
   || ((0x2000 <=? c) && (c <=? 0x200A))
   || (c =? 0x2028) || (c =? 0x2029) || (c =? 0x202F) || (c =? 0x205F)
   || (c =? 0x3000) || (c =? 0xFEFF))%N.

Fixpoint trimStart (s : jsstring) : jsstring :=
  match s with
  | c :: s' => if isWhiteSpace c then trimStart s' else s
  | [] => []
  end.

Definition trimEnd (s : jsstring) : jsstring := rev (trimStart (rev s)).

(** [s.trim()] *)
Definition trim (s : jsstring) : jsstring := trimEnd (trimStart s).

(** Strict equality [===] of two strings, as a boolean. *)
Definition str_eqb (a b : jsstring) : bool := bool_decide (a = b).

(** *** Numbers as text *)

(** Decimal digits of a non-negative integer. *)
Definition digits (n : Z) : jsstring := int_toString n.

(** The finite double with mantissa [m] and exponent [e] has the value
    [m * 2^e]; these are its numerator and denominator as integers. *)
Definition numerator (m : positive) (e : Z) : Z := Z.pos m * 2 ^ Z.max e 0.
Definition denominator (e : Z) : Z := 2 ^ Z.max (- e) 0.

(** The integer [n] for which [n / 10^f - x] is as close to zero as
    possible, the larger one when there are two: [floor (x * 10^f + 1/2)]. *)
Definition nearest_scaled (m : positive) (e : Z) (f : nat) : Z :=
  (2 * numerator m e * 10 ^ Z.of_nat f + denominator e) / (2 * denominator e).

(** The digits of [n] with a decimal point before the last [f] of them,
    padded with zeros on the left up to [f + 1] digits. *)
Definition fixed_notation (n : Z) (f : nat) : jsstring :=
  let m := digits n in
  match f with
  | O => m
  | S _ =>
      let k := length m in
      let m := if (k <=? f)%nat then repeat 48%N (f + 1 - k) ++ m else m in
      let k := length m in
      firstn (k - f) m ++ lit "." ++ skipn (k - f) m
  end.

(** [Number::toString] of a finite double [x = m * 2^e] that is at least
    [10^21]: the shortest digit string [s] (of [k] digits) and the decimal
    exponent [n] such that [s * 10^(n-k)] still reads back as [x], printed
    in exponent notation. *)
Section Shortest.
Variables (m : positive) (e : Z).
Let x : Z := Z.pos m * 2 ^ e.
(* Twice the ends of the interval of reals that round to [x]. *)
Let gap_below : Z := if (Z.pos m =? 2 ^ 52)%Z then 2 ^ (e - 1) else 2 ^ e.
Let lo2 : Z := 2 * x - gap_below.
Let hi2 : Z := 2 * x + 2 ^ e.

Definition reads_back (v : Z) : bool :=
  if Z.even (Z.pos m)
  then (lo2 <=? 2 * v)%Z && (2 * v <=? hi2)%Z
  else (lo2 <? 2 * v)%Z && (2 * v <? hi2)%Z.

(* The pairs [(s, n)] with a [k]-digit [s] that read back as [x]. *)
Definition candidates (k : Z) : list (Z * Z) :=
  let nx := Z.of_nat (length (digits x)) in
  n ← [nx; nx + 1]%Z;
  s ← [x / 10 ^ (n - k); x / 10 ^ (n - k) + 1]%Z;
  if (10 ^ (k - 1) <=? s)%Z && (s <? 10 ^ k)%Z
     && reads_back (s * 10 ^ (n - k))
  then [(s, n)] else [].

Definition distance (k : Z) (sn : Z * Z) : Z :=
  Z.abs (fst sn * 10 ^ (snd sn - k) - x).

Fixpoint closest (k : Z) (best : Z * Z) (l : list (Z * Z)) : Z * Z :=
  match l with
  | [] => best
  | sn :: l' =>
      closest k (if (distance k sn <? distance k best)%Z then sn else best) l'
  end.

Fixpoint shortest (ks : list Z) : Z * Z :=
  match ks with
  | [] => (x, Z.of_nat (length (digits x)))
  | k :: ks' =>
      match candidates k with
      | [] => shortest ks'
      | sn :: l => closest k sn l
      end
  end.

Definition toString_large : jsstring :=
  let (s, n) := shortest (map Z.of_nat (seq 1 17)) in
  match digits s with
  | [] => []
  | [d] => d :: lit "e+" ++ digits (n - 1)
  | d :: ds => d :: lit "." ++ ds ++ lit "e+" ++ digits (n - 1)
  end.
End Shortest.

(** [x.toFixed(fractionDigits)] (ECMA-262, Number.prototype.toFixed): the
    value that is rounded is the exact value of the double [x]. *)
Definition toFixed (x : float) (fractionDigits : nat) : jsstring :=
  match Prim2SF x with
  | S754_nan => lit "NaN"
  | S754_infinity false => lit "Infinity"
  | S754_infinity true => lit "-Infinity"
  | S754_zero _ => fixed_notation 0 fractionDigits
  | S754_finite s m e =>
      (if s then lit "-" else []) ++
      (if (10 ^ 21 * denominator e <=? numerator m e)%Z
       then toString_large m e
       else fixed_notation (nearest_scaled m e fractionDigits) fractionDigits)
  end.

(** [text.replace(/\s/g, '')] *)
Definition remove_whitespace (s : jsstring) : jsstring :=
  List.filter (fun c => negb (isWhiteSpace c)) s.

(** Value of a code unit as a digit in [radix], if it is one. *)
Definition digit_value (radix : Z) (c : N) : option Z :=
  let v :=
    (if ((0x30 <=? c) && (c <=? 0x39))%N then Z.of_N c - 0x30
     else if ((0x61 <=? c) && (c <=? 0x7A))%N then Z.of_N c - 0x61 + 10
     else if ((0x41 <=? c) && (c <=? 0x5A))%N then Z.of_N c - 0x41 + 10
     else radix)%Z in
  if (v <? radix)%Z then Some v else None.

(** The longest prefix of digits, read in [radix]; [acc] is the value of
    the digits read so far, [None] while there are none. *)
Fixpoint parse_digits (radix : Z) (acc : option Z) (s : jsstring) : option Z :=
  match s with
  | c :: s' =>
      match digit_value radix c with
      | Some v => parse_digits radix (Some (default 0 acc * radix + v)%Z) s'
      | None => acc
      end
  | [] => acc
  end.

(** [parseInt(s)] with no radix argument: leading white space, a sign, an
    optional [0x]/[0X] prefix, then digits; [None] is [NaN]. Integers are
    kept exact (the script's values stay far below [2^53]). *)
Definition parseInt (s : jsstring) : option Z :=
  let s := trimStart s in
  let (sign, s) :=
    match s with
    | 0x2D%N :: s' => ((-1)%Z, s')
    | 0x2B%N :: s' => (1%Z, s')
    | _ => (1%Z, s)
    end in
  let (radix, s) :=
    match s with
    | 0x30%N :: 0x78%N :: s' => (16%Z, s')
    | 0x30%N :: 0x58%N :: s' => (16%Z, s')
    | _ => (10%Z, s)
    end in
  (fun v => (sign * v)%Z) <$> parse_digits radix None s.

(** A word character of a regular expression: [[A-Za-z0-9_]]. *)
Definition isWordChar (c : N) : bool :=
  (((0x30 <=? c) && (c <=? 0x39)) || ((0x41 <=? c) && (c <=? 0x5A))
   || ((0x61 <=? c) && (c <=? 0x7A)) || (c =? 0x5F))%N.

Definition isDigit (c : N) : bool := ((0x30 <=? c) && (c <=? 0x39))%N.

(** Number of digits at the start of [s]. *)
Fixpoint digit_run (s : jsstring) : nat :=
  match s with
  | c :: s' => if isDigit c then S (digit_run s') else O
  | [] => O
  end.

(** The lookahead [(?=(\d{3})+(?!\d))]: the digits that follow come in a
    positive number of groups of three. *)
Definition groups_of_three_ahead (s : jsstring) : bool :=
  let n := digit_run s in (0 <? n)%nat && (n mod 3 =? 0)%nat.

(** [s.replace(/\B(?=(\d{3})+(?!\d))/g, " ")] from the position after
    [prev] on: a space goes in wherever there is no word boundary and the
    lookahead holds. (At the very start of a string the two cannot hold
    together.) *)
Fixpoint separate_thousands (prev : N) (s : jsstring) : jsstring :=
  match s with
  | c :: s' =>
      (if bool_decide (isWordChar prev = isWordChar c)
          && groups_of_three_ahead s
       then [0x20%N] else [])
      ++ c :: separate_thousands c s'
  | [] => []
  end.

End JS.
Import JS.

(** ** Statements of a script: state and exceptions *)

Module Script.

Inductive Result (A : Type) :=
| Return (a : A)
| Throw.
Arguments Return {A} a.
Arguments Throw {A}.

(** A statement run on a page state [S] either completes or throws; what
    it wrote before throwing stays written. *)
Definition M (S A : Type) : Type := S -> Result A * S.

Section Monad.
Context {S : Type}.

Definition ret {A} (a : A) : M S A := fun p => (Return a, p).

Definition bind {A B} (c : M S A) (k : A -> M S B) : M S B :=
  fun p => match c p with
           | (Return a, p') => k a p'
           | (Throw, p') => (Throw, p')
           end.

Definition throw {A} : M S A := fun p => (Throw, p).

(** [try { body } catch (error) { handler }] *)
Definition try_catch {A} (body handler : M S A) : M S A :=
  fun p => match body p with
           | (Throw, p') => handler p'
           | r => r
           end.

Definition get {A} (f : S -> A) : M S A := fun p => (Return (f p), p).
Definition modify (f : S -> S) : M S unit := fun p => (Return tt, f p).

(** The state a statement leaves behind, whether it completed or threw
    (an exception that escapes an event handler is reported by the
    browser and the page lives on). *)
Definition exec {A} (c : M S A) (p : S) : S := snd (c p).
End Monad.

Declare Scope js_scope.
Delimit Scope js_scope with js.
Notation "x <- c ;; k" := (bind c (fun x => k))
  (at level 100, c at next level, right associativity) : js_scope.
Notation "c ;; k" := (bind c (fun _ => k))
  (at level 100, right associativity) : js_scope.
Local Open Scope js_scope.

(** [array.forEach(f)] for a callback with effects. *)
Fixpoint forEach {S A} (l : list A) (f : A -> M S unit) : M S unit :=
  match l with
  | [] => ret tt
  | x :: l' => f x ;; forEach l' f
  end.

(** [const API_URL = 'http://localhost:8000'] *)
Definition API_URL : jsstring := lit "http://localhost:8000".

(** How a [fetch] settles: the promise rejects (network exception), or it
    resolves with a status and a body; [None] is a body that
    [response.json()] cannot parse, [Some data] the parsed value. *)
Inductive FetchResult (A : Type) :=
| Rejected
| Resolved (status : N) (body : option A).
Arguments Rejected {A}.
Arguments Resolved {A} status body.

(** [response.ok]: status in the range 200-299. *)
Definition ok (status : N) : bool := ((200 <=? status) && (status <=? 299))%N.

(** [await fetch(...)] once the request has settled as [r]. *)
Definition await_fetch {S A} (r : FetchResult A) : M S (N * option A) :=
  match r with
  | Rejected => throw
  | Resolved status body => ret (status, body)
  end.

(** [await response.json()] *)
Definition response_json {S A} (body : option A) : M S A :=
  match body with
  | Some data => ret data
  | None => throw
  end.

(** The request counts as successful when it resolves with a 2xx status
    and a body that parses. *)
Definition succeeds {A} (r : FetchResult A) : bool :=
  match r with
  | Resolved status (Some _) => ok status
  | _ => false
  end.

End Script.
Import Script.

(** ** Chat controller ([back_connect.js]) *)

Module Chat.

(** *** Data *)

(** One image of a response: [{type, url}]. *)
Record ImageResult := { img_type : jsstring; img_url : jsstring }.

(** One stored turn as the response contract gives it:
    [{userMessage, images}] with [images] an array. *)
Record ChatHistoryEntry := {
  userMessage : jsstring;
  images : list ImageResult
}.

(** An element of a [chatHistory] list. [sendMessage] stores [data.images]
    as the response had it: an array ([Some]), or [undefined] ([None]). *)
Record HistoryItem := {
  item_userMessage : jsstring;
  item_images : option (list ImageResult)
}.

(** A stored turn whose [images] is an array, as an element of the
    history. *)
Definition Turn (entry : ChatHistoryEntry) : HistoryItem :=
  {| item_userMessage := userMessage entry;
     item_images := Some (images entry) |}.

(** The second argument of [addMessageToChat]: the literals ['user'], ['ai']. *)
Inductive MessageType := user | ai.

(** A [div.dapp__message] of the transcript: its text, the [_user]/[_ai]
    class and whether it carries the [_loading] class. *)
Record Message := {
  textContent : jsstring;
  messageType : MessageType;
  isLoading : bool
}.

(** Inline style of a created image (at creation time; the fade-in timers
    of the script only rewrite [opacity] and [transform] later on). *)
Record Style := {
  opacity : jsstring;
  transform : jsstring;
  transition : jsstring
}.

(** A created [img] element. *)
Record Image := { src : jsstring; alt : jsstring; style : Style }.

(** Children of the display panels: an image, a [div] holding images (the
    script creates one, [div.dapp__two]), or [Markup], which stands for
    whatever the page markup put into a panel before the script ran. *)
Inductive Node :=
| Img (i : Image)
| Div (className : jsstring) (children : list Image)
| Markup (html : jsstring).

(** Body of [POST /generate-images]. *)
Record Request := {
  url : jsstring;
  user_prompt : jsstring;
  chat_type : jsstring
}.

(** Parsed body of a response that follows the contract of the backend:
    [{images, type}] with [images] an array of images and [type] a
    string. *)
Record ResponseData := {
  data_images : list ImageResult;
  data_type : jsstring
}.

(** What [await response.json()] gives, as far as the script looks at it:
    [null], or a value with its [images] (an array of images, or [None]
    when the property is [undefined] or [null]) and its [type] (a string,
    or [None]). A number, a string or a boolean has neither property.
    Left out are the values whose [images] is something else again (a
    string, a number, an array with elements that are not objects). *)
Inductive Json :=
| JsonNull
| JsonObject (imgs : option (list ImageResult)) (ty : option jsstring).

(** A body that follows the contract, among all parsed bodies. *)
Definition Data (data : ResponseData) : Json :=
  JsonObject (Some (data_images data)) (Some (data_type data)).

(** The ways a request settles within the contract (it fails, or it gives
    a body that follows the contract), among all the ways it settles. *)
Definition contract (r : FetchResult ResponseData) : FetchResult Json :=
  match r with
  | Rejected => Rejected
  | Resolved status body => Resolved status (Data <$> body)
  end.

(** Writes to the input field, to the transcript and to the network, in
    program order. *)
Inductive Effect :=
| AppendMessage (m : Message)
| RemoveMessage (m : Message)
| ClearChat
| SetInputValue (v : jsstring)
| Fetch (req : Request).

(** Module-level variables and the page regions the script addresses. *)
Record Page := {
  currentChatType : jsstring;
  chatHistory : gmap (list N) (list HistoryItem);
  input_value : jsstring;            (* .dapp__input input *)
  dapp__chat : list Message;         (* .dapp__chat *)
  dapp__website : list Node;         (* .dapp__website *)
  website_active : bool;             (*   its _active class *)
  dapp__logos : list Node;           (* .dapp__design .dapp__logos *)
  dapp__imgs : list Node;            (* .dapp__design .dapp__imgs *)
  design_active : bool;              (* .dapp__design _active class *)
  trace : list Effect
}.

Definition set_currentChatType v (p : Page) : Page :=
  {| currentChatType := v; chatHistory := chatHistory p;
     input_value := input_value p; dapp__chat := dapp__chat p;
     dapp__website := dapp__website p; website_active := website_active p;
     dapp__logos := dapp__logos p; dapp__imgs := dapp__imgs p;
     design_active := design_active p; trace := trace p |}.

Definition set_chatHistory v (p : Page) : Page :=
  {| currentChatType := currentChatType p; chatHistory := v;
     input_value := input_value p; dapp__chat := dapp__chat p;
     dapp__website := dapp__website p; website_active := website_active p;
     dapp__logos := dapp__logos p; dapp__imgs := dapp__imgs p;
     design_active := design_active p; trace := trace p |}.

Definition set_input_value v (p : Page) : Page :=
  {| currentChatType := currentChatType p; chatHistory := chatHistory p;
     input_value := v; dapp__chat := dapp__chat p;
     dapp__website := dapp__website p; website_active := website_active p;
     dapp__logos := dapp__logos p; dapp__imgs := dapp__imgs p;
     design_active := design_active p; trace := trace p |}.

Definition set_dapp__chat v (p : Page) : Page :=
  {| currentChatType := currentChatType p; chatHistory := chatHistory p;
     input_value := input_value p; dapp__chat := v;
     dapp__website := dapp__website p; website_active := website_active p;
     dapp__logos := dapp__logos p; dapp__imgs := dapp__imgs p;
     design_active := design_active p; trace := trace p |}.

Definition set_dapp__website v (p : Page) : Page :=
  {| currentChatType := currentChatType p; chatHistory := chatHistory p;
     input_value := input_value p; dapp__chat := dapp__chat p;
     dapp__website := v; website_active := website_active p;
     dapp__logos := dapp__logos p; dapp__imgs := dapp__imgs p;
     design_active := design_active p; trace := trace p |}.

Definition set_design v w (p : Page) : Page :=
  {| currentChatType := currentChatType p; chatHistory := chatHistory p;
     input_value := input_value p; dapp__chat := dapp__chat p;
     dapp__website := dapp__website p; website_active := website_active p;
     dapp__logos := v; dapp__imgs := w;
     design_active := design_active p; trace := trace p |}.

Definition set_active w d (p : Page) : Page :=
  {| currentChatType := currentChatType p; chatHistory := chatHistory p;
     input_value := input_value p; dapp__chat := dapp__chat p;
     dapp__website := dapp__website p; website_active := w;
     dapp__logos := dapp__logos p; dapp__imgs := dapp__imgs p;
     design_active := d; trace := trace p |}.

Definition log (e : Effect) (p : Page) : Page :=
  {| currentChatType := currentChatType p; chatHistory := chatHistory p;
     input_value := input_value p; dapp__chat := dapp__chat p;
     dapp__website := dapp__website p; website_active := website_active p;
     dapp__logos := dapp__logos p; dapp__imgs := dapp__imgs p;
     design_active := design_active p; trace := trace p ++ [e] |}.

Abbreviation M := (Script.M Page).

Local Open Scope js_scope.

(** *** Captions *)

Definition design : jsstring := lit "design".
Definition website : jsstring := lit "website".

Definition loadingMsg (chatType : jsstring) : jsstring :=
  if str_eqb chatType design
  then lit "Generating logo and banner..."
  else lit "Generating website mockup...".

(** The check mark U+2713 opens both success captions. *)
Definition successMsg (chatType : jsstring) (imgs : list ImageResult)
    : jsstring :=
  if str_eqb chatType design
  then 0x2713%N :: lit " Successfully generated "
         ++ nat_toString (length imgs) ++ lit " images (logo + banner)"
  else 0x2713%N :: lit " Website mockup generated successfully!".

(** [data.images]: a [TypeError] when [data] is [null]. *)
Definition json_images (data : Json) : M (option (list ImageResult)) :=
  match data with
  | JsonNull => throw
  | JsonObject imgs _ => ret imgs
  end.

(** [data.type] *)
Definition json_type (data : Json) : M (option jsstring) :=
  match data with
  | JsonNull => throw
  | JsonObject _ ty => ret ty
  end.

(** The conditional expression that builds the success caption:
    [images.length] is evaluated on the design tab only, and is a
    [TypeError] when [images] is [undefined]. *)
Definition successMsg_expr (chatType : jsstring)
    (images : M (option (list ImageResult))) : M jsstring :=
  if str_eqb chatType design
  then imgs <- images ;;
       match imgs with
       | Some imgs => ret (successMsg chatType imgs)
       | None => throw
       end
  else ret (successMsg chatType []).

(** The ballot cross U+2717 opens the failure caption. *)
Definition errorMsg : jsstring :=
  0x2717%N :: lit " Error generating images. Please try again.".

(** The greeting starts with U+1F44B, a surrogate pair. *)
Definition greeting (chatType : jsstring) : jsstring :=
  if str_eqb chatType design
  then 0xD83D%N :: 0xDC4B%N ::
       lit " Hello! I can generate logo and banner images for your project."
       ++ lit " What would you like to create?"
  else 0xD83D%N :: 0xDC4B%N ::
       lit " Hello! I can generate website mockup designs."
       ++ lit " Describe your ideal website!".

(** *** Transcript *)

(** The element [addMessageToChat] creates (the scroll position it sets
    afterwards is left out). *)
Definition messageDiv (message : jsstring) (type : MessageType)
    (loading : bool) : Message :=
  {| textContent := message; messageType := type; isLoading := loading |}.

Definition addMessageToChat (message : jsstring) (type : MessageType)
    (loading : bool) : M unit :=
  modify (fun p => log (AppendMessage (messageDiv message type loading))
                     (set_dapp__chat
                        (dapp__chat p ++ [messageDiv message type loading]) p)).

(** [document.querySelector('.dapp__message._loading')]: the first message
    in document order that carries the [_loading] class. *)
Definition querySelector_loading (chat : list Message) : option Message :=
  List.find isLoading chat.

(** [element.remove()] for the first loading message. *)
Fixpoint remove_loading (chat : list Message) : list Message :=
  match chat with
  | [] => []
  | m :: chat' => if isLoading m then chat' else m :: remove_loading chat'
  end.

Definition removeLoadingMessage : M unit :=
  chat <- get dapp__chat ;;
  match querySelector_loading chat with
  | Some loadingMessage =>
      modify (fun p => log (RemoveMessage loadingMessage)
                         (set_dapp__chat (remove_loading chat) p))
  | None => ret tt
  end.

(** *** Image display *)

Definition logoImg (img : ImageResult) : Image :=
  {| src := img_url img; alt := lit "Generated Logo";
     style := {| opacity := lit "0"; transform := lit "scale(0.8)";
                 transition := lit "all 0.5s ease" |} |}.

Definition bannerImg (img : ImageResult) : Image :=
  {| src := img_url img; alt := lit "Generated Banner";
     style := {| opacity := lit "0"; transform := lit "translateY(20px)";
                 transition := lit "all 0.5s ease" |} |}.

Definition websiteImg (img : ImageResult) : Image :=
  {| src := img_url img; alt := lit "Generated Website";
     style := {| opacity := lit "0"; transform := lit "scale(0.95)";
                 transition := lit "all 0.6s ease" |} |}.

(** Body of the [images.forEach] callback of [displayDesignImages]: [lt]
    are the children of [logoContainer] and of [twoContainer] so far. *)
Definition design_step (lt : list Node * list Image) (img : ImageResult)
    : list Node * list Image :=
  let (logoContainer, twoContainer) := lt in
  if str_eqb (img_type img) (lit "logo")
  then (logoContainer ++ [Img (logoImg img)], twoContainer)
  else if str_eqb (img_type img) (lit "banner")
  then (logoContainer, twoContainer ++ [bannerImg img])
  else (logoContainer, twoContainer).

(** Both containers are emptied, [twoContainer] (a fresh [div.dapp__two])
    becomes the only child of [imgsContainer], and the loop fills
    [logoContainer] and [twoContainer]. *)
Definition displayDesignImages (imgs : list ImageResult) : M unit :=
  let (logoContainer, twoContainer) := fold_left design_step imgs ([], []) in
  modify (set_design logoContainer [Div (lit "dapp__two") twoContainer]).

Definition displayWebsiteImage (imgs : list ImageResult) : M unit :=
  match imgs with
  | img0 :: _ => modify (set_dapp__website [Img (websiteImg img0)])
  | [] => ret tt
  end.

Definition displayImages (imgs : list ImageResult) (type : jsstring) : M unit :=
  if str_eqb type design then displayDesignImages imgs
  else if str_eqb type website then displayWebsiteImage imgs
  else ret tt.

(** The same three functions when [images] is [undefined]:
    [displayDesignImages] has emptied both containers and put
    [twoContainer] in place when [images.forEach] throws;
    [displayWebsiteImage] throws at [images.length] before it writes. *)
Definition displayDesignImages_undefined : M unit :=
  modify (set_design [] [Div (lit "dapp__two") []]) ;;
  throw.

Definition displayWebsiteImage_undefined : M unit := throw.

Definition displayImages_undefined (type : jsstring) : M unit :=
  if str_eqb type design then displayDesignImages_undefined
  else if str_eqb type website then displayWebsiteImage_undefined
  else ret tt.

(** [displayImages(images, type)] for every argument the script passes:
    a [type] that is no string equals neither literal. *)
Definition displayImages_any (imgs : option (list ImageResult))
    (type : option jsstring) : M unit :=
  match type, imgs with
  | Some type, Some imgs => displayImages imgs type
  | Some type, None => displayImages_undefined type
  | None, _ => ret tt
  end.

(** *** Tabs and history replay *)

Definition toggleDisplay (type : jsstring) : M unit :=
  if str_eqb type website
  then modify (set_active true false)
  else modify (set_active false true).

(** [chatHistory[type]] followed by a method call: a [TypeError] when the
    object has no such key. *)
Definition chatHistory_get (type : jsstring) : M (list HistoryItem) :=
  h <- get chatHistory ;;
  match h !! type with
  | Some items => ret items
  | None => throw
  end.

(** The callback of [chatHistory[type].forEach] in [loadChatHistory]. *)
Definition replay_item (type : jsstring) (item : HistoryItem) : M unit :=
  addMessageToChat (item_userMessage item) user false ;;
  caption <- successMsg_expr type (ret (item_images item)) ;;
  addMessageToChat caption ai false ;;
  displayImages_any (item_images item) (Some type).

Definition loadChatHistory (type : jsstring) : M unit :=
  modify (fun p => log ClearChat (set_dapp__chat [] p)) ;;
  addMessageToChat (greeting type) ai false ;;
  items <- chatHistory_get type ;;
  forEach items (replay_item type).

(** The click handler that [initializeSwitchers] installs on the control
    whose [data-switch] attribute is [type] (the [_active] class of the
    controls themselves is left out). *)
Definition switchTab (type : jsstring) : M unit :=
  modify (set_currentChatType type) ;;
  t <- get currentChatType ;;
  toggleDisplay t ;;
  t <- get currentChatType ;;
  loadChatHistory t.

Definition initializeImageDisplay : M unit :=
  t <- get currentChatType ;;
  loadChatHistory t.

(** *** Sending a message *)

(** [sendMessage] up to its [await fetch(...)]: [None] when it returned
    early, otherwise the [userMessage] the suspended call holds on to. *)
Definition sendMessage_submit : M (option jsstring) :=
  v <- get input_value ;;
  let userMessage := trim v in
  match userMessage with
  | [] => ret None
  | _ :: _ =>
      addMessageToChat userMessage user false ;;
      modify (fun p => log (SetInputValue []) (set_input_value [] p)) ;;
      t <- get currentChatType ;;
      addMessageToChat (loadingMsg t) ai true ;;
      t <- get currentChatType ;;
      modify (log (Fetch {| url := API_URL ++ lit "/generate-images";
                            user_prompt := userMessage;
                            chat_type := t |})) ;;
      ret (Some userMessage)
  end.

(** [chatHistory[currentChatType].push({userMessage, images})] *)
Definition chatHistory_push (item : HistoryItem) : M unit :=
  t <- get currentChatType ;;
  items <- chatHistory_get t ;;
  modify (fun p =>
    set_chatHistory (<[t := items ++ [item]]> (chatHistory p)) p).

(** The rest of the [try] block of [sendMessage], run when the request has
    settled as [r]. *)
Definition sendMessage_try (userMessage : jsstring)
    (r : FetchResult Json) : M unit :=
  response <- await_fetch r ;;
  if negb (ok (fst response))
  then throw
  else
    data <- response_json (snd response) ;;
    removeLoadingMessage ;;
    t <- get currentChatType ;;
    caption <- successMsg_expr t (json_images data) ;;
    addMessageToChat caption ai false ;;
    imgs <- json_images data ;;
    type <- json_type data ;;
    displayImages_any imgs type ;;
    chatHistory_push {| item_userMessage := userMessage;
                        item_images := imgs |}.

(** The [catch] handler of [sendMessage]. *)
Definition sendMessage_catch : M unit :=
  removeLoadingMessage ;;
  addMessageToChat errorMsg ai false.

(** The continuation of [sendMessage] after its [await]. *)
Definition sendMessage_resume (userMessage : jsstring)
    (r : FetchResult Json) : M unit :=
  try_catch (sendMessage_try userMessage r) sendMessage_catch.

(** One invocation of [sendMessage] run to completion, with [r] the way
    its request (if it issues one) settles. *)
Definition sendMessage (r : FetchResult Json) : M unit :=
  pending <- sendMessage_submit ;;
  match pending with
  | Some userMessage => sendMessage_resume userMessage r
  | None => ret tt
  end.

(** *** Sessions *)

(** The module-level initial values on a page whose markup is [p]
    ([let currentChatType = 'website'; let chatHistory = {design: [],
    website: []}]), followed by [initializeImageDisplay]. *)
Definition load (p : Page) : Page :=
  exec initializeImageDisplay
    (set_chatHistory (<[design := []]> (<[website := []]> ∅))
       (set_currentChatType website p)).

(** The user types [text] into the input field and submits it. *)
Definition submit (text : jsstring) (r : FetchResult Json)
    (p : Page) : Page :=
  exec (sendMessage r) (set_input_value text p).

(** A session of submissions, each run to completion before the next. *)
Definition session (turns : list (jsstring * FetchResult Json))
    (p : Page) : Page :=
  fold_left (fun p turn => submit (fst turn) (snd turn) p) turns p.

(** A page with empty regions, for the examples. *)
Definition blank_page : Page :=
  {| currentChatType := website; chatHistory := ∅; input_value := [];
     dapp__chat := []; dapp__website := []; website_active := true;
     dapp__logos := []; dapp__imgs := []; design_active := false;
     trace := [] |}.

End Chat.

(** ** Stats poller (the two stats scripts) *)

Module Stats.

(** The two scripts differ in [formatVolume] only: the one that also holds
    the chat controller prints dollars, the stand-alone one prints BNB. *)
Inductive Variant := Dollar | BNB.

(** *** Data *)

(** Body of [GET /stats]. The two counters are integers, the volume is a
    double. The script holds the counters in doubles as well: an integer
    of magnitude up to [2^53] is held exactly, and the properties that
    depend on how a counter prints or animates say which range they
    cover. *)
Record StatsSnapshot := {
  token_created : Z;
  trading_volume : float;
  active_users : Z
}.

(** A [.counter__item]: the text of its first [span] and of its first [p],
    where the markup has them. *)
Record CounterItem := {
  span : option jsstring;
  label : option jsstring
}.

(** The closure [update] of one [animateNumber] call, as held by a pending
    [requestAnimationFrame]: the counter it writes to and the captured
    [startValue], [targetValue], [duration] and [startTime]. *)
Record Animation := {
  element : nat;
  startValue : Z;
  targetValue : Z;
  duration : Z;
  startTime : Z
}.

(** The page and the module-level variable of the stats script, with the
    parts of the browser it talks to: the clock, the animation-frame
    callbacks, the interval timers and the requests issued so far. *)
Record Page := {
  counter__item : list CounterItem;  (* querySelectorAll('.counter__item') *)
  statsUpdateTimer : option Z;       (* null, or a timer handle *)
  now : Z;                           (* Date.now() *)
  animationFrames : list Animation;  (* pending requestAnimationFrame *)
  intervals : list Z;                (* handles of the active intervals *)
  nextHandle : Z;                    (* the handle setInterval returns next *)
  requests : list jsstring           (* URLs fetched, in order *)
}.

Definition set_counter__item v (p : Page) : Page :=
  {| counter__item := v; statsUpdateTimer := statsUpdateTimer p;
     now := now p; animationFrames := animationFrames p;
     intervals := intervals p; nextHandle := nextHandle p;
     requests := requests p |}.

Definition set_statsUpdateTimer v (p : Page) : Page :=
  {| counter__item := counter__item p; statsUpdateTimer := v;
     now := now p; animationFrames := animationFrames p;
     intervals := intervals p; nextHandle := nextHandle p;
     requests := requests p |}.

Definition set_now v (p : Page) : Page :=
  {| counter__item := counter__item p; statsUpdateTimer := statsUpdateTimer p;
     now := v; animationFrames := animationFrames p;
     intervals := intervals p; nextHandle := nextHandle p;
     requests := requests p |}.

Definition set_animationFrames v (p : Page) : Page :=
  {| counter__item := counter__item p; statsUpdateTimer := statsUpdateTimer p;
     now := now p; animationFrames := v;
     intervals := intervals p; nextHandle := nextHandle p;
     requests := requests p |}.

Definition set_timers v h (p : Page) : Page :=
  {| counter__item := counter__item p; statsUpdateTimer := statsUpdateTimer p;
     now := now p; animationFrames := animationFrames p;
     intervals := v; nextHandle := h;
     requests := requests p |}.

Definition set_requests v (p : Page) : Page :=
  {| counter__item := counter__item p; statsUpdateTimer := statsUpdateTimer p;
     now := now p; animationFrames := animationFrames p;
     intervals := intervals p; nextHandle := nextHandle p;
     requests := v |}.

Abbreviation M := (Script.M Page).
Local Open Scope js_scope.
Local Open Scope Z_scope.

(** [const STATS_UPDATE_INTERVAL = 10000] *)
Definition STATS_UPDATE_INTERVAL : Z := 10000.

(** *** Formatting *)

Definition formatNumber (num : Z) : jsstring :=
  match int_toString num with
  | c :: s => c :: separate_thousands c s
  | [] => []
  end.

Definition formatVolume (variant : Variant) (volume : float) : jsstring :=
  match variant with
  | Dollar =>
      if PrimFloat.leb 1000000 volume
      then lit "$" ++ toFixed (PrimFloat.div volume 1000000) 2 ++ lit "M"
      else if PrimFloat.leb 1000 volume
      then lit "$" ++ toFixed (PrimFloat.div volume 1000) 2 ++ lit "K"
      else lit "$" ++ toFixed volume 2
  | BNB =>
      if PrimFloat.leb 1000000 volume
      then toFixed (PrimFloat.div volume 1000000) 2 ++ lit "M BNB"
      else if PrimFloat.leb 1000 volume
      then toFixed (PrimFloat.div volume 1000) 2 ++ lit "K BNB"
      else toFixed volume 2 ++ lit " BNB"
  end.

(** *** Display *)

(** [element.textContent = text] for the [span] of counter [i]. *)
Definition set_span (i : nat) (text : jsstring) : M unit :=
  modify (fun p => set_counter__item
    (alter (fun c => {| span := Some text; label := label c |}) i
       (counter__item p)) p).

(** [element.textContent = text] for the [p] of counter [i]. *)
Definition set_label (i : nat) (text : jsstring) : M unit :=
  modify (fun p => set_counter__item
    (alter (fun c => {| span := span c; label := Some text |}) i
       (counter__item p)) p).

Definition requestAnimationFrame (a : Animation) : M unit :=
  modify (fun p => set_animationFrames (animationFrames p ++ [a]) p).

(** [Math.floor(startValue + (targetValue - startValue) * easeOutQuad)]
    with [progress = Math.min(elapsed / duration, 1)] and
    [easeOutQuad = progress * (2 - progress)], over exact rationals. With
    [e = min elapsed duration] the eased progress is
    [e * (2 * duration - e) / duration^2]. The doubles of the script give
    the same integer in the first frame ([elapsed = 0], eased progress 0)
    and from [elapsed >= duration] on (eased progress 1) when the
    difference [targetValue - startValue] is exact on doubles: for start
    and target values of magnitude below [2^52], and for a target of 0.
    In the frames in between the rounding of the doubles can make the
    script show a neighbouring integer. *)
Definition currentValue (a : Animation) (elapsed : Z) : Z :=
  let e := Z.min elapsed (duration a) in
  startValue a +
  ((targetValue a - startValue a) * (e * (2 * duration a - e)))
    / (duration a * duration a).

(** The inner function [update] of [animateNumber]. *)
Definition update (a : Animation) : M unit :=
  t <- get now ;;
  let elapsed := t - startTime a in
  set_span (element a) (formatNumber (currentValue a elapsed)) ;;
  if elapsed <? duration a
  then requestAnimationFrame a
  else ret tt.

(** [element.textContent] of the [span] of counter [i]. *)
Definition span_textContent (i : nat) (p : Page) : jsstring :=
  default [] (counter__item p !! i ≫= span).

(** [animateNumber(element, targetValue)] for the [span] of counter [i];
    [duration] takes its default, 1000. *)
Definition animateNumber (i : nat) (target : Z) : M unit :=
  text <- get (span_textContent i) ;;
  let start := default 0 (parseInt (remove_whitespace text)) in
  t <- get now ;;
  update {| element := i; startValue := start; targetValue := target;
            duration := 1000; startTime := t |}.

(** The browser runs the pending animation-frame callbacks at time [t]. *)
Definition animationFrame (t : Z) : M unit :=
  modify (set_now t) ;;
  callbacks <- get animationFrames ;;
  modify (set_animationFrames []) ;;
  forEach callbacks update.

(** [if (x) ...] for an element that a [querySelector] may not find. *)
Definition when_found {A} (x : option A) (f : A -> M unit) : M unit :=
  match x with
  | Some a => f a
  | None => ret tt
  end.

Definition updateStatsDisplay (variant : Variant) (stats : StatsSnapshot)
    : M unit :=
  counterItems <- get counter__item ;;
  match counterItems with
  | item0 :: item1 :: item2 :: _ =>
      when_found (span item0) (fun _ =>
        animateNumber 0 (token_created stats)) ;;
      when_found (label item0) (fun _ => set_label 0 (lit "Token created")) ;;
      when_found (span item1) (fun _ =>
        set_span 1 (formatVolume variant (trading_volume stats))) ;;
      when_found (label item1) (fun _ => set_label 1 (lit "Trading volume")) ;;
      when_found (span item2) (fun _ =>
        animateNumber 2 (active_users stats)) ;;
      when_found (label item2) (fun _ => set_label 2 (lit "Active users"))
  | _ => ret tt
  end.

(** *** Fetching *)

(** The snapshot of the [catch] handler. *)
Definition zero_stats : StatsSnapshot :=
  {| token_created := 0; trading_volume := 0%float; active_users := 0 |}.

(** [fetchStats] up to its [await fetch(...)]: the request goes out. *)
Definition fetchStats_request : M unit :=
  modify (fun p => set_requests (requests p ++ [API_URL ++ lit "/stats"]) p).

(** The rest of [fetchStats], run when the request has settled as [r]. *)
Definition fetchStats_resume (variant : Variant)
    (r : FetchResult StatsSnapshot) : M unit :=
  try_catch
    (response <- await_fetch r ;;
     if negb (ok (fst response))
     then throw
     else
       data <- response_json (snd response) ;;
       updateStatsDisplay variant data)
    (updateStatsDisplay variant zero_stats).

(** One call of [fetchStats] run to completion. *)
Definition fetchStats (variant : Variant) (r : FetchResult StatsSnapshot)
    : M unit :=
  fetchStats_request ;;
  fetchStats_resume variant r.

(** *** Polling *)

(** Truthiness of [statsUpdateTimer]: [null] and [0] are falsy. *)
Definition truthy (h : option Z) : bool :=
  match h with
  | Some id => negb (id =? 0)
  | None => false
  end.

(** [setInterval(callback, STATS_UPDATE_INTERVAL)] with the callback of
    [initializeStats], the only one the script registers. *)
Definition setInterval : M Z :=
  id <- get nextHandle ;;
  modify (fun p => set_timers (intervals p ++ [id]) (id + 1) p) ;;
  ret id.

Definition clearInterval (h : option Z) : M unit :=
  modify (fun p =>
    set_timers (List.filter (fun id => negb (bool_decide (Some id = h)))
                  (intervals p))
               (nextHandle p) p).

(** [initializeStats()]. Its call of [fetchStats] is not awaited: it runs
    up to the request and the rest of it runs later. *)
Definition initializeStats : M unit :=
  fetchStats_request ;;
  h <- get statsUpdateTimer ;;
  (if truthy h then clearInterval h else ret tt) ;;
  id <- setInterval ;;
  modify (set_statsUpdateTimer (Some id)).

(** [STATS_UPDATE_INTERVAL] milliseconds pass: every active interval runs
    its callback once, and each callback calls [fetchStats]. *)
Definition intervalTick : M unit :=
  active <- get intervals ;;
  forEach active (fun _ => fetchStats_request).

(** The [beforeunload] listener. *)
Definition beforeunload : M unit :=
  h <- get statsUpdateTimer ;;
  if truthy h then clearInterval h else ret tt.

End Stats.

(** ** The scripts as event handlers *)

Module Events.
Import Chat.

(** *** The chat page with its suspended calls *)

(** The page together with the calls of [sendMessage] that are suspended
    at their [await]: each holds on to the [userMessage] it captured. *)
Record App := {
  page : Page;
  pending : list jsstring
}.

(** What can happen next: the user edits the input field, submits it
    (button click or Enter), a suspended request settles (the one at
    position [i] of the suspended calls, as [r]), or the user clicks the
    tab control of type [t]. *)
Inductive Event :=
| Input (text : jsstring)
| Send
| Settle (i : nat) (r : FetchResult Json)
| Switch (t : jsstring).

Definition step (e : Event) (a : App) : App :=
  match e with
  | Input text =>
      {| page := set_input_value text (page a); pending := pending a |}
  | Send =>
      match sendMessage_submit (page a) with
      | (Return (Some userMessage), p') =>
          {| page := p'; pending := pending a ++ [userMessage] |}
      | (_, p') => {| page := p'; pending := pending a |}
      end
  | Settle i r =>
      match pending a !! i with
      | Some userMessage =>
          {| page := exec (sendMessage_resume userMessage r) (page a);
             pending := delete i (pending a) |}
      | None => a
      end
  | Switch t =>
      {| page := exec (switchTab t) (page a); pending := pending a |}
  end.

Definition run (events : list Event) (a : App) : App :=
  fold_left (fun a e => step e a) events a.

(** A page on which no call is suspended. *)
Definition idle (p : Page) : App := {| page := p; pending := [] |}.

(** *** The tab controls *)

(** An element matched by [querySelectorAll('[data-switch]')]: the value
    of its attribute and whether it carries the [_active] class. *)
Record SwitchBtn := {
  data_switch : jsstring;
  switch_active : bool
}.

Definition classList_remove_active (s : SwitchBtn) : SwitchBtn :=
  {| data_switch := data_switch s; switch_active := false |}.

Definition classList_add_active (s : SwitchBtn) : SwitchBtn :=
  {| data_switch := data_switch s; switch_active := true |}.

(** The click listener that [initializeSwitchers] gives the control at
    position [i] of [switches]: every control loses the [_active] class,
    the clicked one gets it, and the tab of its attribute is shown. A
    position with no control has no listener. *)
Definition click (i : nat) (switches : list SwitchBtn) (p : Page)
    : list SwitchBtn * Page :=
  match switches !! i with
  | Some switchBtn =>
      (alter classList_add_active i (map classList_remove_active switches),
       exec (switchTab (data_switch switchBtn)) p)
  | None => (switches, p)
  end.

(** *** The stats page *)

(** What can happen on the stats page: the start-up call of
    [initializeStats], a tick of the interval, the page unloading, the
    oldest outstanding request settling as [r], an animation frame at
    time [t]. *)
Inductive StatsEvent :=
| Init
| Tick
| Unload
| Settled (r : FetchResult Stats.StatsSnapshot)
| Frame (t : Z).

Definition stats_step (variant : Stats.Variant) (e : StatsEvent)
    (p : Stats.Page) : Stats.Page :=
  match e with
  | Init => exec Stats.initializeStats p
  | Tick => exec Stats.intervalTick p
  | Unload => exec Stats.beforeunload p
  | Settled r => exec (Stats.fetchStats_resume variant r) p
  | Frame t => exec (Stats.animationFrame t) p
  end.

Definition stats_run (variant : Stats.Variant) (events : list StatsEvent)
    (p : Stats.Page) : Stats.Page :=
  fold_left (fun p e => stats_step variant e p) events p.

End Events.

(** ** Vocabulary of the properties *)

Module Props.
Import Chat.

(** A statement leaves the component [f] of the state as it found it,
    whether it completes or throws. *)
Definition keeps {S X A} (f : S -> X) (c : Script.M S A) : Prop :=
  forall p, f (snd (c p)) = f p.

(** A statement completes. *)
Definition completes {S A} (c : Script.M S A) : Prop :=
  forall p, exists a, fst (c p) = Return a.

(** *** What is on the page *)

(** An entry of the transcript with the text [text], authored by [type]
    (the user or the AI), and not a placeholder. *)
Definition entry (text : jsstring) (type : MessageType) : Message :=
  {| textContent := text; messageType := type; isLoading := false |}.

(** The loading placeholder with the text [text]: an AI entry that carries
    the [_loading] class. *)
Definition placeholder (text : jsstring) : Message :=
  {| textContent := text; messageType := ai; isLoading := true |}.

(** The image elements of the three regions: each shows the image at
    [url], with the alternative text and the initial style of its
    region. *)
Definition logo_element (url : jsstring) : Image :=
  {| src := url; alt := lit "Generated Logo";
     style := {| opacity := lit "0"; transform := lit "scale(0.8)";
                 transition := lit "all 0.5s ease" |} |}.

Definition banner_element (url : jsstring) : Image :=
  {| src := url; alt := lit "Generated Banner";
     style := {| opacity := lit "0"; transform := lit "translateY(20px)";
                 transition := lit "all 0.5s ease" |} |}.

Definition mockup_element (url : jsstring) : Image :=
  {| src := url; alt := lit "Generated Website";
     style := {| opacity := lit "0"; transform := lit "scale(0.95)";
                 transition := lit "all 0.6s ease" |} |}.

(** The two entries a stored turn is replayed as in a transcript of type
    [t]. *)
Definition turn_entries (t : jsstring) (item : ChatHistoryEntry)
    : list Message :=
  [entry (userMessage item) user; entry (successMsg t (images item)) ai].

(** The transcript as a function of the stored history of type [t]: the
    greeting, then the entries of each stored turn. *)
Definition transcript_of (t : jsstring) (items : list ChatHistoryEntry)
    : list Message :=
  entry (greeting t) ai :: flat_map (turn_entries t) items.



Definition is_logo (img : ImageResult) : bool :=
  str_eqb (img_type img) (lit "logo").
Definition is_banner (img : ImageResult) : bool :=
  str_eqb (img_type img) (lit "banner").

(** The image list of the design example. *)
Definition example_images : list ImageResult :=
  [{| img_type := lit "logo"; img_url := lit "a" |};
   {| img_type := lit "banner"; img_url := lit "b" |};
   {| img_type := lit "other"; img_url := lit "c" |}].

(** A body carrying the example images, and the response that has it. *)
Definition example_data : ResponseData :=
  {| data_images := example_images; data_type := design |}.

Definition example_response : FetchResult Json :=
  contract (Resolved 200 (Some example_data)).

(** No request is pending on the page and the history has a list for the
    current chat type: the state between two invocations of [sendMessage]
    that each ran to completion. *)
Definition quiescent (p : Page) : Prop :=
  querySelector_loading (dapp__chat p) = None /\
  is_Some (chatHistory p !! currentChatType p).


(** The stats timer variable and the browser's interval table agree: the
    handle in [statsUpdateTimer], if any, is the one active interval, and
    handles are positive integers handed out in increasing order. *)
Definition polling_ok (p : Stats.Page) : Prop :=
  (0 < Stats.nextHandle p)%Z /\
  match Stats.statsUpdateTimer p with
  | Some id => Stats.intervals p = [id] /\ (0 < id < Stats.nextHandle p)%Z
  | None => Stats.intervals p = []
  end.

(** The animations still pending on a page write to the two animated
    counters only and are over by the time [T]. *)
Definition pending_ok (T : Z) (frames : list Stats.Animation) : Prop :=
  Forall (fun a => (Stats.element a = 0%nat \/ Stats.element a = 2%nat) /\
                   (Stats.startTime a + Stats.duration a <= T)%Z) frames.

(** A statement leaves the clock alone and adds to the pending animations
    only animations that are over 1000 milliseconds from now. *)
Definition queues {A} (c : Script.M Stats.Page A) : Prop :=
  forall p,
    Stats.now (snd (c p)) = Stats.now p /\
    exists Q,
      Stats.animationFrames (snd (c p)) = Stats.animationFrames p ++ Q /\
      pending_ok (Stats.now p + 1000) Q.

(** An animation towards zero on counter [i] that is over at time [T]. *)
Definition closing (T : Z) (i : nat) (a : Stats.Animation) : Prop :=
  Stats.element a = i /\ Stats.targetValue a = 0%Z /\
  Stats.duration a = 1000%Z /\ Stats.startTime a = (T - 1000)%Z.

(** A page on which a zeroed snapshot is being shown: the volume counter
    reads [vol], and the two animations towards zero are the last ones
    pending, behind animations that are over by [T] as well. *)
Definition running (T : Z) (vol : jsstring) (q : Stats.Page) : Prop :=
  (3 <= length (Stats.counter__item q))%nat /\
  Stats.span <$> Stats.counter__item q !! 1%nat = Some (Some vol) /\
  exists Q a0 a2,
    Stats.animationFrames q = Q ++ [a0; a2] /\
    pending_ok T Q /\ closing T 0 a0 /\ closing T 2 a2.

(** The counters after animation [a] has written its frame of time [t]. *)
Definition written (a : Stats.Animation) (t : Z)
    (cs : list Stats.CounterItem) : list Stats.CounterItem :=
  alter (fun c =>
           {| Stats.span :=
                Some (Stats.formatNumber
                        (Stats.currentValue a (t - Stats.startTime a)));
              Stats.label := Stats.label c |})
        (Stats.element a) cs.

(** The animation that [animateNumber i target] starts on page [q]. *)
Definition started (i : nat) (target : Z) (q : Stats.Page) : Stats.Animation :=
  {| Stats.element := i;
     Stats.startValue :=
       default 0%Z
         (parseInt (remove_whitespace (Stats.span_textContent i q)));
     Stats.targetValue := target;
     Stats.duration := 1000;
     Stats.startTime := Stats.now q |}.

(** The number [animateNumber] reads off counter [i] of page [q] as the
    start value of its animation (0 where the text is no number). *)
Definition shown_number (i : nat) (q : Stats.Page) : Z :=
  default 0%Z (parseInt (remove_whitespace (Stats.span_textContent i q))).

(** The browser runs animation frames at the times [ts], in this order. *)
Definition animationFrames_at (ts : list Z) (q : Stats.Page) : Stats.Page :=
  fold_left (fun q ti => exec (Stats.animationFrame ti) q) ts q.

Definition all_digits (s : jsstring) : Prop :=
  Forall (fun c => isDigit c = true) s.

(** A number printed with two decimal places: a non-empty run of digits,
    a point, two digits. *)
Definition two_decimals (s : jsstring) : Prop :=
  exists whole frac,
    s = whole ++ lit "." ++ frac /\
    whole <> [] /\ length frac = 2%nat /\
    all_digits whole /\ all_digits frac.

(** What the volume counter shows for a volume of zero. *)
Definition zero_volume (variant : Stats.Variant) : jsstring :=
  match variant with
  | Stats.Dollar => lit "$0.00"
  | Stats.BNB => lit "0.00 BNB"
  end.

(** The texts of the first three counters. *)
Definition displayed (p : Stats.Page) : list (option jsstring) :=
  map Stats.span (firstn 3 (Stats.counter__item p)).

(** Three counters as the page shows them before the first poll. *)
Definition example_counters : list Stats.CounterItem :=
  [{| Stats.span := Some (lit "1 000");
      Stats.label := Some (lit "Token created") |};
   {| Stats.span := Some (lit "$5.00");
      Stats.label := Some (lit "Trading volume") |};
   {| Stats.span := Some (lit "77");
      Stats.label := Some (lit "Active users") |}].

(** A stats page as the script finds it when it loads. *)
Definition fresh_stats_page (counters : list Stats.CounterItem) : Stats.Page :=
  {| Stats.counter__item := counters; Stats.statsUpdateTimer := None;
     Stats.now := 0; Stats.animationFrames := [];
     Stats.intervals := []; Stats.nextHandle := 1; Stats.requests := [] |}.

(** *** Sessions of the chat page *)

Import Events.

(** The caption a request that settled as [r] gets on a tab of type [t]. *)
Definition caption (t : jsstring) (r : FetchResult ResponseData) : jsstring :=
  match r with
  | Resolved status (Some data) =>
      if ok status then successMsg t (data_images data) else errorMsg
  | _ => errorMsg
  end.

(** The entries a request that settled as [r] adds to the history. *)
Definition stored (um : jsstring) (r : FetchResult ResponseData)
    : list ChatHistoryEntry :=
  match r with
  | Resolved status (Some data) =>
      if ok status
      then [{| userMessage := um; images := data_images data |}]
      else []
  | _ => []
  end.

(** What a failed turn may change: the transcript, the input field and the
    trace; all the rest of the page is the same. *)
Definition same_but_transcript (p p' : Page) : Prop :=
  currentChatType p' = currentChatType p /\
  chatHistory p' = chatHistory p /\
  dapp__website p' = dapp__website p /\
  dapp__logos p' = dapp__logos p /\
  dapp__imgs p' = dapp__imgs p /\
  website_active p' = website_active p /\
  design_active p' = design_active p.

(** The design slots as [displayDesignImages] fills them. *)
Definition design_slots (imgs : list ImageResult) : list Node * list Node :=
  (map (fun i => Img (logo_element (img_url i))) (List.filter is_logo imgs),
   [Div (lit "dapp__two")
      (map (fun i => banner_element (img_url i))
         (List.filter is_banner imgs))]).

(** The first image of the last stored turn that has an image. *)
Definition latest_mockup (items : list ChatHistoryEntry) : option ImageResult :=
  list.last (omap (fun item => hd_error (images item)) items).

(** The design slots after the history [items] has been replayed on a tab
    of type [t], when they held [old] before. *)
Definition replayed_design (t : jsstring) (items : list ChatHistoryEntry)
    (old : list Node * list Node) : list Node * list Node :=
  if str_eqb t design
  then match list.last items with
       | Some item => design_slots (images item)
       | None => old
       end
  else old.

(** The website panel after the same replay. *)
Definition replayed_website (t : jsstring) (items : list ChatHistoryEntry)
    (old : list Node) : list Node :=
  if str_eqb t design then old
  else if str_eqb t website
  then match latest_mockup items with
       | Some img => [Img (mockup_element (img_url img))]
       | None => old
       end
  else old.

(** Everything on the page but the trace. *)
Definition view (p : Page) :=
  (currentChatType p, chatHistory p, input_value p, dapp__chat p,
   (dapp__website p, website_active p),
   (dapp__logos p, dapp__imgs p, design_active p)).

(** The visible panel is the one of the current chat type. *)
Definition panel_follows_tab (p : Page) : Prop :=
  website_active p = str_eqb (currentChatType p) website /\
  design_active p = negb (str_eqb (currentChatType p) website).

(** The history [h'] has the keys of [h], and under each the list of [h]
    followed by further entries. *)
Definition history_grows (h h' : gmap jsstring (list HistoryItem))
    : Prop :=
  forall t,
    match h !! t with
    | Some items => exists more, h' !! t = Some (items ++ more)
    | None => h' !! t = None
    end.

(** The requests the page has issued, oldest first. *)
Definition fetched (p : Page) : list Request :=
  omap (fun e => match e with Fetch r => Some r | _ => None end) (trace p).

(** The requests the event [e] makes the page issue in state [a]. *)
Definition requests_of (e : Event) (a : App) : list Request :=
  match e with
  | Send =>
      match trim (input_value (page a)) with
      | [] => []
      | (_ :: _) as userMessage =>
          [{| url := API_URL ++ lit "/generate-images";
              user_prompt := userMessage;
              chat_type := currentChatType (page a) |}]
      end
  | _ => []
  end.

(** The image regions after [displayImages imgs d], as functions of what
    they held before. *)
Definition shown_design (d : jsstring) (imgs : list ImageResult)
    (old : list Node * list Node) : list Node * list Node :=
  if str_eqb d design then design_slots imgs else old.

Definition shown_website (d : jsstring) (imgs : list ImageResult)
    (old : list Node) : list Node :=
  if str_eqb d design then old
  else if str_eqb d website
  then match imgs with
       | img0 :: _ => [Img (mockup_element (img_url img0))]
       | [] => old
       end
  else old.

(** The replay of the history of type [t] gets past the stored turn: it
    does unless the turn was stored without images and the caption (on
    the design tab) or the website panel needs them. *)
Definition replays (t : jsstring) (item : HistoryItem) : bool :=
  match item_images item with
  | Some _ => true
  | None => negb (str_eqb t design) && negb (str_eqb t website)
  end.

(** The entries the replay of a stored turn appends, whether it gets past
    the turn or not. *)
Definition item_entries (t : jsstring) (item : HistoryItem) : list Message :=
  entry (item_userMessage item) user ::
  match item_images item with
  | Some imgs => [entry (successMsg t imgs) ai]
  | None => if str_eqb t design then [] else [entry (successMsg t []) ai]
  end.

(** The entries the replay of a stored history appends: the replay ends at
    the first turn it does not get past. *)
Fixpoint replayed_entries (t : jsstring) (items : list HistoryItem)
    : list Message :=
  match items with
  | [] => []
  | item :: items =>
      item_entries t item ++
      (if replays t item then replayed_entries t items else [])
  end.

(** The transcript a tab switch to [t] leaves, for every stored history. *)
Definition replay_of (t : jsstring) (items : list HistoryItem)
    : list Message :=
  entry (greeting t) ai :: replayed_entries t items.

(** The image regions: the website panel and the two design slots. *)
Definition regions (p : Page) : list Node * (list Node * list Node) :=
  (dapp__website p, (dapp__logos p, dapp__imgs p)).

(** The image regions after the replay of a stored turn. *)
Definition item_regions (t : jsstring) (item : HistoryItem)
    (old : list Node * (list Node * list Node))
    : list Node * (list Node * list Node) :=
  match item_images item with
  | Some imgs => (shown_website t imgs (fst old), shown_design t imgs (snd old))
  | None => old
  end.

(** The image regions after the replay of a stored history. *)
Fixpoint replayed_regions (t : jsstring) (items : list HistoryItem)
    (old : list Node * (list Node * list Node))
    : list Node * (list Node * list Node) :=
  match items with
  | [] => old
  | item :: items =>
      if replays t item
      then replayed_regions t items (item_regions t item old)
      else item_regions t item old
  end.

(** The transcript of [p'] has a placeholder only if that of [p] has. *)
Definition no_new_placeholder (p p' : Page) : Prop :=
  querySelector_loading (dapp__chat p) = None ->
  querySelector_loading (dapp__chat p') = None.

(** Selecting the current tab again would change nothing on the page: what
    is displayed is what the history replays. *)
Definition replay_stable (p : Page) : Prop :=
  view (exec (switchTab (currentChatType p)) p) = view p.

(** *** The stats page over time *)

Import Stats.
Local Open Scope Z_scope.

(** The snapshot [fetchStats] renders when its request settles as [r]. *)
Definition rendered (r : FetchResult StatsSnapshot) : StatsSnapshot :=
  match r with
  | Resolved status (Some data) => if ok status then data else zero_stats
  | _ => zero_stats
  end.

(** An animation towards [n] on counter [i] that is over at time [T]. *)
Definition heading (T : Z) (i : nat) (n : Z) (a : Animation) : Prop :=
  element a = i /\ targetValue a = n /\
  duration a = 1000 /\ startTime a = T - 1000.

(** A page on which the snapshot [stats] is being shown: the volume counter
    reads its volume, and the animations towards its two counts are the
    last ones pending, behind animations that are over by [T] as well. *)
Definition showing (variant : Variant) (T : Z) (stats : StatsSnapshot)
    (q : Page) : Prop :=
  (3 <= length (counter__item q))%nat /\
  span <$> counter__item q !! 1%nat =
    Some (Some (formatVolume variant (trading_volume stats))) /\
  exists Q a0 a2,
    animationFrames q = Q ++ [a0; a2] /\
    pending_ok T Q /\
    heading T 0 (token_created stats) a0 /\
    heading T 2 (active_users stats) a2.

(** A snapshot of the server, for the examples. *)
Definition example_stats : StatsSnapshot :=
  {| token_created := 1234; trading_volume := 1500%float;
     active_users := 56 |}.

(** The texts under the three counters. *)
Definition captions : list jsstring :=
  [lit "Token created"; lit "Trading volume"; lit "Active users"].

(** The labels of the first three counters. *)
Definition labels (p : Page) : list (option jsstring) :=
  map label (firstn 3 (counter__item p)).

(** The timer variable and the interval table of a page that may have
    been unloaded: at most one interval is active, and if one is, its
    handle is the one in [statsUpdateTimer]. *)
Definition timer_ok (p : Page) : Prop :=
  0 < nextHandle p /\
  (forall id, statsUpdateTimer p = Some id -> 0 < id < nextHandle p) /\
  (intervals p = [] \/
   exists id, statsUpdateTimer p = Some id /\ intervals p = [id]).

(** The requests the event [e] makes the stats page issue in state [p]. *)
Definition stats_requests_of (e : StatsEvent) (p : Page) : list jsstring :=
  match e with
  | Init => [API_URL ++ lit "/stats"]
  | Tick => map (fun _ => API_URL ++ lit "/stats") (intervals p)
  | _ => []
  end.

(** A space after every third code unit that has more behind it. *)
Fixpoint every_three (s : jsstring) : jsstring :=
  match s with
  | a :: b :: c :: ((_ :: _) as rest) =>
      a :: b :: c :: 0x20%N :: every_three rest
  | _ => s
  end.

(** The digits of a number in groups of three, counted from the right. *)
Definition thousands (s : jsstring) : jsstring :=
  rev (every_three (rev s)).

(** A statement takes every state to one that is related to it by [R],
    whether it completes or throws. *)
Definition follows {S A} (R : S -> S -> Prop) (c : Script.M S A) : Prop :=
  forall p, R p (snd (c p)).

(** The counters of [p'] are those of [p], each with a number element if
    it had one. *)
Definition spans_stay (p p' : Page) : Prop :=
  Forall2 (fun c c' => is_Some (span c) -> is_Some (span c'))
    (counter__item p) (counter__item p').

(** A page on which a poll animates: three counters with a number element,
    and pending animations that are over within 1000 milliseconds. *)
Definition pollable (p : Page) : Prop :=
  (3 <= length (counter__item p))%nat /\
  Forall (fun c => is_Some (span c)) (firstn 3 (counter__item p)) /\
  pending_ok (now p + 1000) (animationFrames p).

(** The animation frames among [events] come at times that do not
    decrease, from [t0] on. *)
Fixpoint clock_forward (t0 : Z) (events : list StatsEvent) : Prop :=
  match events with
  | [] => True
  | Frame t :: events => t0 <= t /\ clock_forward t events
  | _ :: events => clock_forward t0 events
  end.

End Props.
Import Props.

(** ** The embedding on small inputs *)

Example trim_example : trim (lit "  logo for a cafe  ") = lit "logo for a cafe".
Proof. reflexivity. Qed.

(** A no-break space and a line feed are white space as well. *)
Example trim_unicode_example : trim [0xA0; 0x68; 0x69; 0x0A]%N = lit "hi".
Proof. reflexivity. Qed.

Example formatNumber_example :
  map Stats.formatNumber [0; 999; 1000; 1234567; -1234]%Z =
    [lit "0"; lit "999"; lit "1 000"; lit "1 234 567"; lit "-1 234"].
Proof. reflexivity. Qed.

Example parseInt_example :
  map (fun s => parseInt (remove_whitespace (lit s)))
      ["1 234 567"; "-12"; "12px"; "$5.00"; "0x1F"]%string =
    [Some 1234567; Some (-12); Some 12; None; Some 31]%Z.
Proof. reflexivity. Qed.

(** [toFixed] rounds the exact value of the double, ties upwards in
    magnitude, and switches to exponent notation from [10^21] on. *)
Example toFixed_example :
  toFixed 0.125 2 = lit "0.13" /\
  toFixed (-2.5) 0 = lit "-3" /\
  toFixed (PrimFloat.div 1 3) 2 = lit "0.33" /\
  toFixed 1e21 2 = lit "1e+21" /\
  toFixed 1180591620717411303424 2 = lit "1.1805916207174113e+21".
Proof. repeat split; vm_compute; reflexivity. Qed.

(** Half way through its 1000 milliseconds an animation from 1000 to 0
    shows 250. *)
Example currentValue_example :
  Stats.currentValue
    {| Stats.element := 0; Stats.startValue := 1000; Stats.targetValue := 0;
       Stats.duration := 1000; Stats.startTime := 0 |} 500 = 250%Z.
Proof. reflexivity. Qed.

(** The captions of the chat, code unit by code unit: the check mark and
    the ballot cross are one unit each, the waving hand is a surrogate
    pair. *)
Example captions_example :
  Chat.successMsg Chat.design Props.example_images =
    (0x2713%N :: lit " Successfully generated 3 images (logo + banner)") /\
  Chat.successMsg Chat.website Props.example_images =
    (0x2713%N :: lit " Website mockup generated successfully!") /\
  Chat.errorMsg =
    (0x2717%N :: lit " Error generating images. Please try again.") /\
  Chat.loadingMsg Chat.design = lit "Generating logo and banner..." /\
  Chat.loadingMsg Chat.website = lit "Generating website mockup..." /\
  Chat.greeting Chat.website =
    (0xD83D%N :: 0xDC4B%N ::
     lit " Hello! I can generate website mockup designs. Describe your ideal website!").
Proof. repeat split; vm_compute; reflexivity. Qed.

(** The element [addMessageToChat] appends has the text, the author class
    and the [_loading] class it was called with. *)
Example addMessageToChat_example :
  Chat.dapp__chat
    (exec (Chat.addMessageToChat (lit "wait") Chat.ai true)
       (exec (Chat.addMessageToChat (lit "hi") Chat.user false)
          Chat.blank_page)) =
    [{| Chat.textContent := lit "hi"; Chat.messageType := Chat.user;
        Chat.isLoading := false |};
     {| Chat.textContent := lit "wait"; Chat.messageType := Chat.ai;
        Chat.isLoading := true |}].
Proof. reflexivity. Qed.

(** A failed turn on the website tab, entry by entry. *)
Example sendMessage_failure_example :
  Chat.dapp__chat
    (Chat.submit (lit " hi ") (Resolved 500 None) (Chat.load Chat.blank_page)) =
    [{| Chat.textContent :=
          0xD83D%N :: 0xDC4B%N ::
          lit " Hello! I can generate website mockup designs. Describe your ideal website!";
        Chat.messageType := Chat.ai; Chat.isLoading := false |};
     {| Chat.textContent := lit "hi";
        Chat.messageType := Chat.user; Chat.isLoading := false |};
     {| Chat.textContent :=
          0x2717%N :: lit " Error generating images. Please try again.";
        Chat.messageType := Chat.ai; Chat.isLoading := false |}].
Proof. vm_compute. reflexivity. Qed.

(** A successful turn on the design tab: the caption counts the images of
    the response, and the turn is stored with them. *)
Example sendMessage_success_example :
  let p := Chat.submit (lit "cafe") Props.example_response
             (exec (Chat.switchTab Chat.design) (Chat.load Chat.blank_page)) in
  skipn 1 (Chat.dapp__chat p) =
    [{| Chat.textContent := lit "cafe";
        Chat.messageType := Chat.user; Chat.isLoading := false |};
     {| Chat.textContent :=
          0x2713%N :: lit " Successfully generated 3 images (logo + banner)";
        Chat.messageType := Chat.ai; Chat.isLoading := false |}] /\
  Chat.chatHistory p !! Chat.design =
    Some [{| Chat.item_userMessage := lit "cafe";
             Chat.item_images := Some Props.example_images |}].
Proof. split; vm_compute; reflexivity. Qed.

(** The three image elements the script creates. *)
Example image_elements_example :
  let img := {| Chat.img_type := lit "logo"; Chat.img_url := lit "a" |} in
  Chat.logoImg img =
    {| Chat.src := lit "a"; Chat.alt := lit "Generated Logo";
       Chat.style := {| Chat.opacity := lit "0";
                        Chat.transform := lit "scale(0.8)";
                        Chat.transition := lit "all 0.5s ease" |} |} /\
  Chat.bannerImg img =
    {| Chat.src := lit "a"; Chat.alt := lit "Generated Banner";
       Chat.style := {| Chat.opacity := lit "0";
                        Chat.transform := lit "translateY(20px)";
                        Chat.transition := lit "all 0.5s ease" |} |} /\
  Chat.websiteImg img =
    {| Chat.src := lit "a"; Chat.alt := lit "Generated Website";
       Chat.style := {| Chat.opacity := lit "0";
                        Chat.transform := lit "scale(0.95)";
                        Chat.transition := lit "all 0.6s ease" |} |}.
Proof. repeat split. Qed.

(** ** Trimming *)

Lemma trimStart_nil_iff (s : jsstring) :
  trimStart s = [] <-> forallb isWhiteSpace s = true.
Proof.
  induction s as [|c s IH]; simpl; [done|].
  destruct (isWhiteSpace c); simpl; [exact IH | split; discriminate].
Qed.

Lemma trimEnd_nil_iff (s : jsstring) :
  trimEnd s = [] <-> trimStart (rev s) = [].
Proof.
  unfold trimEnd. split; intros H.
  - apply (f_equal (@rev N)) in H. by rewrite rev_involutive in H.
  - by rewrite H.
Qed.

Lemma trimStart_head (s : jsstring) c s' :
  trimStart s = c :: s' -> isWhiteSpace c = false.
Proof.
  induction s as [|d s IH]; simpl; [done|].
  destruct (isWhiteSpace d) eqn:E; [exact IH | congruence].
Qed.

(** A string trims to the empty string exactly when all its code units
    are white space (the empty string included). *)
Lemma trim_nil_iff (s : jsstring) :
  trim s = [] <-> forallb isWhiteSpace s = true.
Proof.
  unfold trim. rewrite trimEnd_nil_iff, trimStart_nil_iff. split.
  - intros H. rewrite forallb_forall in H. 
    destruct (trimStart s) as [|c s'] eqn:E; [by apply trimStart_nil_iff|].
    pose proof (trimStart_head _ _ _ E) as Hc.
    rewrite (H c) in Hc; [done|]. apply in_rev. rewrite rev_involutive.
    by left.
  - intros H. apply trimStart_nil_iff in H. by rewrite H.
Qed.

(** ** Stepping through statements *)

Lemma bind_return {S A B} (c : Script.M S A) (k : A -> Script.M S B) p a p' :
  c p = (Return a, p') -> bind c k p = k a p'.
Proof. unfold bind. by intros ->. Qed.

Lemma bind_throw {S A B} (c : Script.M S A) (k : A -> Script.M S B) p p' :
  c p = (Throw, p') -> bind c k p = (Throw, p').
Proof. unfold bind. by intros ->. Qed.

(** A statement that completes with [tt] is determined by the state it
    leaves behind. *)
Lemma surjective_pairing_return {S} (c : Script.M S unit) p :
  (exists a, fst (c p) = Return a) -> c p = (Return tt, snd (c p)).
Proof. intros [[] H]. destruct (c p); simpl in *. by subst. Qed.

(** ** Frame rules *)

Lemma keeps_ret {S X A} (f : S -> X) (a : A) : keeps f (ret a).
Proof. by intros p. Qed.

Lemma keeps_throw {S X A} (f : S -> X) : keeps f (@throw S A).
Proof. by intros p. Qed.

Lemma keeps_get {S X A} (f : S -> X) (g : S -> A) : keeps f (get g).
Proof. by intros p. Qed.

Lemma keeps_modify {S X} (f : S -> X) (g : S -> S) :
  (forall p, f (g p) = f p) -> keeps f (modify g).
Proof. intros H p. apply H. Qed.

Lemma keeps_bind {S X A B} (f : S -> X) (c : Script.M S A)
    (k : A -> Script.M S B) :
  keeps f c -> (forall a, keeps f (k a)) -> keeps f (bind c k).
Proof.
  intros Hc Hk p. unfold bind. specialize (Hc p).
  destruct (c p) as [[a|] p']; simpl in *; [|done].
  by rewrite Hk.
Qed.

Lemma keeps_try_catch {S X A} (f : S -> X) (body handler : Script.M S A) :
  keeps f body -> keeps f handler -> keeps f (try_catch body handler).
Proof.
  intros Hb Hh p. unfold try_catch. specialize (Hb p).
  destruct (body p) as [[a|] p']; simpl in *; [done|].
  by rewrite Hh.
Qed.

Lemma keeps_forEach {S X A} (f : S -> X) (l : list A)
    (body : A -> Script.M S unit) :
  (forall a, keeps f (body a)) -> keeps f (forEach l body).
Proof.
  intros Hb. induction l as [|a l IH]; simpl.
  - apply keeps_ret.
  - apply keeps_bind; [apply Hb | intros _; exact IH].
Qed.

Lemma keeps_if {S X A} (f : S -> X) (b : bool) (c1 c2 : Script.M S A) :
  keeps f c1 -> keeps f c2 -> keeps f (if b then c1 else c2).
Proof. by destruct b. Qed.

Create HintDb frame discriminated.
#[global] Hint Resolve keeps_ret keeps_throw keeps_get keeps_bind
  keeps_try_catch keeps_forEach keeps_if : frame.
#[global] Hint Extern 1 (keeps _ (modify _)) =>
  (apply keeps_modify; intros ?; reflexivity) : frame.
#[global] Hint Extern 2 (keeps _ (match ?x with _ => _ end)) =>
  destruct x : frame.

Ltac frame := intros; eauto 20 with frame.

(** ** Rules for relations between the states before and after *)

Section Follows.
Context {S : Type} (R : S -> S -> Prop).
Hypothesis R_refl : forall p, R p p.
Hypothesis R_trans : forall p q r, R p q -> R q r -> R p r.

Lemma follows_ret {A} (a : A) : follows R (ret a).
Proof. intros p. apply R_refl. Qed.

Lemma follows_throw {A} : follows R (@throw S A).
Proof. intros p. apply R_refl. Qed.

Lemma follows_get {A} (g : S -> A) : follows R (get g).
Proof. intros p. apply R_refl. Qed.

Lemma follows_modify (g : S -> S) :
  (forall p, R p (g p)) -> follows R (modify g).
Proof. intros H p. apply H. Qed.

Lemma follows_bind {A B} (c : Script.M S A) (k : A -> Script.M S B) :
  follows R c -> (forall a, follows R (k a)) -> follows R (bind c k).
Proof.
  intros Hc Hk p. unfold bind. specialize (Hc p).
  destruct (c p) as [[a|] p']; cbn [snd] in *; [|done].
  eapply R_trans; [exact Hc | apply Hk].
Qed.

Lemma follows_try_catch {A} (body handler : Script.M S A) :
  follows R body -> follows R handler -> follows R (try_catch body handler).
Proof.
  intros Hb Hh p. unfold try_catch. specialize (Hb p).
  destruct (body p) as [[a|] p']; cbn [snd] in *; [done|].
  eapply R_trans; [exact Hb | apply Hh].
Qed.

Lemma follows_forEach {A} (l : list A) (body : A -> Script.M S unit) :
  (forall a, follows R (body a)) -> follows R (forEach l body).
Proof.
  intros Hb. induction l as [|a l IH]; cbn [forEach].
  - apply follows_ret.
  - apply follows_bind; [apply Hb | intros _; exact IH].
Qed.
End Follows.

(** A statement that keeps every component a relation looks at follows
    the relation, when the relation is reflexive on what it looks at. *)
Lemma follows_keeps {S X A} (f : S -> X) (R : S -> S -> Prop)
    (c : Script.M S A) :
  (forall p p', f p' = f p -> R p p') -> keeps f c -> follows R c.
Proof. intros HR Hk p. apply HR, Hk. Qed.
(** ** Properties of the chat controller *)

Section ChatProperties.
Import Chat.
Local Open Scope js_scope.

Lemma addMessageToChat_keeps_input message type loading :
  keeps input_value (addMessageToChat message type loading).
Proof. unfold addMessageToChat. frame. Qed.

Lemma removeLoadingMessage_keeps_input : keeps input_value removeLoadingMessage.
Proof. unfold removeLoadingMessage. frame. Qed.

Lemma displayImages_keeps {X} (f : Page -> X) imgs type :
  (forall v w p, f (set_design v w p) = f p) ->
  (forall v p, f (set_dapp__website v p) = f p) ->
  keeps f (displayImages imgs type).
Proof.
  intros Hd Hw.
  unfold displayImages, displayDesignImages, displayWebsiteImage.
  repeat apply keeps_if; try apply keeps_ret.
  - destruct (fold_left _ _ _). by apply keeps_modify.
  - destruct imgs; [apply keeps_ret | by apply keeps_modify].
Qed.

Lemma displayImages_undefined_keeps {X} (f : Page -> X) type :
  (forall v w p, f (set_design v w p) = f p) ->
  keeps f (displayImages_undefined type).
Proof.
  intros Hd.
  unfold displayImages_undefined, displayDesignImages_undefined,
    displayWebsiteImage_undefined.
  repeat apply keeps_if; try apply keeps_ret; try apply keeps_throw.
  apply keeps_bind; [by apply keeps_modify | intros _; apply keeps_throw].
Qed.

Lemma displayImages_any_keeps {X} (f : Page -> X) imgs type :
  (forall v w p, f (set_design v w p) = f p) ->
  (forall v p, f (set_dapp__website v p) = f p) ->
  keeps f (displayImages_any imgs type).
Proof.
  intros Hd Hw. unfold displayImages_any.
  destruct type as [type|]; [|apply keeps_ret].
  destruct imgs as [imgs|].
  - by apply displayImages_keeps.
  - by apply displayImages_undefined_keeps.
Qed.

Lemma json_images_keeps {X} (f : Page -> X) data : keeps f (json_images data).
Proof. destruct data; [apply keeps_throw | apply keeps_ret]. Qed.

Lemma json_type_keeps {X} (f : Page -> X) data : keeps f (json_type data).
Proof. destruct data; [apply keeps_throw | apply keeps_ret]. Qed.

Lemma successMsg_expr_keeps {X} (f : Page -> X) t images :
  keeps f images -> keeps f (successMsg_expr t images).
Proof.
  intros H. unfold successMsg_expr.
  apply keeps_if; [|apply keeps_ret].
  apply keeps_bind; [exact H|].
  intros [imgs|]; [apply keeps_ret | apply keeps_throw].
Qed.

#[local] Hint Resolve json_images_keeps json_type_keeps
  successMsg_expr_keeps : frame.

(** The caption of a turn whose images are an array. *)
Lemma successMsg_expr_Some t imgs p :
  successMsg_expr t (ret (Some imgs)) p = (Return (successMsg t imgs), p).
Proof. unfold successMsg_expr, successMsg. by destruct (str_eqb t design). Qed.

Lemma displayImages_completes imgs type : completes (displayImages imgs type).
Proof.
  intros p. exists tt.
  unfold displayImages, displayDesignImages, displayWebsiteImage.
  destruct (str_eqb type design); [by destruct (fold_left _ _ _)|].
  destruct (str_eqb type website); [by destruct imgs | done].
Qed.

Lemma sendMessage_resume_keeps_input um r :
  keeps input_value (sendMessage_resume um r).
Proof.
  unfold sendMessage_resume, sendMessage_try, sendMessage_catch,
    chatHistory_push, chatHistory_get, await_fetch, response_json.
  pose proof addMessageToChat_keeps_input.
  pose proof removeLoadingMessage_keeps_input.
  assert (forall i t, keeps input_value (displayImages_any i t))
    by (intros; by apply displayImages_any_keeps).
  frame.
Qed.

(** *** The loading placeholder *)

Lemma querySelector_loading_app (l l' : list Message) :
  querySelector_loading l = None ->
  querySelector_loading (l ++ l') = querySelector_loading l'.
Proof.
  unfold querySelector_loading. induction l as [|m l IH]; simpl; [done|].
  destruct (isLoading m); [done | exact IH].
Qed.

Lemma remove_loading_app (l l' : list Message) :
  querySelector_loading l = None ->
  remove_loading (l ++ l') = l ++ remove_loading l'.
Proof.
  unfold querySelector_loading. induction l as [|m l IH]; simpl; [done|].
  destruct (isLoading m); [done|]. intros H. by rewrite IH.
Qed.

(** With no older placeholder in the transcript, the placeholder that
    [sendMessage] appended last is the one that is removed. *)
Lemma removeLoadingMessage_pending p chat um lm :
  querySelector_loading chat = None ->
  dapp__chat p = chat ++ [entry um user; placeholder lm] ->
  removeLoadingMessage p =
    (Return tt, log (RemoveMessage (placeholder lm))
                  (set_dapp__chat (chat ++ [entry um user]) p)).
Proof.
  intros Hl Hc. unfold removeLoadingMessage.
  erewrite bind_return by reflexivity.
  rewrite Hc, querySelector_loading_app, remove_loading_app by done.
  reflexivity.
Qed.

(** *** The two halves of [sendMessage] *)

Lemma sendMessage_submit_blank p :
  trim (input_value p) = [] -> sendMessage_submit p = (Return None, p).
Proof.
  intros H. unfold sendMessage_submit.
  erewrite bind_return by reflexivity. by rewrite H.
Qed.

Lemma sendMessage_submit_some p :
  trim (input_value p) <> [] ->
  exists p1,
    sendMessage_submit p = (Return (Some (trim (input_value p))), p1) /\
    currentChatType p1 = currentChatType p /\
    chatHistory p1 = chatHistory p /\
    input_value p1 = [] /\
    dapp__chat p1 = dapp__chat p ++
      [entry (trim (input_value p)) user;
       placeholder (loadingMsg (currentChatType p))] /\
    trace p1 = trace p ++
      [AppendMessage (entry (trim (input_value p)) user);
       SetInputValue [];
       AppendMessage (placeholder (loadingMsg (currentChatType p)));
       Fetch {| url := API_URL ++ lit "/generate-images";
                user_prompt := trim (input_value p);
                chat_type := currentChatType p |}].
Proof.
  intros Hne. unfold sendMessage_submit.
  erewrite bind_return by reflexivity.
  destruct (trim (input_value p)) as [|c um]; [done|].
  eexists. split; [reflexivity|]. cbn.
  rewrite <- !app_assoc. done.
Qed.

Lemma sendMessage_catch_pending p chat um lm :
  querySelector_loading chat = None ->
  dapp__chat p = chat ++ [entry um user; placeholder lm] ->
  exists p', sendMessage_catch p = (Return tt, p') /\
    currentChatType p' = currentChatType p /\
    chatHistory p' = chatHistory p /\
    dapp__chat p' =
      chat ++ [entry um user; entry errorMsg ai].
Proof.
  intros Hl Hc. unfold sendMessage_catch.
  erewrite bind_return by (eapply removeLoadingMessage_pending; eassumption).
  eexists. split; [reflexivity|]. cbn.
  rewrite <- app_assoc. done.
Qed.

(** A request that does not succeed makes the [try] block throw before it
    has written anything. *)
Lemma sendMessage_try_throws um r p :
  succeeds r = false -> sendMessage_try um r p = (Throw, p).
Proof.
  intros Hr. unfold sendMessage_try.
  destruct r as [|status body]; [done|].
  erewrite bind_return by reflexivity. cbn [fst snd].
  destruct (ok status) eqn:Hok; [|done]. cbn [negb].
  destruct body; [cbn in Hr; congruence | done].
Qed.




Lemma sendMessage_blank_is_noop_aux (r : FetchResult Json) p :
  trim (input_value p) = [] ->
  sendMessage r p = (Return tt, p) /\
  sendMessage_submit p = (Return None, p).
Proof.
  intros H. split; [|by apply sendMessage_submit_blank].
  unfold sendMessage.
  by erewrite bind_return by by apply sendMessage_submit_blank.
Qed.

(** *** Sending a message *)



(** C2. For an input that is empty or consists of white space only (its
    trim is the empty string), [sendMessage] returns at once and leaves
    the whole page as it was: transcript, history, input field and the
    trace of effects, so no request goes out. *)
Theorem sendMessage_blank_is_noop (r : FetchResult Json) (p : Page) :
  forallb isWhiteSpace (input_value p) = true ->
  trim (input_value p) = [] /\
  sendMessage r p = (Return tt, p) /\
  sendMessage_submit p = (Return None, p).
Proof.
  intros H%trim_nil_iff. split; [done|].
  by apply sendMessage_blank_is_noop_aux.
Qed.

(** C9. For an input whose trim is not empty, the part of [sendMessage]
    that runs up to the request appends the user entry, then clears the
    input field, then appends the placeholder and issues the request, in
    this order; the field is empty when the request goes out and when the
    invocation is over. For an input that trims to the empty string the
    field keeps its value. *)
Theorem sendMessage_clears_input (r : FetchResult Json) (p : Page) :
  (trim (input_value p) <> [] ->
   exists p1,
     sendMessage_submit p = (Return (Some (trim (input_value p))), p1) /\
     trace p1 = trace p ++
       [AppendMessage (entry (trim (input_value p)) user);
        SetInputValue [];
        AppendMessage (placeholder (loadingMsg (currentChatType p)));
        Fetch {| url := API_URL ++ lit "/generate-images";
                 user_prompt := trim (input_value p);
                 chat_type := currentChatType p |}] /\
     input_value p1 = [] /\
     input_value (exec (sendMessage r) p) = []) /\
  (trim (input_value p) = [] ->
   input_value (exec (sendMessage r) p) = input_value p).
Proof.
  split; intros H.
  - destruct (sendMessage_submit_some p H)
      as (p1 & Hs & _ & _ & Hi & _ & Htr).
    exists p1. repeat split; try done.
    unfold exec, sendMessage. erewrite bind_return by exact Hs.
    by rewrite sendMessage_resume_keeps_input.
  - unfold exec, sendMessage.
    by erewrite bind_return by by apply sendMessage_submit_blank.
Qed.

(** *** Rendering images *)

Lemma design_loop imgs logoContainer twoContainer :
  fold_left design_step imgs (logoContainer, twoContainer) =
    (logoContainer ++
       map (fun i => Img (logo_element (img_url i)))
         (List.filter is_logo imgs),
     twoContainer ++
       map (fun i => banner_element (img_url i))
         (List.filter is_banner imgs)).
Proof.
  revert logoContainer twoContainer.
  induction imgs as [|img imgs IH]; intros lg tw; simpl.
  - by rewrite !app_nil_r.
  - unfold is_logo, is_banner, str_eqb in *.
    destruct (bool_decide (img_type img = lit "logo")) eqn:Hlogo.
    + apply bool_decide_eq_true in Hlogo.
      rewrite bool_decide_eq_false_2
        by (rewrite Hlogo; vm_compute; discriminate).
      rewrite IH. simpl. by rewrite <- app_assoc.
    + destruct (bool_decide (img_type img = lit "banner"));
        rewrite IH; simpl; by rewrite <- ?app_assoc.
Qed.

Lemma displayImages_design_slots imgs p :
  displayImages imgs design p =
    (Return tt,
     set_design (fst (design_slots imgs)) (snd (design_slots imgs)) p).
Proof.
  unfold displayImages, displayDesignImages, design_slots.
  replace (str_eqb design design) with true
    by (symmetry; by apply bool_decide_eq_true).
  by rewrite design_loop.
Qed.

(** C6. Rendering with type ["design"] replaces the content of the logo
    slot by one image element per input image tagged ["logo"], and the
    content of the images slot by a single row holding one image element
    per input image tagged ["banner"], both in input order; each element
    shows the image it stands for (its source is the [url] of that image)
    and has the alternative text and the initial style of its slot.
    Images with any other tag leave no trace and nothing else on the page
    changes. For the example list (a logo at [a], a banner at [b], an
    image tagged ["other"]) the logo slot ends up with the one image from
    [a], the row with the one image from [b], whatever the slots held
    before. *)
Theorem displayImages_design (imgs : list ImageResult) (p : Page) :
  let logo url :=
    {| src := url; alt := lit "Generated Logo";
       style := {| opacity := lit "0"; transform := lit "scale(0.8)";
                   transition := lit "all 0.5s ease" |} |} in
  let banner url :=
    {| src := url; alt := lit "Generated Banner";
       style := {| opacity := lit "0"; transform := lit "translateY(20px)";
                   transition := lit "all 0.5s ease" |} |} in
  displayImages imgs design p =
    (Return tt,
     set_design
       (map (fun i => Img (logo (img_url i))) (List.filter is_logo imgs))
       [Div (lit "dapp__two")
          (map (fun i => banner (img_url i)) (List.filter is_banner imgs))]
       p) /\
  dapp__logos (exec (displayImages example_images design) p) =
    [Img (logo (lit "a"))] /\
  dapp__imgs (exec (displayImages example_images design) p) =
    [Div (lit "dapp__two") [banner (lit "b")]].
Proof.
  intros logo banner.
  split; [apply displayImages_design_slots|].
  unfold exec. rewrite displayImages_design_slots. split; reflexivity.
Qed.

(** C7, as the scripts have it. Rendering a list that has a first image
    with type ["website"] replaces the content of the website panel by
    one image element, which shows that first image (its source is the
    [url] of the image); the images after the first play no part, and
    nothing else on the page changes. *)
Theorem displayImages_website_first
    (img0 : ImageResult) (rest : list ImageResult) (p : Page) :
  displayImages (img0 :: rest) website p =
    (Return tt,
     set_dapp__website
       [Img {| src := img_url img0; alt := lit "Generated Website";
               style := {| opacity := lit "0";
                           transform := lit "scale(0.95)";
                           transition := lit "all 0.6s ease" |} |}] p).
Proof. reflexivity. Qed.

(** C7 fails for the empty list: the panel keeps the markup it had, it is
    not cleared and it does not end up holding an image. *)
Lemma displayImages_website_empty_keeps_panel :
  let p := set_dapp__website [Markup (lit "<p>preview</p>")] blank_page in
  dapp__website (exec (displayImages [] website) p)
    = [Markup (lit "<p>preview</p>")] /\
  ~ exists i, dapp__website (exec (displayImages [] website) p) = [Img i].
Proof. split; [reflexivity|]. intros [i H]. vm_compute in H. discriminate. Qed.

(** C10. Rendering the empty list with type ["website"] does nothing: the
    panel is neither cleared nor given an image, and the rest of the page
    is untouched as well. *)
Theorem displayImages_website_empty (p : Page) :
  displayImages [] website p = (Return tt, p).
Proof. reflexivity. Qed.

(** *** Replaying the history *)

Section Replay.
Variable t : jsstring.


(** A replayed transcript holds no loading placeholder. *)
Lemma transcript_of_no_loading items :
  querySelector_loading (transcript_of t items) = None.
Proof.
  unfold transcript_of, querySelector_loading. simpl.
  induction items as [|item items IH]; simpl; done.
Qed.

(** The loop over stored turns whose images are arrays. *)
Lemma loadChatHistory_loop items p :
  exists p',
    forEach (Turn <$> items) (replay_item t) p = (Return tt, p') /\
    dapp__chat p' = dapp__chat p ++ flat_map (turn_entries t) items /\
    chatHistory p' = chatHistory p /\
    currentChatType p' = currentChatType p.
Proof.
  revert p. induction items as [|item items IH]; intros p; simpl.
  - exists p. by rewrite app_nil_r.
  - erewrite bind_return; cycle 1.
    { unfold replay_item. cbn [Turn item_userMessage item_images].
      erewrite bind_return by reflexivity.
      erewrite bind_return by apply successMsg_expr_Some.
      erewrite bind_return by reflexivity.
      apply surjective_pairing_return, displayImages_completes. }
    match goal with |- context [forEach _ (replay_item t) ?q] =>
      destruct (IH q) as (p' & Hf & Hch & Hhi & Hct) end.
    exists p'. split; [exact Hf|].
    rewrite Hch, Hhi, Hct.
    cbn [displayImages_any].
    rewrite (displayImages_keeps dapp__chat), (displayImages_keeps chatHistory),
      (displayImages_keeps currentChatType) by done.
    cbn. rewrite <- !app_assoc. done.
Qed.

Lemma loadChatHistory_replays items p :
  chatHistory p !! t = Some (Turn <$> items) ->
  exists p',
    loadChatHistory t p = (Return tt, p') /\
    dapp__chat p' = transcript_of t items /\
    chatHistory p' = chatHistory p /\
    currentChatType p' = currentChatType p.
Proof.
  intros Hh. unfold loadChatHistory.
  erewrite bind_return by reflexivity.
  erewrite bind_return by reflexivity.
  erewrite bind_return; cycle 1.
  { unfold chatHistory_get. erewrite bind_return by reflexivity.
    cbn. rewrite Hh. reflexivity. }
  match goal with |- context [forEach _ ?f ?q] =>
    destruct (loadChatHistory_loop items q) as (p' & Hf & Hch & Hhi & Hct)
  end.
  exists p'. split; [exact Hf|]. by rewrite Hch, Hhi, Hct.
Qed.

Lemma switchTab_replays items p :
  chatHistory p !! t = Some (Turn <$> items) ->
  let p' := exec (switchTab t) p in
  dapp__chat p' = transcript_of t items /\
  chatHistory p' = chatHistory p /\
  currentChatType p' = t.
Proof.
  intros Hh. unfold exec, switchTab, toggleDisplay.
  erewrite bind_return by reflexivity.
  erewrite bind_return by reflexivity.
  cbn [currentChatType set_currentChatType].
  destruct (str_eqb t website);
    (erewrite bind_return by reflexivity;
     erewrite bind_return by reflexivity;
     cbn [currentChatType set_currentChatType set_active];
     match goal with |- context [loadChatHistory t ?q] =>
       destruct (loadChatHistory_replays items q Hh)
         as (p' & -> & Hch & Hhi & Hct)
     end;
     cbn; by rewrite Hch, Hhi, Hct).
Qed.

End Replay.

Lemma design_neq_website : design <> website.
Proof. vm_compute. discriminate. Qed.


Lemma succeeds_contract (r : FetchResult ResponseData) :
  succeeds (contract r) = succeeds r.
Proof. by destruct r as [|status [data|]]. Qed.



(** The pages a session reaches are quiescent: the hypotheses of the
    properties of [sendMessage] hold before every submission, however
    the requests of the session settled. *)
Lemma switchTab_quiescent t items p :
  chatHistory p !! t = Some (Turn <$> items) ->
  quiescent (exec (switchTab t) p).
Proof.
  intros Hh. destruct (switchTab_replays t items p Hh) as (Hch & Hhi & Hct).
  split.
  - rewrite Hch. apply transcript_of_no_loading.
  - rewrite Hhi, Hct, Hh. by eexists.
Qed.

Lemma load_quiescent p : quiescent (load p).
Proof.
  unfold load, exec, initializeImageDisplay.
  erewrite bind_return by reflexivity.
  match goal with |- quiescent (snd (loadChatHistory ?t ?q)) =>
    destruct (loadChatHistory_replays t [] q) as (p' & -> & Hch & Hhi & Hct)
  end.
  { cbn. rewrite lookup_insert_ne by apply design_neq_website.
    apply lookup_insert_eq. }
  split.
  - cbn. rewrite Hch. apply transcript_of_no_loading.
  - cbn. rewrite Hhi, Hct. cbn.
    rewrite lookup_insert_ne by apply design_neq_website.
    rewrite lookup_insert_eq. by eexists.
Qed.

Lemma no_new_placeholder_refl p : no_new_placeholder p p.
Proof. by intros H. Qed.

Lemma no_new_placeholder_trans p q r :
  no_new_placeholder p q -> no_new_placeholder q r -> no_new_placeholder p r.
Proof. intros H1 H2 H. by apply H2, H1. Qed.

Lemma addMessageToChat_no_new_placeholder message type :
  follows no_new_placeholder (addMessageToChat message type false).
Proof. intros p H. cbn. by rewrite querySelector_loading_app. Qed.

Lemma removeLoadingMessage_no_new_placeholder :
  follows no_new_placeholder removeLoadingMessage.
Proof.
  intros p H. unfold removeLoadingMessage, bind, get. cbn. by rewrite H.
Qed.

Lemma keeps_no_new_placeholder {A} (c : M A) :
  keeps dapp__chat c -> follows no_new_placeholder c.
Proof.
  apply follows_keeps. intros p p' Hc H. by rewrite Hc.
Qed.

(** The [catch] handler adds no placeholder. *)
Lemma sendMessage_catch_no_new_placeholder :
  follows no_new_placeholder sendMessage_catch.
Proof.
  apply follows_bind.
  - apply no_new_placeholder_trans.
  - apply removeLoadingMessage_no_new_placeholder.
  - intros _. apply addMessageToChat_no_new_placeholder.
Qed.

(** However the request settles, the continuation of [sendMessage]
    removes the placeholder of its invocation. *)
Lemma sendMessage_resume_no_loading um (r : FetchResult Json) p chat lm :
  querySelector_loading chat = None ->
  dapp__chat p = chat ++ [entry um user; placeholder lm] ->
  querySelector_loading (dapp__chat (exec (sendMessage_resume um r) p)) = None.
Proof.
  intros Hl Hc. unfold exec, sendMessage_resume, try_catch.
  destruct (succeeds r) eqn:Hr.
  - destruct r as [|status [data|]]; try done. cbn in Hr.
    assert (exists k : M unit,
      follows no_new_placeholder k /\
      sendMessage_try um (Resolved status (Some data)) p =
        k (log (RemoveMessage (placeholder lm))
             (set_dapp__chat (chat ++ [entry um user]) p)))
      as (k & Hk & ->).
    { unfold sendMessage_try.
      erewrite bind_return by reflexivity. cbn [fst snd].
      rewrite Hr. cbn [negb].
      erewrite bind_return by reflexivity.
      erewrite bind_return
        by (eapply removeLoadingMessage_pending; eassumption).
      eexists (fun q => _ q). split; [|reflexivity].
      pose proof no_new_placeholder_refl as Hrefl.
      pose proof no_new_placeholder_trans as Htrans.
      apply follows_bind; [done | by apply follows_get |].
      intros t.
      apply follows_bind; [done | |].
      { apply keeps_no_new_placeholder. frame. }
      intros caption.
      apply follows_bind; [done | |].
      { apply addMessageToChat_no_new_placeholder. }
      intros _.
      apply keeps_no_new_placeholder.
      unfold chatHistory_push, chatHistory_get.
      assert (forall i t, keeps dapp__chat (displayImages_any i t))
        by (intros; by apply displayImages_any_keeps).
      frame. }
    match goal with |- context [k ?q] =>
      specialize (Hk q); destruct (k q) as [[[]|] p'] end;
      cbn [snd] in *.
    + apply Hk. cbn. by rewrite querySelector_loading_app.
    + apply sendMessage_catch_no_new_placeholder, Hk.
      cbn. by rewrite querySelector_loading_app.
  - rewrite sendMessage_try_throws by done.
    destruct (sendMessage_catch_pending p _ _ _ Hl Hc)
      as (p2 & -> & _ & _ & Hch2).
    cbn. rewrite Hch2. by rewrite querySelector_loading_app.
Qed.

(** The continuation of [sendMessage] leaves the chat type alone and
    keeps a list in the history under every key that had one. *)
Lemma sendMessage_resume_keeps_type um (r : FetchResult Json) :
  keeps currentChatType (sendMessage_resume um r).
Proof.
  unfold sendMessage_resume, sendMessage_try, sendMessage_catch,
    chatHistory_push, chatHistory_get, await_fetch, response_json.
  assert (forall m ty l, keeps currentChatType (addMessageToChat m ty l))
    by (intros; unfold addMessageToChat; frame).
  assert (keeps currentChatType removeLoadingMessage)
    by (unfold removeLoadingMessage; frame).
  assert (forall i t, keeps currentChatType (displayImages_any i t))
    by (intros; by apply displayImages_any_keeps).
  frame.
Qed.

Lemma history_grows_refl h : history_grows h h.
Proof.
  intros t. destruct (h !! t) as [items|] eqn:E; [|done].
  exists []. by rewrite app_nil_r.
Qed.

Lemma history_grows_trans h1 h2 h3 :
  history_grows h1 h2 -> history_grows h2 h3 -> history_grows h1 h3.
Proof.
  intros H12 H23 t. specialize (H12 t). specialize (H23 t).
  destruct (h1 !! t) as [items|].
  - destruct H12 as [more H12]. rewrite H12 in H23.
    destruct H23 as [more' H23]. exists (more ++ more').
    by rewrite app_assoc.
  - by rewrite H12 in H23.
Qed.

Lemma history_grows_insert h t items more :
  h !! t = Some items -> history_grows h (<[t := items ++ more]> h).
Proof.
  intros Hh t'. destruct (decide (t = t')) as [<-|Hne].
  - rewrite Hh, lookup_insert_eq. by exists more.
  - rewrite lookup_insert_ne by done.
    destruct (h !! t') as [items'|]; [|done].
    exists []. by rewrite app_nil_r.
Qed.

Lemma chatHistory_push_history_grows item p :
  history_grows (chatHistory p) (chatHistory (exec (chatHistory_push item) p)).
Proof.
  unfold exec, chatHistory_push, chatHistory_get.
  erewrite bind_return by reflexivity.
  unfold bind at 1, get, bind.
  destruct (chatHistory p !! currentChatType p) as [items|] eqn:Hh; cbn.
  - by apply history_grows_insert.
  - apply history_grows_refl.
Qed.

(** However the request settles, the continuation of [sendMessage] only
    adds to the history. *)
Lemma sendMessage_resume_history_grows um (r : FetchResult Json) p :
  history_grows (chatHistory p)
    (chatHistory (exec (sendMessage_resume um r) p)).
Proof.
  set (R := fun p p' : Page => history_grows (chatHistory p) (chatHistory p')).
  assert (follows R (sendMessage_resume um r)) as H; [|by apply H].
  assert (forall p, R p p) as Hrefl by (intros ?; apply history_grows_refl).
  assert (forall p q r, R p q -> R q r -> R p r) as Htrans
    by (intros ? ? ?; apply history_grows_trans).
  assert (forall A (c : M A), keeps chatHistory c -> follows R c) as Hkeep.
  { intros A c. apply follows_keeps. intros q q' Hq. unfold R. rewrite Hq.
    apply history_grows_refl. }
  unfold sendMessage_resume.
  apply follows_try_catch; [done | |].
  - unfold sendMessage_try.
    apply follows_bind; [done | |].
    { apply Hkeep. unfold await_fetch. frame. }
    intros response. destruct (negb (ok (fst response))).
    { by apply follows_throw. }
    apply follows_bind; [done | |].
    { apply Hkeep. unfold response_json. frame. }
    intros data.
    apply follows_bind; [done | |].
    { apply Hkeep. unfold removeLoadingMessage. frame. }
    intros _.
    apply follows_bind; [done | by apply follows_get |].
    intros t'.
    apply follows_bind; [done | |].
    { apply Hkeep. frame. }
    intros caption.
    apply follows_bind; [done | |].
    { apply Hkeep. unfold addMessageToChat. frame. }
    intros _.
    apply follows_bind; [done | |].
    { apply Hkeep. frame. }
    intros imgs.
    apply follows_bind; [done | |].
    { apply Hkeep. frame. }
    intros type.
    apply follows_bind; [done | |].
    { apply Hkeep. by apply displayImages_any_keeps. }
    intros _ q. apply chatHistory_push_history_grows.
  - apply Hkeep. unfold sendMessage_catch, removeLoadingMessage,
      addMessageToChat. frame.
Qed.

Lemma submit_quiescent text (r : FetchResult Json) p :
  quiescent p -> quiescent (submit text r p).
Proof.
  intros [Hl Hh]. unfold submit.
  set (q := set_input_value text p).
  destruct (decide (trim text = [])) as [Hblank | Hne].
  - unfold exec.
    destruct (sendMessage_blank_is_noop_aux r q Hblank) as [-> _].
    by split.
  - destruct (sendMessage_submit_some q Hne)
      as (p1 & Hs & Hct & Hhi & _ & Hch & _).
    unfold exec, sendMessage. erewrite bind_return by exact Hs.
    split.
    + eapply (sendMessage_resume_no_loading _ r p1); [exact Hl | exact Hch].
    + pose proof (sendMessage_resume_keeps_type (trim (input_value q)) r p1)
        as Hct'.
      rewrite Hct', Hct.
      pose proof (sendMessage_resume_history_grows (trim (input_value q)) r p1
                    (currentChatType q)) as Hg.
      rewrite Hhi in Hg. destruct Hh as [items Hh]. cbn in Hh.
      change (chatHistory q) with (chatHistory p) in Hg.
      change (currentChatType q) with (currentChatType p) in Hg |- *.
      rewrite Hh in Hg. unfold exec in Hg. destruct Hg as [more ->].
      by eexists.
Qed.

Lemma session_quiescent turns p : quiescent p -> quiescent (session turns p).
Proof.
  unfold session. revert p.
  induction turns as [|turn turns IH]; intros p Hp; simpl; [done|].
  apply IH. by apply submit_quiescent.
Qed.



(** *** The theorems at concrete inputs *)


(** C2 for an input of three spaces. *)
Lemma sendMessage_blank_is_noop_witness :
  let p := set_input_value (lit "   ") (load blank_page) in
  trim (input_value p) = [] /\
  sendMessage Rejected p = (Return tt, p) /\
  sendMessage_submit p = (Return None, p).
Proof.
  apply (sendMessage_blank_is_noop Rejected
           (set_input_value (lit "   ") (load blank_page))).
  reflexivity.
Defined.

(** C9 for the input [" hi "]: the field is empty afterwards. *)
Lemma sendMessage_clears_input_witness :
  let p := set_input_value (lit " hi ") (load blank_page) in
  exists p1,
    sendMessage_submit p = (Return (Some (trim (input_value p))), p1) /\
    trace p1 = trace p ++
      [AppendMessage (entry (trim (input_value p)) user);
       SetInputValue [];
       AppendMessage (placeholder (loadingMsg (currentChatType p)));
       Fetch {| url := API_URL ++ lit "/generate-images";
                user_prompt := trim (input_value p);
                chat_type := currentChatType p |}] /\
    input_value p1 = [] /\
    input_value (exec (sendMessage Rejected) p) = [].
Proof.
  apply (proj1 (sendMessage_clears_input Rejected
                  (set_input_value (lit " hi ") (load blank_page)))).
  vm_compute. discriminate.
Defined.


End ChatProperties.
(** ** Properties of the stats poller *)

Section StatsProperties.
Import Stats.
Local Open Scope js_scope.
Local Open Scope Z_scope.

(** *** Polling *)

Lemma initializeStats_restarts p :
  polling_ok p ->
  let p' := exec initializeStats p in
  statsUpdateTimer p' = Some (nextHandle p) /\
  intervals p' = [nextHandle p] /\
  nextHandle p' = nextHandle p + 1 /\
  requests p' = requests p ++ [API_URL ++ lit "/stats"].
Proof.
  intros [Hpos Hok]. unfold exec, initializeStats.
  erewrite bind_return by reflexivity.
  erewrite bind_return by reflexivity.
  cbn [statsUpdateTimer set_requests].
  destruct (statsUpdateTimer p) as [id|] eqn:Ht.
  - destruct Hok as [Hi Hid]. unfold truthy.
    replace (id =? 0) with false by lia. cbn [negb].
    cbn. rewrite Hi. cbn. rewrite bool_decide_eq_true_2 by done. done.
  - cbn. by rewrite Hok.
Qed.

Lemma initializeStats_polling_ok p :
  polling_ok p -> polling_ok (exec initializeStats p).
Proof.
  intros Hp. destruct (initializeStats_restarts p Hp) as (Ht & Hi & Hn & _).
  destruct Hp as [Hpos _]. unfold polling_ok. rewrite Ht, Hi, Hn.
  split; [lia | split; [done | lia]].
Qed.

Lemma iter_initializeStats_polling_ok n p :
  polling_ok p -> polling_ok (Nat.iter n (exec initializeStats) p).
Proof.
  intros Hp. induction n as [|n IH]; simpl; [done|].
  by apply initializeStats_polling_ok.
Qed.

(** C5. Starting from a page on which the timer variable and the interval
    table agree (as they do when the script loads), any number of
    invocations of [initializeStats] leaves at most one interval active;
    after at least one invocation exactly one is active, the one whose
    handle [statsUpdateTimer] holds, and a tick of the interval issues
    exactly one request. Each further invocation removes that handle from
    the table before it registers the next one. *)
Theorem initializeStats_single_timer (n : nat) (p : Page) :
  polling_ok p ->
  let p' := Nat.iter n (exec initializeStats) p in
  (length (intervals p') <= 1)%nat /\
  ((0 < n)%nat ->
   exists id,
     statsUpdateTimer p' = Some id /\
     intervals p' = [id] /\
     requests (exec intervalTick p') =
       requests p' ++ [API_URL ++ lit "/stats"]) /\
  (forall id,
     statsUpdateTimer p' = Some id ->
     ~ In id (intervals (exec initializeStats p')) /\
     length (intervals (exec initializeStats p')) = 1%nat).
Proof.
  intros Hp p'.
  assert (polling_ok p') as Hp' by by apply iter_initializeStats_polling_ok.
  split; [|split].
  - destruct Hp' as [_ Hok]. destruct (statsUpdateTimer p').
    + destruct Hok as [-> _]. simpl. lia.
    + rewrite Hok. simpl. lia.
  - intros Hn. destruct n as [|n]; [lia|]. subst p'. simpl.
    set (q := Nat.iter n (exec initializeStats) p).
    destruct (initializeStats_restarts q) as (Ht & Hi & _);
      [by apply iter_initializeStats_polling_ok|].
    exists (nextHandle q). split; [done|]. split; [done|].
    unfold exec at 1, intervalTick.
    erewrite bind_return by reflexivity. rewrite Hi. reflexivity.
  - intros id Hid.
    destruct (initializeStats_restarts p' Hp') as (_ & Hi & _).
    rewrite Hi. split; [|done].
    destruct Hp' as [_ Hok]. rewrite Hid in Hok.
    intros [Heq | []]. lia.
Qed.

(** *** Animation frames *)

Lemma currentValue_finished a elapsed :
  0 < duration a -> duration a <= elapsed ->
  currentValue a elapsed = targetValue a.
Proof.
  intros Hd He. unfold currentValue.
  rewrite Z.min_r by done.
  replace (2 * duration a - duration a) with (duration a) by lia.
  rewrite Z.div_mul by lia. lia.
Qed.

Lemma forEach_app {S A} (l1 l2 : list A) (f : A -> Script.M S unit) p :
  forEach (l1 ++ l2) f p = (forEach l1 f ;; forEach l2 f) p.
Proof.
  revert p. induction l1 as [|a l1 IH]; intros p; simpl.
  - reflexivity.
  - unfold bind in *. destruct (f a p) as [[[]|] p']; [|done].
    by rewrite IH.
Qed.

Lemma update_spec a q :
  update a q =
    (Return tt,
     set_animationFrames
       (animationFrames q ++
        if now q - startTime a <? duration a then [a] else [])
       (set_counter__item (written a (now q) (counter__item q)) q)).
Proof.
  unfold update. erewrite bind_return by reflexivity.
  erewrite bind_return by reflexivity.
  destruct (now q - startTime a <? duration a); cbn.
  - reflexivity.
  - by rewrite app_nil_r.
Qed.

Section Settling.
Variables (T : Z) (vol : jsstring).

Lemma update_pending Q q :
  pending_ok T Q ->
  exists cs Q',
    forEach Q update q =
      (Return tt,
       set_animationFrames (animationFrames q ++ Q')
         (set_counter__item cs q)) /\
    length cs = length (counter__item q) /\
    cs !! 1%nat = counter__item q !! 1%nat /\
    pending_ok T Q' /\
    (T <= now q -> Q' = []).
Proof.
  intros HQ. revert q. induction HQ as [|a Q [Hel Hend] HQ IH]; intros q.
  - exists (counter__item q), []. simpl. rewrite app_nil_r.
    split; [by destruct q|]. repeat split; try done. constructor.
  - simpl. erewrite bind_return by apply update_spec.
    match goal with |- context [forEach Q update ?q1] =>
      destruct (IH q1) as (cs & Q' & -> & Hlen & H1 & HQ' & Hdone) end.
    cbn in Hlen, H1, Hdone.
    exists cs, ((if now q - startTime a <? duration a then [a] else []) ++ Q').
    split; [cbn; by rewrite <- app_assoc|].
    split; [by rewrite Hlen; unfold written; rewrite length_alter|].
    split.
    { rewrite H1. unfold written. apply list_lookup_alter_ne.
      destruct Hel as [-> | ->]; done. }
    split.
    { destruct (now q - startTime a <? duration a); [|done].
      constructor; done. }
    intros HT. rewrite Hdone by done.
    destruct (Z.ltb_spec (now q - startTime a) (duration a)); [lia|done].
Qed.

Lemma animationFrame_spec q t :
  running T vol q ->
  exists cs Q' a0 a2,
    closing T 0 a0 /\ closing T 2 a2 /\
    (3 <= length cs)%nat /\
    span <$> cs !! 1%nat = Some (Some vol) /\
    pending_ok T Q' /\ (T <= t -> Q' = []) /\
    exec (animationFrame t) q =
      set_animationFrames
        (Q' ++ (if t - startTime a0 <? duration a0 then [a0] else [])
            ++ (if t - startTime a2 <? duration a2 then [a2] else []))
        (set_counter__item (written a2 t (written a0 t cs)) (set_now t q)).
Proof.
  intros (Hlen & Hvol & Q & a0 & a2 & Hq & HQ & H0 & H2).
  unfold exec, animationFrame.
  erewrite bind_return by reflexivity.
  erewrite bind_return by reflexivity.
  erewrite bind_return by reflexivity.
  cbn [animationFrames set_now]. rewrite Hq.
  rewrite forEach_app.
  match goal with |- context [bind (forEach Q update) _ ?q0] =>
    destruct (update_pending Q q0 HQ) as (cs & Q' & Hf & Hl & H1 & HQ' & Hd)
  end.
  erewrite bind_return by exact Hf.
  cbn [forEach]. erewrite bind_return by apply update_spec.
  erewrite bind_return by apply update_spec.
  cbn in Hl, H1, Hd |- *.
  exists cs, Q', a0, a2.
  split; [done|]. split; [done|]. split; [lia|].
  split; [by rewrite H1|]. split; [done|]. split; [done|].
  cbn. by rewrite <- app_assoc.
Qed.

Lemma running_frame q t :
  t < T -> running T vol q -> running T vol (exec (animationFrame t) q).
Proof.
  intros Ht Hq.
  destruct (animationFrame_spec q t Hq)
    as (cs & Q' & a0 & a2 & H0 & H2 & Hlen & Hvol & HQ' & _ & ->).
  pose proof H0 as (He0 & _ & Hd0 & Hs0).
  pose proof H2 as (He2 & _ & Hd2 & Hs2).
  rewrite Hd0, Hs0, Hd2, Hs2.
  replace (t - (T - 1000) <? 1000) with true by lia.
  split; [|split].
  - cbn. unfold written. by rewrite !length_alter.
  - cbn. unfold written. rewrite He0, He2.
    by rewrite !list_lookup_alter_ne by done.
  - by exists Q', a0, a2.
Qed.

Lemma formatNumber_0 : formatNumber 0 = lit "0".
Proof. reflexivity. Qed.

Lemma running_settles q t :
  T <= t -> running T vol q ->
  displayed (exec (animationFrame t) q) =
    [Some (lit "0"); Some vol; Some (lit "0")].
Proof.
  intros Ht Hq.
  destruct (animationFrame_spec q t Hq)
    as (cs & Q' & a0 & a2 & H0 & H2 & Hlen & Hvol & _ & _ & ->).
  destruct H0 as (He0 & Ht0 & Hd0 & Hs0).
  destruct H2 as (He2 & Ht2 & Hd2 & Hs2).
  unfold displayed, written.
  cbn [counter__item set_animationFrames set_counter__item].
  rewrite !currentValue_finished by lia.
  rewrite Ht0, Ht2, He0, He2, formatNumber_0.
  destruct cs as [|c0 [|c1 [|c2 rest]]]; simpl in Hlen; try lia.
  cbn in Hvol |- *. by injection Hvol as ->.
Qed.

Lemma running_frames ts q :
  Forall (fun ti => ti < T) ts ->
  running T vol q ->
  running T vol (animationFrames_at ts q).
Proof.
  intros Hts. unfold animationFrames_at. revert q.
  induction Hts as [|ti ts Hti _ IH]; intros q Hq; simpl.
  - done.
  - apply IH. by apply running_frame.
Qed.

End Settling.

Lemma fetchStats_resume_failure variant r p :
  succeeds r = false ->
  fetchStats_resume variant r p = updateStatsDisplay variant zero_stats p.
Proof.
  intros Hr. unfold fetchStats_resume, try_catch.
  destruct r as [|status [data|]]; try done.
  - cbn in Hr. erewrite bind_return by reflexivity.
    cbn [fst snd]. rewrite Hr. reflexivity.
  - erewrite bind_return by reflexivity. cbn [fst snd].
    destruct (ok status); reflexivity.
Qed.

Lemma formatVolume_0 variant :
  formatVolume variant 0%float = zero_volume variant.
Proof. destruct variant; vm_compute; reflexivity. Qed.

Lemma animateNumber_spec i target q :
  animateNumber i target q =
    (Return tt,
     set_animationFrames (animationFrames q ++ [started i target q])
       (set_counter__item
          (written (started i target q) (now q) (counter__item q)) q)).
Proof.
  unfold animateNumber.
  erewrite bind_return by reflexivity.
  erewrite bind_return by reflexivity.
  rewrite update_spec. cbn [startTime duration started].
  rewrite Z.sub_diag. reflexivity.
Qed.

Lemma updateStatsDisplay_zero_running variant p :
  (3 <= length (counter__item p))%nat ->
  Forall (fun c => is_Some (span c)) (firstn 3 (counter__item p)) ->
  pending_ok (now p + 1000) (animationFrames p) ->
  let p' := exec (updateStatsDisplay variant zero_stats) p in
  running (now p + 1000) (zero_volume variant) p' /\
  requests p' = requests p.
Proof.
  intros Hlen Hspans Hpend.
  destruct (counter__item p) as [|item0 [|item1 [|item2 rest]]] eqn:Hcs;
    simpl in Hlen; try lia.
  cbn in Hspans.
  inversion_clear Hspans as [|? ? [text0 H0] Hs1].
  inversion_clear Hs1 as [|? ? [text1 H1] Hs2].
  inversion_clear Hs2 as [|? ? [text2 H2] _].
  unfold exec, updateStatsDisplay.
  erewrite bind_return by reflexivity. rewrite Hcs, H0, H1, H2.
  cbn [when_found zero_stats token_created trading_volume active_users].
  rewrite formatVolume_0.
  destruct (label item0), (label item1), (label item2);
    cbn [when_found];
    repeat (erewrite bind_return
              by first [apply animateNumber_spec | reflexivity]);
    rewrite ?animateNumber_spec;
    cbn -[zero_volume lit]; rewrite Hcs; cbn -[zero_volume lit].
  all: (split; [|done]).
  all: split; [cbn; lia|]; (split; [done|]).
  all: eexists (animationFrames p), _, _.
  all: split; [cbn; by rewrite <- app_assoc|].
  all: split; [done|].
  all: unfold closing; cbn; repeat split; lia.
Qed.

Lemma fetchStats_failure_running variant r p :
  succeeds r = false ->
  (3 <= length (counter__item p))%nat ->
  Forall (fun c => is_Some (span c)) (firstn 3 (counter__item p)) ->
  pending_ok (now p + 1000) (animationFrames p) ->
  running (now p + 1000) (zero_volume variant) (exec (fetchStats variant r) p).
Proof.
  intros Hr Hlen Hspans Hpend. unfold exec, fetchStats.
  erewrite bind_return by reflexivity.
  rewrite fetchStats_resume_failure by done.
  by apply (updateStatsDisplay_zero_running variant
              (set_requests (requests p ++ [API_URL ++ lit "/stats"]) p)).
Qed.

(** C4. When the stats request fails (it is rejected, answers with a
    status outside 200-299, or its body does not parse), [fetchStats]
    renders the zeroed snapshot and nothing else. On a page with three
    counters that have a text element, whatever they showed before, the
    volume counter then reads the zero volume, and once the animations
    have run their 1000 milliseconds (after any number of earlier frames)
    the three counters read 0, the zero volume and 0. *)
Theorem fetchStats_failure_shows_zeros
    (variant : Variant) (r : FetchResult StatsSnapshot) (p : Page)
    (ts : list Z) (t : Z) :
  succeeds r = false ->
  (3 <= length (counter__item p))%nat ->
  Forall (fun c => is_Some (span c)) (firstn 3 (counter__item p)) ->
  pending_ok (now p + 1000) (animationFrames p) ->
  Forall (fun ti => ti < now p + 1000) ts ->
  now p + 1000 <= t ->
  (forall q, fetchStats_resume variant r q =
             updateStatsDisplay variant zero_stats q) /\
  displayed
    (exec (animationFrame t)
       (animationFrames_at ts (exec (fetchStats variant r) p))) =
    [Some (lit "0"); Some (zero_volume variant); Some (lit "0")].
Proof.
  intros Hr Hlen Hspans Hpend Hts Ht. split.
  - intros q. by apply fetchStats_resume_failure.
  - eapply running_settles; [exact Ht|].
    apply running_frames; [done|].
    by apply fetchStats_failure_running.
Qed.


(** *** The hypothesis on the pending animations is an invariant *)

Lemma queues_ret {A} (a : A) : queues (ret a).
Proof.
  intros p. split; [done|]. exists []. rewrite app_nil_r.
  split; [done | constructor].
Qed.

Lemma queues_throw {A} : queues (@throw Page A).
Proof.
  intros p. split; [done|]. exists []. rewrite app_nil_r.
  split; [done | constructor].
Qed.

Lemma queues_get {A} (f : Page -> A) : queues (get f).
Proof.
  intros p. split; [done|]. exists []. rewrite app_nil_r.
  split; [done | constructor].
Qed.

Lemma queues_modify (g : Page -> Page) :
  (forall p, now (g p) = now p) ->
  (forall p, animationFrames (g p) = animationFrames p) ->
  queues (modify g).
Proof.
  intros Hn Hq p. split; [apply Hn|]. exists []. cbn.
  rewrite app_nil_r. split; [apply Hq | constructor].
Qed.

Lemma queues_bind {A B} (c : Script.M Page A) (k : A -> Script.M Page B) :
  queues c -> (forall a, queues (k a)) -> queues (bind c k).
Proof.
  intros Hc Hk p. unfold bind. destruct (Hc p) as (Hn & Q & Hq & HQ).
  destruct (c p) as [[a|] p']; cbn in *; [|by eauto].
  destruct (Hk a p') as (Hn' & Q' & Hq' & HQ').
  split; [congruence|]. exists (Q ++ Q').
  rewrite Hq', Hq, app_assoc. split; [done|].
  apply Forall_app. split; [done|]. by rewrite <- Hn.
Qed.

Lemma queues_try_catch {A} (body handler : Script.M Page A) :
  queues body -> queues handler -> queues (try_catch body handler).
Proof.
  intros Hb Hh p. unfold try_catch. destruct (Hb p) as (Hn & Q & Hq & HQ).
  destruct (body p) as [[a|] p']; cbn in *; [by eauto|].
  destruct (Hh p') as (Hn' & Q' & Hq' & HQ').
  split; [congruence|]. exists (Q ++ Q').
  rewrite Hq', Hq, app_assoc. split; [done|].
  apply Forall_app. split; [done|]. by rewrite <- Hn.
Qed.

Lemma queues_if {A} (b : bool) (c1 c2 : Script.M Page A) :
  queues c1 -> queues c2 -> queues (if b then c1 else c2).
Proof. by destruct b. Qed.

Lemma queues_animateNumber i target :
  i = 0%nat \/ i = 2%nat -> queues (animateNumber i target).
Proof.
  intros Hi p. rewrite animateNumber_spec. cbn. split; [done|].
  eexists. split; [done|].
  constructor; [|constructor]. cbn. split; [done | lia].
Qed.

Lemma queues_updateStatsDisplay variant stats :
  queues (updateStatsDisplay variant stats).
Proof.
  unfold updateStatsDisplay, when_found, set_label, set_span.
  apply queues_bind; [apply queues_get|]. intros cs.
  destruct cs as [|item0 [|item1 [|item2 rest]]]; try apply queues_ret.
  repeat (apply queues_bind; [|intros ?]);
    repeat match goal with
    | |- queues (match ?x with _ => _ end) => destruct x
    | |- queues (ret _) => apply queues_ret
    | |- queues (animateNumber _ _) => apply queues_animateNumber; auto
    | |- queues (modify _) => by apply queues_modify
    end.
Qed.

Lemma queues_fetchStats variant r : queues (fetchStats variant r).
Proof.
  unfold fetchStats, fetchStats_request, fetchStats_resume, await_fetch,
    response_json.
  apply queues_bind; [by apply queues_modify|]. intros _.
  apply queues_try_catch; [|apply queues_updateStatsDisplay].
  apply queues_bind; [destruct r; [apply queues_throw | apply queues_ret]|].
  intros response. apply queues_if; [apply queues_throw|].
  apply queues_bind; [|intros; apply queues_updateStatsDisplay].
  destruct (snd response); [apply queues_ret | apply queues_throw].
Qed.

(** The hypothesis on the pending animations holds again after a poll... *)
Lemma fetchStats_pending_ok variant r p :
  pending_ok (now p + 1000) (animationFrames p) ->
  let p' := exec (fetchStats variant r) p in
  pending_ok (now p' + 1000) (animationFrames p').
Proof.
  intros Hp. destruct (queues_fetchStats variant r p) as (Hn & Q & Hq & HQ).
  cbn. unfold exec. rewrite Hn, Hq. apply Forall_app. by split.
Qed.

Lemma pending_ok_mono T T' Q : T <= T' -> pending_ok T Q -> pending_ok T' Q.
Proof.
  intros HT. apply Forall_impl. intros a [He Ha]. split; [done | lia].
Qed.

(** ... and after an animation frame, as long as the clock does not run
    backwards. *)
Lemma animationFrame_pending_ok t p :
  now p <= t ->
  pending_ok (now p + 1000) (animationFrames p) ->
  let p' := exec (animationFrame t) p in
  pending_ok (now p' + 1000) (animationFrames p').
Proof.
  intros Ht Hp. unfold exec, animationFrame.
  erewrite bind_return by reflexivity.
  erewrite bind_return by reflexivity.
  erewrite bind_return by reflexivity.
  cbn [animationFrames set_now].
  match goal with |- context [forEach _ update ?q0] =>
    destruct (update_pending (t + 1000) (animationFrames p) q0)
      as (cs & Q' & -> & _ & _ & HQ' & _) end.
  { eapply pending_ok_mono; [|exact Hp]. lia. }
  done.
Qed.

(** *** Volume formatting *)

Lemma SFltb_SFleb x y : SFltb x y = true -> SFleb y x = false.
Proof.
  unfold SFltb, SFleb.
  destruct x as [sx|sx| |sx mx ex], y as [sy|sy| |sy my ey]; simpl;
    try destruct sx; try destruct sy; simpl; try done.
  all: change (Pos.compare_cont Eq mx my) with (mx ?= my)%positive;
       change (Pos.compare_cont Eq my mx) with (my ?= mx)%positive;
       destruct (Z.compare_spec ex ey), (Z.compare_spec ey ex); try lia;
       try done;
       destruct (Pos.compare_spec mx my), (Pos.compare_spec my mx);
       try lia; done.
Qed.

Lemma SFltb_trans_1000 x :
  SFltb x (Prim2SF 1000) = true -> SFltb x (Prim2SF 1000000) = true.
Proof.
  replace (Prim2SF 1000) with (S754_finite false 8796093022208000 (-43))
    by (vm_compute; reflexivity).
  replace (Prim2SF 1000000) with (S754_finite false 8589934592000000 (-33))
    by (vm_compute; reflexivity).
  unfold SFltb.
  destruct x as [sx|sx| |sx mx ex]; cbn [SFcompare]; try destruct sx;
    try done.
  destruct (Z.compare_spec ex (-43)), (Z.compare_spec ex (-33)); try lia; done.
Qed.

(** A volume below 1000 fails both tests of [formatVolume]. *)
Lemma below_thousand v :
  PrimFloat.ltb v 1000 = true ->
  PrimFloat.leb 1000 v = false /\ PrimFloat.leb 1000000 v = false.
Proof.
  rewrite ltb_spec, !leb_spec. intros H. split.
  - by apply SFltb_SFleb.
  - by apply SFltb_SFleb, SFltb_trans_1000.
Qed.

Lemma below_million v :
  PrimFloat.ltb v 1000000 = true -> PrimFloat.leb 1000000 v = false.
Proof. rewrite ltb_spec, leb_spec. apply SFltb_SFleb. Qed.

Lemma lit_uint_digits d :
  all_digits (lit (NilEmpty.string_of_uint d)).
Proof.
  unfold all_digits, lit.
  induction d; simpl; constructor; try done.
Qed.

Lemma digits_nonneg n :
  0 <= n -> all_digits (digits n) /\ digits n <> [].
Proof.
  intros Hn. unfold digits, int_toString.
  destruct n as [|p|p]; [| |lia].
  - split; [|done]. repeat constructor.
  - simpl. unfold NilZero.string_of_uint.
    destruct (Pos.to_uint p) eqn:E; [split; [repeat constructor | done]|..].
    all: rewrite <- E; split; [apply lit_uint_digits | by rewrite E].
Qed.

Lemma fixed_notation_two_decimals n :
  0 <= n -> two_decimals (fixed_notation n 2).
Proof.
  intros Hn. destruct (digits_nonneg n Hn) as [Hd Hne].
  unfold fixed_notation.
  set (m := if (length (digits n) <=? 2)%nat
            then repeat 48%N (2 + 1 - length (digits n)) ++ digits n
            else digits n).
  assert (all_digits m /\ (3 <= length m)%nat) as [Hm Hlen].
  { subst m. destruct (Nat.leb_spec (length (digits n)) 2).
    - split.
      + apply Forall_app. split; [|done].
        apply Forall_forall. intros c Hc%repeat_spec. by subst.
      + rewrite length_app, repeat_length. lia.
    - split; [done | lia]. }
  exists (firstn (length m - 2) m), (skipn (length m - 2) m).
  split; [done|]. split.
  { intros H. apply (f_equal (@length N)) in H.
    rewrite length_take in H. simpl in H. lia. }
  split; [rewrite length_drop; lia|].
  rewrite <- (firstn_skipn (length m - 2) m) in Hm.
  by apply Forall_app in Hm.
Qed.

Lemma pos_lt_pow_digits m : Z.pos m < 2 ^ Z.pos (digits2_pos m).
Proof.
  induction m as [m IH|m IH|]; simpl digits2_pos; [| |done].
  - rewrite Pos2Z.inj_succ, Z.pow_succ_r by lia. lia.
  - rewrite Pos2Z.inj_succ, Z.pow_succ_r by lia. lia.
Qed.

Lemma valid_mantissa_bound m e :
  valid_binary (S754_finite false m e) = true -> Z.pos m < 2 ^ 53.
Proof.
  unfold valid_binary, SpecFloat.valid_binary, bounded, canonical_mantissa,
    fexp.
  intros [H _]%andb_prop. apply Z.eqb_eq in H.
  assert (Z.pos (digits2_pos m) <= 53) as Hd by (unfold prec in H; lia).
  pose proof (pos_lt_pow_digits m).
  assert (2 ^ Z.pos (digits2_pos m) <= 2 ^ 53)
    by (apply Z.pow_le_mono_r; lia).
  lia.
Qed.

(** A volume from zero up to (not including) 1000 is printed with two
    decimals. *)
Lemma toFixed_two_decimals v :
  PrimFloat.leb 0 v = true -> PrimFloat.ltb v 1000 = true ->
  two_decimals (toFixed v 2).
Proof.
  rewrite leb_spec, ltb_spec. unfold toFixed.
  pose proof (Prim2SF_valid v) as Hv.
  replace (Prim2SF 1000) with (S754_finite false 8796093022208000 (-43))
    by (vm_compute; reflexivity).
  replace (Prim2SF 0) with (S754_zero false) by (vm_compute; reflexivity).
  destruct (Prim2SF v) as [s|s| |s m e]; try destruct s; try done.
  - intros _ _. by apply fixed_notation_two_decimals.
  - intros _ _. by apply fixed_notation_two_decimals.
  - intros _ Hlt. apply valid_mantissa_bound in Hv.
    unfold SFltb in Hlt. cbn [SFcompare] in Hlt.
    assert (e <= -43) as He.
    { destruct (Z.compare_spec e (-43)); first [lia | done]. }
    assert (numerator m e = Z.pos m) as Hnum
      by (unfold numerator; rewrite Z.max_r by lia; lia).
    assert (denominator e = 2 ^ (- e)) as Hden
      by (unfold denominator; by rewrite Z.max_l by lia).
    assert (2 ^ 43 <= 2 ^ (- e)) by (apply Z.pow_le_mono_r; lia).
    rewrite Hnum, Hden. simpl app.
    destruct (Z.leb_spec (10 ^ 21 * 2 ^ (- e)) (Z.pos m)); [lia|].
    apply fixed_notation_two_decimals.
    unfold nearest_scaled. rewrite Hnum, Hden.
    apply Z.div_pos; lia.
Qed.

(** C8. [formatVolume] maps 999 to "999.00 BNB" (dollar variant:
    "$999.00"), 1500 to "1.50K BNB" ("$1.50K") and 2500000 to "2.50M BNB"
    ("$2.50M"). A volume of at least 1000000 is divided by 1000000 and
    gets the suffix M, a volume of at least 1000 below that is divided by
    1000 and gets the suffix K, and a smaller volume is printed as it is;
    from zero up to 1000 that is a number with two decimal places. *)
Theorem formatVolume_abbreviates :
  (formatVolume BNB 999 = lit "999.00 BNB" /\
   formatVolume Dollar 999 = lit "$999.00" /\
   formatVolume BNB 1500 = lit "1.50K BNB" /\
   formatVolume Dollar 1500 = lit "$1.50K" /\
   formatVolume BNB 2500000 = lit "2.50M BNB" /\
   formatVolume Dollar 2500000 = lit "$2.50M") /\
  (forall v,
     PrimFloat.leb 1000000 v = true ->
     formatVolume BNB v =
       toFixed (PrimFloat.div v 1000000) 2 ++ lit "M BNB" /\
     formatVolume Dollar v =
       lit "$" ++ toFixed (PrimFloat.div v 1000000) 2 ++ lit "M") /\
  (forall v,
     PrimFloat.leb 1000 v = true -> PrimFloat.ltb v 1000000 = true ->
     formatVolume BNB v = toFixed (PrimFloat.div v 1000) 2 ++ lit "K BNB" /\
     formatVolume Dollar v =
       lit "$" ++ toFixed (PrimFloat.div v 1000) 2 ++ lit "K") /\
  (forall v,
     PrimFloat.ltb v 1000 = true ->
     formatVolume BNB v = toFixed v 2 ++ lit " BNB" /\
     formatVolume Dollar v = lit "$" ++ toFixed v 2) /\
  (forall v,
     PrimFloat.leb 0 v = true -> PrimFloat.ltb v 1000 = true ->
     two_decimals (toFixed v 2)).
Proof.
  split; [repeat split; vm_compute; reflexivity|].
  split; [|split; [|split]].
  - intros v H. unfold formatVolume. by rewrite H.
  - intros v H1 H2. unfold formatVolume.
    by rewrite (below_million v H2), H1.
  - intros v H. unfold formatVolume.
    destruct (below_thousand v H) as [-> ->]. done.
  - apply toFixed_two_decimals.
Qed.

(** *** The theorems at concrete inputs *)

(** C5 for two invocations in succession on a fresh page. *)
Lemma initializeStats_single_timer_witness :
  let p' := Nat.iter 2 (exec initializeStats) (fresh_stats_page []) in
  (length (intervals p') <= 1)%nat /\
  ((0 < 2)%nat ->
   exists id,
     statsUpdateTimer p' = Some id /\
     intervals p' = [id] /\
     requests (exec intervalTick p') =
       requests p' ++ [API_URL ++ lit "/stats"]) /\
  (forall id,
     statsUpdateTimer p' = Some id ->
     ~ In id (intervals (exec initializeStats p')) /\
     length (intervals (exec initializeStats p')) = 1%nat).
Proof.
  apply (initializeStats_single_timer 2 (fresh_stats_page [])).
  split; [reflexivity | reflexivity].
Defined.

(** C4 for a rejected request on a page showing 1 000, $5.00 and 77, with
    one animation frame half way and one at the end of the animation. *)
Lemma fetchStats_failure_shows_zeros_witness :
  let p := fresh_stats_page example_counters in
  (forall q, fetchStats_resume Dollar Rejected q =
             updateStatsDisplay Dollar zero_stats q) /\
  displayed
    (exec (animationFrame 1000)
       (animationFrames_at [500] (exec (fetchStats Dollar Rejected) p))) =
    [Some (lit "0"); Some (lit "$0.00"); Some (lit "0")].
Proof.
  apply (fetchStats_failure_shows_zeros Dollar Rejected
           (fresh_stats_page example_counters) [500] 1000).
  - reflexivity.
  - simpl. lia.
  - repeat constructor; eexists; reflexivity.
  - constructor.
  - repeat constructor.
  - simpl. lia.
Defined.

(** C8 at 1500, 2500000 and 999. *)
Lemma formatVolume_abbreviates_witness :
  formatVolume BNB 2500000 =
    toFixed (PrimFloat.div 2500000 1000000) 2 ++ lit "M BNB" /\
  formatVolume Dollar 1500 =
    lit "$" ++ toFixed (PrimFloat.div 1500 1000) 2 ++ lit "K" /\
  formatVolume BNB 999 = toFixed 999 2 ++ lit " BNB" /\
  two_decimals (toFixed 999 2).
Proof.
  destruct formatVolume_abbreviates as (_ & HM & HK & Hsmall & Htwo).
  split; [apply (HM 2500000%float); reflexivity|].
  split; [apply (HK 1500%float); reflexivity|].
  split; [apply (Hsmall 999%float); reflexivity|].
  apply (Htwo 999%float); reflexivity.
Defined.

End StatsProperties.

(** ** The chat page as a run of events *)

Section ChatSessions.
Import Chat Events.
Local Open Scope js_scope.

Lemma remove_loading_none chat :
  querySelector_loading chat = None -> remove_loading chat = chat.
Proof.
  unfold querySelector_loading. induction chat as [|m chat IH]; simpl; [done|].
  destruct (isLoading m); [done|]. intros H. by rewrite IH.
Qed.

Lemma removeLoadingMessage_removes p :
  exists p',
    removeLoadingMessage p = (Return tt, p') /\
    dapp__chat p' = remove_loading (dapp__chat p) /\
    currentChatType p' = currentChatType p /\
    chatHistory p' = chatHistory p.
Proof.
  unfold removeLoadingMessage. erewrite bind_return by reflexivity.
  destruct (querySelector_loading (dapp__chat p)) eqn:E.
  - by eexists.
  - exists p. by rewrite remove_loading_none.
Qed.

Lemma sendMessage_catch_removes p :
  exists p',
    sendMessage_catch p = (Return tt, p') /\
    dapp__chat p' =
      remove_loading (dapp__chat p) ++ [entry errorMsg ai] /\
    currentChatType p' = currentChatType p /\
    chatHistory p' = chatHistory p.
Proof.
  unfold sendMessage_catch.
  destruct (removeLoadingMessage_removes p) as (p1 & H1 & Hch & Hct & Hh).
  erewrite bind_return by exact H1.
  eexists. split; [reflexivity|]. cbn. by rewrite Hch, Hct, Hh.
Qed.

Lemma sendMessage_resume_failure_chat um r p :
  succeeds r = false ->
  let p' := exec (sendMessage_resume um r) p in
  dapp__chat p' =
    remove_loading (dapp__chat p) ++ [entry errorMsg ai] /\
  currentChatType p' = currentChatType p /\
  chatHistory p' = chatHistory p.
Proof.
  intros Hr. unfold exec, sendMessage_resume, try_catch.
  rewrite sendMessage_try_throws by done.
  by destruct (sendMessage_catch_removes p) as (p' & -> & H).
Qed.

Lemma sendMessage_try_general um status data p items :
  ok status = true ->
  chatHistory p !! currentChatType p = Some items ->
  exists p',
    sendMessage_try um (Resolved status (Some (Data data))) p =
      (Return tt, p') /\
    dapp__chat p' = remove_loading (dapp__chat p) ++
      [entry (successMsg (currentChatType p) (data_images data)) ai] /\
    currentChatType p' = currentChatType p /\
    chatHistory p' =
      <[currentChatType p :=
          items ++ [Turn {| userMessage := um;
                            images := data_images data |}]]>
        (chatHistory p).
Proof.
  intros Hok Hh. unfold sendMessage_try.
  erewrite bind_return by reflexivity. cbn [fst snd]. rewrite Hok. cbn [negb].
  erewrite bind_return by reflexivity.
  destruct (removeLoadingMessage_removes p) as (p1 & H1 & Hch1 & Hct1 & Hh1).
  erewrite bind_return by exact H1.
  erewrite bind_return by reflexivity.
  erewrite bind_return by apply successMsg_expr_Some.
  erewrite bind_return by reflexivity.
  erewrite bind_return by reflexivity.
  erewrite bind_return by reflexivity.
  cbn [displayImages_any].
  lazymatch goal with
  | |- exists _, bind (displayImages ?i ?t) _ ?q = _ /\ _ =>
      destruct (displayImages_completes i t q) as [[] Hd];
      pose proof (displayImages_keeps currentChatType i t
                    ltac:(done) ltac:(done) q) as Hct;
      pose proof (displayImages_keeps chatHistory i t
                    ltac:(done) ltac:(done) q) as Hhi;
      pose proof (displayImages_keeps dapp__chat i t
                    ltac:(done) ltac:(done) q) as Hch;
      destruct (displayImages i t q) as [res p'] eqn:Hdi
  end.
  cbn in Hd, Hct, Hhi, Hch. subst res.
  erewrite bind_return by exact Hdi.
  unfold chatHistory_push, chatHistory_get.
  erewrite bind_return by reflexivity.
  rewrite Hct.
  erewrite (bind_return (bind (get chatHistory) _)).
  2:{ erewrite bind_return by reflexivity. rewrite Hhi, Hh1, Hct1, Hh.
      reflexivity. }
  eexists. split; [reflexivity|]. cbn.
  by rewrite Hhi, Hch, Hct, Hch1, Hct1, Hh1.
Qed.

(** The continuation of [sendMessage], whatever the transcript holds:
    it takes away the first placeholder in document order (if there is
    one) and appends one caption. *)
Lemma sendMessage_resume_transcript
    (um : jsstring) (r : FetchResult ResponseData) (p : Page)
    (items : list HistoryItem) :
  chatHistory p !! currentChatType p = Some items ->
  let p' := exec (sendMessage_resume um (contract r)) p in
  let t := currentChatType p in
  dapp__chat p' =
    remove_loading (dapp__chat p) ++ [entry (caption t r) ai] /\
  currentChatType p' = t /\
  chatHistory p' =
    <[t := items ++ (Turn <$> stored um r)]> (chatHistory p).
Proof.
  intros Hh. destruct (succeeds r) eqn:Hr.
  - destruct r as [|status [data|]]; try done. cbn in Hr.
    destruct (sendMessage_try_general um status data p items Hr Hh)
      as (p' & Ht & Hch & Hct & Hhi).
    change (contract (Resolved status (Some data)))
      with (Resolved status (Some (Data data))).
    unfold exec, sendMessage_resume, try_catch. rewrite Ht. cbn.
    by rewrite Hr.
  - destruct (sendMessage_resume_failure_chat um (contract r) p)
      as (Hch & Hct & Hhi); [by rewrite succeeds_contract|].
    cbn zeta. rewrite Hch, Hct, Hhi.
    assert (caption (currentChatType p) r = errorMsg) as ->.
    { destruct r as [|status [data|]]; try done. cbn in *. by rewrite Hr. }
    assert (stored um r = []) as ->.
    { destruct r as [|status [data|]]; try done. cbn in *. by rewrite Hr. }
    rewrite app_nil_r, insert_id by done. done.
Qed.

Section TranscriptOnly.
Context {X : Type} (f : Page -> X).
Hypothesis f_chat : forall v p, f (set_dapp__chat v p) = f p.
Hypothesis f_input : forall v p, f (set_input_value v p) = f p.
Hypothesis f_log : forall e p, f (log e p) = f p.

Ltac transcript_only :=
  repeat first
    [ apply keeps_ret | apply keeps_get | apply keeps_throw
    | apply keeps_bind; [|intros ?]
    | apply keeps_modify; intros ?; rewrite ?f_log, ?f_chat, ?f_input;
      reflexivity
    | match goal with
      | |- keeps _ (match ?x with _ => _ end) => destruct x
      end ].

Lemma sendMessage_submit_keeps : keeps f sendMessage_submit.
Proof. unfold sendMessage_submit, addMessageToChat. transcript_only. Qed.

Lemma sendMessage_catch_keeps : keeps f sendMessage_catch.
Proof.
  unfold sendMessage_catch, removeLoadingMessage, addMessageToChat.
  transcript_only.
Qed.

Lemma sendMessage_failure_keeps r p :
  succeeds r = false -> f (exec (sendMessage r) p) = f p.
Proof.
  intros Hr. unfold exec, sendMessage, bind.
  pose proof (sendMessage_submit_keeps p) as Hs.
  destruct (sendMessage_submit p) as [[[um|]|] p1]; cbn in *; try done.
  unfold sendMessage_resume, try_catch.
  rewrite sendMessage_try_throws by done.
  by rewrite sendMessage_catch_keeps.
Qed.
End TranscriptOnly.

(** X1. A turn whose request fails changes nothing but the transcript, the
    input field and the trace: the chat type, the history, the three
    image regions and the visible panel stay as they were. *)
Theorem sendMessage_failure_frame (r : FetchResult Json) (p : Page) :
  succeeds r = false ->
  same_but_transcript p (exec (sendMessage r) p).
Proof.
  intros Hr. repeat split; by apply sendMessage_failure_keeps.
Qed.

Lemma sendMessage_failure_frame_witness :
  same_but_transcript
    (set_input_value (lit "hi") (load blank_page))
    (exec (sendMessage (Resolved 503 None))
       (set_input_value (lit "hi") (load blank_page))).
Proof.
  apply (sendMessage_failure_frame (Resolved 503 None)
           (set_input_value (lit "hi") (load blank_page))).
  reflexivity.
Defined.

Lemma step_Send_some a :
  trim (input_value (page a)) <> [] ->
  exists p1,
    step Send a =
      {| page := p1; pending := pending a ++ [trim (input_value (page a))] |} /\
    currentChatType p1 = currentChatType (page a) /\
    chatHistory p1 = chatHistory (page a) /\
    dapp__chat p1 = dapp__chat (page a) ++
      [entry (trim (input_value (page a))) user;
       placeholder (loadingMsg (currentChatType (page a)))] /\
    trace p1 = trace (page a) ++
      [AppendMessage (entry (trim (input_value (page a))) user);
       SetInputValue [];
       AppendMessage
         (placeholder (loadingMsg (currentChatType (page a))));
       Fetch {| url := API_URL ++ lit "/generate-images";
                user_prompt := trim (input_value (page a));
                chat_type := currentChatType (page a) |}].
Proof.
  intros Hne.
  destruct (sendMessage_submit_some (page a) Hne)
    as (p1 & Hs & Hct & Hh & _ & Hch & Htr).
  exists p1. unfold step. rewrite Hs. done.
Qed.

Lemma run_cons e events a : run (e :: events) a = run events (step e a).
Proof. reflexivity. Qed.

Lemma step_Settle i r a um :
  pending a !! i = Some um ->
  step (Settle i r) a =
    {| page := exec (sendMessage_resume um r) (page a);
       pending := delete i (pending a) |}.
Proof. intros H. unfold step. by rewrite H. Qed.

(** X2. Two submissions are sent before either request settles, both
    requests settle within the response contract, and the second settles
    first. Each settlement takes the first placeholder in document order
    out of the transcript and appends its caption at the end. So when the
    second request has settled, the placeholder that has gone is the one
    of the first submission (the one still there stands behind the second
    user entry), and the caption of the second request is the last entry;
    when the first request has settled too, no placeholder is left, the
    captions follow the two user entries in the order in which the
    requests settled, and the history stores the turns in that order. *)
Theorem overlapping_sends_settle_in_arrival_order
    (text1 text2 : jsstring) (r1 r2 : FetchResult ResponseData) (p : Page)
    (items : list HistoryItem) :
  trim text1 <> [] -> trim text2 <> [] ->
  querySelector_loading (dapp__chat p) = None ->
  chatHistory p !! currentChatType p = Some items ->
  let sent := run [Input text1; Send; Input text2; Send] (idle p) in
  let a1 := run [Settle 1 (contract r2)] sent in
  let a := run [Settle 0 (contract r1)] a1 in
  let t := currentChatType p in
  dapp__chat (page sent) = dapp__chat p ++
    [entry (trim text1) user;
     placeholder (loadingMsg t);
     entry (trim text2) user;
     placeholder (loadingMsg t)] /\
  dapp__chat (page a1) = dapp__chat p ++
    [entry (trim text1) user;
     entry (trim text2) user;
     placeholder (loadingMsg t);
     entry (caption t r2) ai] /\
  pending a = [] /\
  dapp__chat (page a) = dapp__chat p ++
    [entry (trim text1) user;
     entry (trim text2) user;
     entry (caption t r2) ai;
     entry (caption t r1) ai] /\
  chatHistory (page a) !! t =
    Some (items ++
          (Turn <$> (stored (trim text2) r2 ++ stored (trim text1) r1))).
Proof.
  intros H1 H2 Hl Hh. cbn zeta. rewrite !run_cons.
  change (step (Input text1) (idle p))
    with {| page := set_input_value text1 p; pending := [] |}.
  destruct (step_Send_some
              {| page := set_input_value text1 p; pending := [] |} H1)
    as (p1 & -> & Hct1 & Hh1 & Hch1 & _).
  cbn [page pending app input_value set_input_value currentChatType
       chatHistory dapp__chat] in *.
  change (step (Input text2) {| page := p1; pending := [trim text1] |})
    with {| page := set_input_value text2 p1; pending := [trim text1] |}.
  destruct (step_Send_some
              {| page := set_input_value text2 p1;
                 pending := [trim text1] |} H2)
    as (p2 & -> & Hct2 & Hh2 & Hch2 & _).
  cbn [page pending app input_value set_input_value currentChatType
       chatHistory dapp__chat] in *.
  cbn [run fold_left].
  rewrite (step_Settle 1 (contract r2) _ (trim text2)) by reflexivity.
  rewrite (step_Settle 0 (contract r1) _ (trim text1)) by reflexivity.
  cbn [page pending].
  rewrite Hct1 in Hct2. rewrite Hh1 in Hh2.
  destruct (sendMessage_resume_transcript (trim text2) r2 p2 items)
    as (Hch3 & Hct3 & Hh3); [by rewrite Hct2, Hh2|].
  set (p3 := exec (sendMessage_resume (trim text2) (contract r2)) p2) in *.
  destruct (sendMessage_resume_transcript (trim text1) r1 p3
              (items ++ (Turn <$> stored (trim text2) r2)))
    as (Hch4 & Hct4 & Hh4).
  { rewrite Hh3, Hct3. apply lookup_insert_eq. }
  assert (dapp__chat p3 = dapp__chat p ++
            [entry (trim text1) user; entry (trim text2) user;
             placeholder (loadingMsg (currentChatType p));
             entry (caption (currentChatType p) r2) ai]) as Hch3'.
  { rewrite Hch3, Hch2, Hch1, Hct2, Hct1.
    rewrite <- !app_assoc.
    rewrite (remove_loading_app (dapp__chat p)) by done.
    cbn [app remove_loading isLoading entry placeholder].
    by rewrite <- !app_assoc. }
  split; [|split; [exact Hch3'|split; [done|split]]].
  - rewrite Hch2, Hch1, Hct1. by rewrite <- !app_assoc.
  - rewrite Hch4, Hch3', Hct3, Hct2.
    rewrite (remove_loading_app (dapp__chat p)) by done.
    cbn [app remove_loading isLoading entry placeholder].
    by rewrite <- !app_assoc.
  - rewrite Hh4, Hct3, Hct2. rewrite lookup_insert_eq.
    by rewrite fmap_app, <- app_assoc.
Qed.

Lemma overlapping_sends_settle_in_arrival_order_witness :
  let sent := run [Input (lit "one"); Send; Input (lit "two"); Send]
                (idle (load blank_page)) in
  let a1 := run [Settle 1 example_response] sent in
  let a := run [Settle 0 Rejected] a1 in
  dapp__chat (page sent) = dapp__chat (load blank_page) ++
    [entry (lit "one") user;
     placeholder (lit "Generating website mockup...");
     entry (lit "two") user;
     placeholder (lit "Generating website mockup...")] /\
  dapp__chat (page a1) = dapp__chat (load blank_page) ++
    [entry (lit "one") user;
     entry (lit "two") user;
     placeholder (lit "Generating website mockup...");
     entry (successMsg website example_images) ai] /\
  pending a = [] /\
  dapp__chat (page a) = dapp__chat (load blank_page) ++
    [entry (lit "one") user;
     entry (lit "two") user;
     entry (successMsg website example_images) ai;
     entry errorMsg ai] /\
  chatHistory (page a) !! website =
    Some [{| item_userMessage := lit "two";
             item_images := Some example_images |}].
Proof.
  apply (overlapping_sends_settle_in_arrival_order (lit "one") (lit "two")
           Rejected (Resolved 200 (Some example_data)) (load blank_page) []).
  - vm_compute. discriminate.
  - vm_compute. discriminate.
  - reflexivity.
  - vm_compute. reflexivity.
Defined.

(** X3. A request is sent on one tab and settles successfully after the
    user has switched to the tab of type [t']: the turn is stored in the
    history of [t'], with the caption of [t'], although the request
    itself named the tab it was sent from; the transcript is the replay of
    [t'] followed by that caption alone. *)
Theorem settle_after_switch_files_under_current_tab
    (text t' : jsstring) (status : N) (data : ResponseData) (p : Page)
    (items' : list ChatHistoryEntry) :
  trim text <> [] ->
  ok status = true ->
  chatHistory p !! t' = Some (Turn <$> items') ->
  let a1 := run [Input text; Send] (idle p) in
  let a2 := run [Switch t'; Settle 0 (Resolved status (Some (Data data)))] a1 in
  In (Fetch {| url := API_URL ++ lit "/generate-images";
               user_prompt := trim text;
               chat_type := currentChatType p |}) (trace (page a1)) /\
  chatHistory (page a2) =
    <[t' := Turn <$> (items' ++ [{| userMessage := trim text;
                                    images := data_images data |}])]>
      (chatHistory p) /\
  dapp__chat (page a2) =
    transcript_of t' items' ++
    [entry (successMsg t' (data_images data)) ai].
Proof.
  intros Hne Hok Hh. cbn zeta. rewrite !run_cons.
  change (step (Input text) (idle p))
    with {| page := set_input_value text p; pending := [] |}.
  destruct (step_Send_some
              {| page := set_input_value text p; pending := [] |} Hne)
    as (p1 & -> & Hct1 & Hh1 & Hch1 & Htr1).
  cbn [page pending app input_value set_input_value currentChatType
       chatHistory dapp__chat trace run fold_left] in *.
  split.
  { rewrite Htr1. apply in_or_app. right. simpl. tauto. }
  change (step (Switch t') {| page := p1; pending := [trim text] |})
    with {| page := exec (switchTab t') p1; pending := [trim text] |}.
  rewrite (step_Settle 0 _ _ (trim text)) by reflexivity.
  cbn [page pending].
  destruct (switchTab_replays t' items' p1) as (Hch2 & Hh2 & Hct2);
    [by rewrite Hh1|].
  set (p2 := exec (switchTab t') p1) in *.
  destruct (sendMessage_resume_transcript (trim text)
              (Resolved status (Some data)) p2 (Turn <$> items'))
    as (Hch3 & Hct3 & Hh3); [by rewrite Hct2, Hh2, Hh1|].
  change (contract (Resolved status (Some data)))
    with (Resolved status (Some (Data data))) in *.
  rewrite Hh3, Hch3, Hct2, Hh2, Hh1, Hch2. cbn [caption stored].
  rewrite Hok, fmap_app. split; [done|].
  by rewrite remove_loading_none by apply transcript_of_no_loading.
Qed.

Lemma settle_after_switch_files_under_current_tab_witness :
  let a1 := run [Input (lit "a cafe logo"); Send]
              (idle (exec (switchTab design) (load blank_page))) in
  let a2 := run [Switch website; Settle 0 example_response] a1 in
  In (Fetch {| url := API_URL ++ lit "/generate-images";
               user_prompt := lit "a cafe logo";
               chat_type := design |}) (trace (page a1)) /\
  chatHistory (page a2) =
    <[website := [{| item_userMessage := lit "a cafe logo";
                     item_images := Some example_images |}]]>
      (chatHistory (exec (switchTab design) (load blank_page))) /\
  dapp__chat (page a2) =
    transcript_of website [] ++
    [entry (successMsg website example_images) ai].
Proof.
  apply (settle_after_switch_files_under_current_tab (lit "a cafe logo")
           website 200 example_data
           (exec (switchTab design) (load blank_page)) []).
  - vm_compute. discriminate.
  - reflexivity.
  - vm_compute. reflexivity.
Defined.

Lemma sendMessage_try_missing_key um status data p :
  ok status = true ->
  chatHistory p !! currentChatType p = None ->
  exists p',
    sendMessage_try um (Resolved status (Some (Data data))) p =
      (Throw, p') /\
    dapp__chat p' = remove_loading (dapp__chat p) ++
      [entry (successMsg (currentChatType p) (data_images data)) ai] /\
    currentChatType p' = currentChatType p /\
    chatHistory p' = chatHistory p.
Proof.
  intros Hok Hh. unfold sendMessage_try.
  erewrite bind_return by reflexivity. cbn [fst snd]. rewrite Hok. cbn [negb].
  erewrite bind_return by reflexivity.
  destruct (removeLoadingMessage_removes p) as (p1 & H1 & Hch1 & Hct1 & Hh1).
  erewrite bind_return by exact H1.
  erewrite bind_return by reflexivity.
  erewrite bind_return by apply successMsg_expr_Some.
  erewrite bind_return by reflexivity.
  erewrite bind_return by reflexivity.
  erewrite bind_return by reflexivity.
  cbn [displayImages_any].
  lazymatch goal with
  | |- exists _, bind (displayImages ?i ?t) _ ?q = _ /\ _ =>
      destruct (displayImages_completes i t q) as [[] Hd];
      pose proof (displayImages_keeps currentChatType i t
                    ltac:(done) ltac:(done) q) as Hct;
      pose proof (displayImages_keeps chatHistory i t
                    ltac:(done) ltac:(done) q) as Hhi;
      pose proof (displayImages_keeps dapp__chat i t
                    ltac:(done) ltac:(done) q) as Hch;
      destruct (displayImages i t q) as [res p'] eqn:Hdi
  end.
  cbn in Hd, Hct, Hhi, Hch. subst res.
  erewrite bind_return by exact Hdi.
  unfold chatHistory_push, chatHistory_get.
  erewrite bind_return by reflexivity.
  rewrite Hct.
  erewrite (bind_throw (bind (get chatHistory) _)).
  2:{ erewrite bind_return by reflexivity. rewrite Hhi, Hh1, Hct1, Hh.
      reflexivity. }
  eexists. split; [reflexivity|].
  by rewrite Hhi, Hch, Hct, Hch1, Hct1, Hh1.
Qed.

(** X4. The current chat type has no list in the history (a tab control
    with another attribute value was clicked) and the request succeeds:
    the success caption is shown and then the push onto the missing list
    fails, so the failure caption follows it and nothing is stored. *)
Theorem sendMessage_unknown_tab
    (status : N) (data : ResponseData) (p : Page) :
  trim (input_value p) <> [] ->
  querySelector_loading (dapp__chat p) = None ->
  ok status = true ->
  chatHistory p !! currentChatType p = None ->
  let p' := exec (sendMessage (Resolved status (Some (Data data)))) p in
  dapp__chat p' = dapp__chat p ++
    [entry (trim (input_value p)) user;
     entry (successMsg (currentChatType p) (data_images data)) ai;
     entry errorMsg ai] /\
  chatHistory p' = chatHistory p.
Proof.
  intros Hne Hl Hok Hh.
  destruct (sendMessage_submit_some p Hne)
    as (p1 & Hs & Hct & Hhi & _ & Hch & _).
  destruct (sendMessage_try_missing_key (trim (input_value p)) status data p1)
    as (p2 & Ht & Hch2 & Hct2 & Hh2); [done | by rewrite Hct, Hhi|].
  destruct (sendMessage_catch_removes p2) as (p3 & Hc & Hch3 & Hct3 & Hh3).
  unfold exec, sendMessage. erewrite bind_return by exact Hs.
  unfold sendMessage_resume, try_catch. rewrite Ht, Hc. cbn [snd].
  rewrite Hch3, Hh3, Hch2, Hh2, Hhi, Hch, Hct.
  split; [|done].
  rewrite (remove_loading_app (dapp__chat p)) by done.
  cbn [remove_loading isLoading entry placeholder].
  rewrite <- !app_assoc.
  rewrite (remove_loading_app (dapp__chat p)) by done.
  cbn [app remove_loading isLoading entry placeholder].
  by rewrite <- !app_assoc.
Qed.

Lemma sendMessage_unknown_tab_witness :
  let p := set_input_value (lit "hi")
             (exec (switchTab (lit "video")) (load blank_page)) in
  let p' := exec (sendMessage example_response) p in
  dapp__chat p' = dapp__chat p ++
    [entry (lit "hi") user;
     entry (successMsg (lit "video") example_images) ai;
     entry errorMsg ai] /\
  chatHistory p' = chatHistory p.
Proof.
  apply (sendMessage_unknown_tab 200 example_data
           (set_input_value (lit "hi")
              (exec (switchTab (lit "video")) (load blank_page)))).
  - vm_compute. discriminate.
  - reflexivity.
  - reflexivity.
  - vm_compute. reflexivity.
Defined.

Lemma displayImages_panels imgs t p :
  displayImages imgs t p =
    (Return tt,
     set_design
       (fst (shown_design t imgs (dapp__logos p, dapp__imgs p)))
       (snd (shown_design t imgs (dapp__logos p, dapp__imgs p)))
       (set_dapp__website (shown_website t imgs (dapp__website p)) p)).
Proof.
  unfold displayImages, displayDesignImages, displayWebsiteImage,
    shown_design, shown_website, design_slots.
  destruct (str_eqb t design).
  - rewrite design_loop. cbn. by destruct p.
  - destruct (str_eqb t website); [destruct imgs|]; cbn; by destruct p.
Qed.

Section ReplayPanels.
Variable t : jsstring.

(** The replay of one stored turn: whether it gets past the turn, what it
    appends to the transcript and what it leaves in the image regions. *)
Lemma replay_item_view item p :
  let p' := exec (replay_item t item) p in
  fst (replay_item t item p) =
    (if replays t item then Return tt else Throw) /\
  dapp__chat p' = dapp__chat p ++ item_entries t item /\
  regions p' = item_regions t item (regions p).
Proof.
  destruct item as [um [imgs|]];
    unfold exec, replay_item, replays, item_entries, item_regions;
    cbn [item_userMessage item_images].
  - erewrite bind_return by reflexivity.
    erewrite bind_return by apply successMsg_expr_Some.
    erewrite bind_return by reflexivity.
    cbn [displayImages_any]. rewrite displayImages_panels.
    cbn. rewrite <- app_assoc. split; [done|]. split; [done|].
    unfold regions. cbn. by destruct (shown_design _ _ _).
  - erewrite bind_return by reflexivity.
    unfold successMsg_expr.
    destruct (str_eqb t design) eqn:Ed.
    + cbn. done.
    + erewrite bind_return by reflexivity.
      erewrite bind_return by reflexivity.
      cbn [displayImages_any]. unfold displayImages_undefined.
      rewrite Ed. unfold displayWebsiteImage_undefined.
      destruct (str_eqb t website); cbn; by rewrite <- app_assoc.
Qed.

Lemma replay_loop items p :
  let p' := exec (forEach items (replay_item t)) p in
  dapp__chat p' = dapp__chat p ++ replayed_entries t items /\
  regions p' = replayed_regions t items (regions p).
Proof.
  revert p. induction items as [|item items IH]; intros p.
  - cbn. by rewrite app_nil_r.
  - cbn [forEach replayed_entries replayed_regions]. unfold exec, bind.
    destruct (replay_item_view item p) as (Hres & Hch & Hreg).
    unfold exec in Hch, Hreg.
    destruct (replay_item t item p) as [res q]. cbn [fst snd] in *.
    destruct (replays t item); subst res.
    + destruct (IH q) as [Hch' Hreg']. unfold exec in Hch', Hreg'.
      cbn zeta. rewrite Hch', Hreg', Hch, Hreg. by rewrite <- app_assoc.
    + cbn [snd]. by rewrite Hch, Hreg, app_nil_r.
Qed.

Lemma replay_loop_keeps {X} (f : Page -> X) items :
  (forall v p, f (set_dapp__chat v p) = f p) ->
  (forall e p, f (log e p) = f p) ->
  (forall v w p, f (set_design v w p) = f p) ->
  (forall v p, f (set_dapp__website v p) = f p) ->
  keeps f (forEach items (replay_item t)).
Proof.
  intros f_chat f_log f_design f_website.
  apply keeps_forEach. intros item. unfold replay_item, addMessageToChat.
  assert (forall m, keeps f (modify (fun p =>
            log (AppendMessage m) (set_dapp__chat (dapp__chat p ++ [m]) p))))
    by (intros m; apply keeps_modify; intros p; by rewrite f_log, f_chat).
  assert (keeps f (displayImages_any (item_images item) (Some t)))
    by (by apply displayImages_any_keeps).
  frame.
Qed.

(** The replay of stored turns whose images are arrays. *)
Lemma replayed_entries_Turn items :
  replayed_entries t (Turn <$> items) = flat_map (turn_entries t) items.
Proof.
  induction items as [|item items IH]; [done|].
  cbn. by rewrite IH.
Qed.

Lemma replay_of_Turn items :
  replay_of t (Turn <$> items) = transcript_of t items.
Proof. unfold replay_of, transcript_of. by rewrite replayed_entries_Turn. Qed.

Lemma replayed_regions_Turn items old :
  replayed_regions t (Turn <$> items) old =
    (replayed_website t items (fst old), replayed_design t items (snd old)).
Proof.
  revert old. induction items as [|item items IH]; intros old.
  - cbn. unfold replayed_design, replayed_website, latest_mockup. cbn.
    destruct old. by repeat destruct (str_eqb _ _).
  - cbn [fmap list_fmap replayed_regions replays Turn item_images].
    change (list_fmap _ _ Turn items) with (Turn <$> items).
    rewrite IH. unfold item_regions. cbn [Turn item_images fst snd].
    unfold replayed_design, replayed_website, latest_mockup,
      shown_website, shown_design.
    rewrite last_cons. cbn [omap].
    destruct (str_eqb t design) eqn:Ed.
    + cbn. destruct (list.last items); done.
    + destruct (str_eqb t website) eqn:Ew; [|done].
      f_equal. cbn. destruct (images item) as [|img0 imgs]; cbn.
      * done.
      * rewrite last_cons.
        unfold omap. by destruct (list.last (list_omap _ _ _ items)).
Qed.

(** Replaying twice leaves the image regions as replaying once does: the
    replay of a turn keeps each region or overwrites it with content that
    does not depend on what the region held. *)
Lemma replayed_regions_shape items :
  exists fw fd,
    (forall old, replayed_regions t items old = (fw (fst old), fd (snd old))) /\
    ((forall w, fw w = w) \/ exists c, forall w, fw w = c) /\
    ((forall d, fd d = d) \/ exists c, forall d, fd d = c).
Proof.
  assert (forall item, exists fw fd,
    (forall old, item_regions t item old = (fw (fst old), fd (snd old))) /\
    ((forall w, fw w = w) \/ exists c, forall w, fw w = c) /\
    ((forall d, fd d = d) \/ exists c, forall d, fd d = c)) as Hitem.
  { intros [um [imgs|]]; unfold item_regions; cbn [item_images].
    - exists (shown_website t imgs), (shown_design t imgs).
      split; [done|]. unfold shown_website, shown_design.
      destruct (str_eqb t design); [by eauto|].
      destruct (str_eqb t website); [|by eauto].
      destruct imgs; eauto.
    - exists id, id. split; [by intros []|]. eauto. }
  induction items as [|item items IH].
  - exists id, id. split; [by intros []|]. eauto.
  - destruct (Hitem item) as (gw & gd & Hg & Hgw & Hgd).
    cbn [replayed_regions]. destruct (replays t item).
    + destruct IH as (fw & fd & Hf & Hfw & Hfd).
      exists (fun w => fw (gw w)), (fun d => fd (gd d)).
      split; [intros old; by rewrite Hg, Hf|]. split.
      * destruct Hfw as [Hfw|[c Hfw]]; [|by eauto].
        destruct Hgw as [Hgw|[c Hgw]]; [left|right; exists c];
          intros w; by rewrite Hfw, Hgw.
      * destruct Hfd as [Hfd|[c Hfd]]; [|by eauto].
        destruct Hgd as [Hgd|[c Hgd]]; [left|right; exists c];
          intros d; by rewrite Hfd, Hgd.
    + by exists gw, gd.
Qed.

Lemma replayed_regions_idem items old :
  replayed_regions t items (replayed_regions t items old) =
    replayed_regions t items old.
Proof.
  destruct (replayed_regions_shape items) as (fw & fd & Hf & Hfw & Hfd).
  rewrite !Hf. cbn [fst snd]. f_equal.
  - destruct Hfw as [Hfw|[c Hfw]]; by rewrite !Hfw.
  - destruct Hfd as [Hfd|[c Hfd]]; by rewrite !Hfd.
Qed.
End ReplayPanels.

Lemma toggleDisplay_eq t p :
  toggleDisplay t p =
    (Return tt, set_active (str_eqb t website) (negb (str_eqb t website)) p).
Proof. unfold toggleDisplay. by destruct (str_eqb t website). Qed.

Lemma switchTab_eq t p :
  switchTab t p =
    loadChatHistory t
      (set_active (str_eqb t website) (negb (str_eqb t website))
         (set_currentChatType t p)).
Proof.
  unfold switchTab.
  erewrite bind_return by reflexivity.
  erewrite bind_return by reflexivity.
  erewrite bind_return by apply toggleDisplay_eq.
  erewrite bind_return by reflexivity.
  reflexivity.
Qed.

(** The page after a tab switch, for every stored history: a chat type
    the history has no list for gets the greeting alone. *)
Lemma switchTab_view t p :
  view (exec (switchTab t) p) =
    let items := default [] (chatHistory p !! t) in
    let shown := replayed_regions t items (regions p) in
    (t, chatHistory p, input_value p, replay_of t items,
     (fst shown, str_eqb t website),
     (snd shown, negb (str_eqb t website))).
Proof.
  unfold exec. rewrite switchTab_eq.
  unfold loadChatHistory.
  erewrite bind_return by reflexivity.
  erewrite bind_return by reflexivity.
  cbn zeta.
  destruct (chatHistory p !! t) as [items|] eqn:Hh.
  - erewrite bind_return; cycle 1.
    { unfold chatHistory_get. erewrite bind_return by reflexivity.
      cbn [fst snd].
      match goal with |- match ?o with _ => _ end _ = _ =>
        replace o with (Some items) by (by rewrite <- Hh) end.
      reflexivity. }
    match goal with |- context [forEach items ?f ?q] =>
      destruct (replay_loop t items q) as (Hch & Hreg);
      pose proof (replay_loop_keeps t currentChatType items
                    ltac:(done) ltac:(done) ltac:(done) ltac:(done) q) as Hct;
      pose proof (replay_loop_keeps t chatHistory items
                    ltac:(done) ltac:(done) ltac:(done) ltac:(done) q) as Hhi;
      pose proof (replay_loop_keeps t input_value items
                    ltac:(done) ltac:(done) ltac:(done) ltac:(done) q) as Hi;
      pose proof (replay_loop_keeps t website_active items
                    ltac:(done) ltac:(done) ltac:(done) ltac:(done) q) as Hwa;
      pose proof (replay_loop_keeps t design_active items
                    ltac:(done) ltac:(done) ltac:(done) ltac:(done) q) as Hda
    end.
    unfold exec in *. cbn [default from_option id].
    match goal with |- view ?q = _ => set (p' := q) in * end.
    change (regions p' = replayed_regions t items (regions p)) in Hreg.
    unfold view. rewrite Hch, Hhi, Hct, Hi, Hwa, Hda.
    destruct (replayed_regions t items (regions p)) as [w [l m]].
    injection Hreg as -> -> ->. reflexivity.
  - unfold bind, chatHistory_get. cbn. rewrite Hh. reflexivity.
Qed.

(** The same for a history of stored turns whose images are arrays. *)
Lemma switchTab_view_Turn t items p :
  chatHistory p !! t = Some (Turn <$> items) ->
  view (exec (switchTab t) p) =
    (t, chatHistory p, input_value p, transcript_of t items,
     (replayed_website t items (dapp__website p), str_eqb t website),
     (replayed_design t items (dapp__logos p, dapp__imgs p),
      negb (str_eqb t website))).
Proof.
  intros Hh. rewrite switchTab_view, Hh. cbn zeta.
  cbn [default from_option id].
  by rewrite replay_of_Turn, replayed_regions_Turn.
Qed.

(** X5. Selecting the tab that is already selected changes nothing on the
    page: the transcript, the history, the input field, the image regions
    and the visible panel are the same after the second click as after the
    first. *)
Theorem switchTab_idempotent (t : jsstring) (p : Page) :
  view (exec (switchTab t) (exec (switchTab t) p)) =
    view (exec (switchTab t) p).
Proof.
  rewrite (switchTab_view t (exec (switchTab t) p)).
  pose proof (switchTab_view t p) as Hv. unfold view in Hv.
  cbn zeta in *.
  injection Hv as Ht Hh Hi Hc Hw Hwa Hlm Hda.
  assert (regions (exec (switchTab t) p) =
          replayed_regions t (default [] (chatHistory p !! t)) (regions p))
    as ->.
  { unfold regions at 1. rewrite Hw, Hlm. by destruct (replayed_regions _ _ _). }
  rewrite Hh, Hi, (switchTab_view t p). cbn zeta.
  by rewrite replayed_regions_idem.
Qed.

(** X6. Selecting the design tab shows the images of the turn stored last
    under it, and of no other: its logos in the logo region, its banners in
    one [dapp__two] container that replaces the image region, each element
    showing the image at the [url] of the stored image, with the design
    panel visible and the website panel hidden. *)
Theorem switchTab_design_shows_last_turn
    (items : list ChatHistoryEntry) (item : ChatHistoryEntry) (p : Page) :
  chatHistory p !! design = Some (Turn <$> (items ++ [item])) ->
  let p' := exec (switchTab design) p in
  dapp__logos p' =
    map (fun i => Img (logo_element (img_url i)))
      (List.filter is_logo (images item)) /\
  dapp__imgs p' =
    [Div (lit "dapp__two")
       (map (fun i => banner_element (img_url i))
          (List.filter is_banner (images item)))] /\
  design_active p' = true /\ website_active p' = false.
Proof.
  intros Hh p'.
  pose proof (switchTab_view_Turn design _ p Hh) as Hv. unfold view in Hv.
  unfold replayed_design, design_slots in Hv. rewrite last_snoc in Hv.
  change (str_eqb design design) with true in Hv.
  change (str_eqb design website) with false in Hv.
  cbv beta iota in Hv.
  injection Hv as _ _ _ _ _ Hwa Hlo Him Hda. done.
Qed.


Lemma switchTab_design_shows_last_turn_witness :
  let p := set_chatHistory
             (<[design := [ {| item_userMessage := lit "a";
                               item_images := Some [] |};
                            {| item_userMessage := lit "b";
                               item_images := Some example_images |} ]]>
                (chatHistory (load blank_page)))
             (load blank_page) in
  let p' := exec (switchTab design) p in
  dapp__logos p' = [Img (logo_element (lit "a"))] /\
  dapp__imgs p' = [Div (lit "dapp__two") [banner_element (lit "b")]] /\
  design_active p' = true /\ website_active p' = false.
Proof.
  intros p.
  apply (switchTab_design_shows_last_turn
           [ {| userMessage := lit "a"; images := [] |} ]
           {| userMessage := lit "b"; images := example_images |} p).
  reflexivity.
Defined.


Section Untouched.
Context {X : Type} (f : Page -> X).
Hypothesis f_chat : forall v p, f (set_dapp__chat v p) = f p.
Hypothesis f_input : forall v p, f (set_input_value v p) = f p.
Hypothesis f_log : forall e p, f (log e p) = f p.
Hypothesis f_history : forall v p, f (set_chatHistory v p) = f p.
Hypothesis f_design : forall v w p, f (set_design v w p) = f p.
Hypothesis f_website : forall v p, f (set_dapp__website v p) = f p.

Lemma sendMessage_try_untouched um r : keeps f (sendMessage_try um r).
Proof.
  unfold sendMessage_try, chatHistory_push, chatHistory_get, await_fetch,
    response_json, removeLoadingMessage, addMessageToChat.
  assert (forall i t, keeps f (displayImages_any i t))
    by (intros; by apply displayImages_any_keeps).
  repeat first
    [ apply keeps_ret | apply keeps_get | apply keeps_throw
    | apply H
    | apply json_images_keeps | apply json_type_keeps
    | apply successMsg_expr_keeps
    | apply keeps_bind; [|intros ?]
    | apply keeps_modify; intros ?;
      rewrite ?f_log, ?f_chat, ?f_input, ?f_history; reflexivity
    | match goal with
      | |- keeps _ (match ?x with _ => _ end) => destruct x
      | |- keeps _ (if ?x then _ else _) => destruct x
      end ].
Qed.

Lemma sendMessage_resume_untouched um r : keeps f (sendMessage_resume um r).
Proof.
  apply keeps_try_catch.
  - apply sendMessage_try_untouched.
  - by apply sendMessage_catch_keeps.
Qed.

Lemma step_untouched e a :
  (forall t, e <> Switch t) -> f (page (step e a)) = f (page a).
Proof.
  intros He. destruct e as [text| |i r|t]; cbn [step].
  - apply f_input.
  - pose proof (sendMessage_submit_keeps f f_chat f_input f_log (page a)) as H.
    by destruct (sendMessage_submit (page a)) as [[[um|]|] p'].
  - destruct (pending a !! i); [|done]. apply sendMessage_resume_untouched.
  - by destruct (He t).
Qed.
End Untouched.

Lemma run_app events events' a :
  run (events ++ events') a = run events' (run events a).
Proof. apply fold_left_app. Qed.

Lemma step_panel_follows_tab e a :
  panel_follows_tab (page a) -> panel_follows_tab (page (step e a)).
Proof.
  intros [Hw Hd].
  assert ((exists t, e = Switch t) \/ forall t, e <> Switch t) as [[t ->]|He]
    by (destruct e; eauto).
  - cbn [step page].
    pose proof (switchTab_view t (page a)) as Hv. unfold view in Hv.
    cbn zeta in Hv. injection Hv as Ht _ _ _ _ Hwa _ Hda.
    split; by rewrite Ht.
  - split.
    + rewrite (step_untouched website_active), (step_untouched currentChatType)
        by done. exact Hw.
    + rewrite (step_untouched design_active), (step_untouched currentChatType)
        by done. exact Hd.
Qed.

(** X8. Once the visible panel is the one of the current chat type, it
    stays so whatever the user does and however the requests settle: a
    result that arrives after a tab switch does not bring back the other
    panel. *)
Theorem panel_follows_tab_invariant (events : list Event) (a : App) :
  panel_follows_tab (page a) -> panel_follows_tab (page (run events a)).
Proof.
  revert a. induction events as [|e events IH]; intros a Ha; [exact Ha|].
  apply IH, step_panel_follows_tab, Ha.
Qed.

Lemma panel_follows_tab_invariant_witness :
  panel_follows_tab
    (page (run [Input (lit "logo"); Send; Switch design;
                Settle 0 example_response]
             (idle (load blank_page)))).
Proof.
  apply (panel_follows_tab_invariant
           [Input (lit "logo"); Send; Switch design;
            Settle 0 example_response]
           (idle (load blank_page))).
  split; reflexivity.
Defined.

Lemma step_history_grows e a :
  history_grows (chatHistory (page a)) (chatHistory (page (step e a))).
Proof.
  destruct e as [text| |i r|t]; cbn [step].
  - apply history_grows_refl.
  - pose proof (sendMessage_submit_keeps chatHistory
                  ltac:(done) ltac:(done) ltac:(done) (page a)) as H.
    destruct (sendMessage_submit (page a)) as [[[um|]|] p']; cbn in *;
      rewrite H; apply history_grows_refl.
  - destruct (pending a !! i); [|apply history_grows_refl].
    apply sendMessage_resume_history_grows.
  - cbn [page].
    pose proof (switchTab_view t (page a)) as Hv. unfold view in Hv.
    cbn zeta in Hv. injection Hv as _ Hh _ _ _ _ _ _.
    rewrite Hh. apply history_grows_refl.
Qed.

(** X9. Whatever the user does and however the requests settle, the
    history only grows: no chat type is added to it or removed from it, and
    under each chat type the turns stored so far stay, in their order, in
    front of the ones stored later. *)
Theorem chatHistory_only_grows (events : list Event) (a : App) :
  history_grows (chatHistory (page a)) (chatHistory (page (run events a))).
Proof.
  revert a. induction events as [|e events IH]; intros a.
  - apply history_grows_refl.
  - eapply history_grows_trans; [apply (step_history_grows e)|apply IH].
Qed.

Lemma fetched_log e p :
  (forall r, e <> Fetch r) -> fetched (log e p) = fetched p.
Proof.
  intros He. unfold fetched. cbn [trace log].
  rewrite omap_app. cbn.
  destruct e as [| | | |r]; try by rewrite app_nil_r. by destruct (He r).
Qed.

Ltac no_request :=
  repeat first
    [ apply keeps_ret | apply keeps_get | apply keeps_throw
    | apply keeps_bind; [|intros ?]
    | apply keeps_try_catch
    | apply keeps_forEach; intros ?
    | apply displayImages_any_keeps; reflexivity
    | apply json_images_keeps | apply json_type_keeps
    | apply successMsg_expr_keeps
    | apply keeps_modify; intros ?;
      rewrite ?fetched_log by done; reflexivity
    | match goal with
      | |- keeps _ (match ?x with _ => _ end) => destruct x
      | |- keeps _ (if ?x then _ else _) => destruct x
      end ].

Lemma sendMessage_resume_no_request um r :
  keeps fetched (sendMessage_resume um r).
Proof.
  unfold sendMessage_resume, sendMessage_try, sendMessage_catch,
    chatHistory_push, chatHistory_get, await_fetch, response_json,
    removeLoadingMessage, addMessageToChat.
  no_request.
Qed.

Lemma switchTab_no_request t : keeps fetched (switchTab t).
Proof.
  unfold switchTab, toggleDisplay, loadChatHistory, chatHistory_get,
    replay_item, addMessageToChat.
  no_request.
Qed.

(** X10. The page issues a request only when a non-blank prompt is
    submitted, and then exactly one, to [/generate-images], with the
    trimmed prompt and the chat type of that moment: a blank submission, a
    tab switch and the arrival of a result (also of a failure: there is no
    retry) issue none. *)
Theorem one_request_per_submission (e : Event) (a : App) :
  fetched (page (step e a)) = fetched (page a) ++ requests_of e a.
Proof.
  destruct e as [text| |i r|t]; cbn [step requests_of].
  - by rewrite app_nil_r.
  - destruct (trim (input_value (page a))) as [|c um] eqn:Hum.
    + rewrite sendMessage_submit_blank by done. by rewrite app_nil_r.
    + destruct (sendMessage_submit_some (page a))
        as (p1 & Hs & _ & _ & _ & _ & Htr); [by rewrite Hum|].
      rewrite Hs. cbn [page]. unfold fetched. rewrite Htr, omap_app, Hum.
      reflexivity.
  - rewrite app_nil_r. destruct (pending a !! i); [|done].
    cbn [page]. unfold exec.
    by rewrite (sendMessage_resume_no_request _ _ (page a)).
  - rewrite app_nil_r. cbn [page]. unfold exec.
    by rewrite (switchTab_no_request t (page a)).
Qed.







(** The type of the response matters: a design response that arrives on
    the website tab fills the design regions, and selecting the website tab
    again then puts its first image into the website region. *)
Example replay_differs_for_other_type :
  ~ replay_stable (submit (lit "a shop") example_response (load blank_page)).
Proof.
  unfold replay_stable. intros H.
  apply (f_equal (fun v => length (fst (snd (fst v))))) in H.
  vm_compute in H. discriminate.
Qed.

(** X12. A click on a tab control leaves that control, and no other, with
    the [_active] class; the controls keep their attributes; the chat type
    becomes the attribute of the clicked control and the panel of that type
    is the visible one. *)
Theorem click_selects_one
    (i : nat) (switches : list SwitchBtn) (s : SwitchBtn) (p : Page) :
  switches !! i = Some s ->
  let switches' := fst (click i switches p) in
  let p' := snd (click i switches p) in
  map data_switch switches' = map data_switch switches /\
  (forall j, switch_active <$> switches' !! j =
             (fun _ => bool_decide (j = i)) <$> switches !! j) /\
  currentChatType p' = data_switch s /\
  panel_follows_tab p'.
Proof.
  intros Hs. unfold click. rewrite Hs. cbn [fst snd].
  pose proof (switchTab_view (data_switch s) p) as Hv. unfold view in Hv.
  cbn zeta in Hv. injection Hv as Ht _ _ _ _ Hwa _ Hda.
  split; [|split; [|split; [exact Ht|split; by rewrite Ht]]].
  - apply list_eq. intros j. rewrite !list_lookup_fmap.
    destruct (decide (j = i)) as [->|Hne].
    + rewrite list_lookup_alter_eq, list_lookup_fmap, Hs. done.
    + rewrite list_lookup_alter_ne by done. rewrite list_lookup_fmap.
      by destruct (switches !! j).
  - intros j. destruct (decide (j = i)) as [->|Hne].
    + rewrite list_lookup_alter_eq, list_lookup_fmap, Hs. cbn.
      by rewrite bool_decide_eq_true_2.
    + rewrite list_lookup_alter_ne by done. rewrite list_lookup_fmap.
      destruct (switches !! j); [|done]. cbn.
      by rewrite bool_decide_eq_false_2.
Qed.

Lemma click_selects_one_witness :
  let switches := [ {| data_switch := design; switch_active := false |};
                    {| data_switch := website; switch_active := true |} ] in
  let switches' := fst (click 0 switches (load blank_page)) in
  let p' := snd (click 0 switches (load blank_page)) in
  map data_switch switches' = map data_switch switches /\
  (forall j, switch_active <$> switches' !! j =
             (fun _ => bool_decide (j = 0)) <$> switches !! j) /\
  currentChatType p' = design /\
  panel_follows_tab p'.
Proof.
  intros switches.
  apply (click_selects_one 0 switches
           {| data_switch := design; switch_active := false |}
           (load blank_page)).
  reflexivity.
Defined.

(** Where requests overlap or a tab switch comes between a submission and
    its result, the replay can differ from what is on screen although
    every request succeeds. Two overlapping submissions leave both user
    entries in front of both captions; the replay pairs each user entry
    with its caption. *)
Example replay_reorders_overlapping_turns :
  let a := run [Input (lit "one"); Send; Input (lit "two"); Send;
                Settle 0 example_response; Settle 0 example_response]
             (idle (load blank_page)) in
  let caption := entry (successMsg website example_images) ai in
  dapp__chat (page a) =
    [entry (greeting website) ai;
     entry (lit "one") user; entry (lit "two") user; caption; caption] /\
  dapp__chat (exec (switchTab website) (page a)) =
    [entry (greeting website) ai;
     entry (lit "one") user; caption; entry (lit "two") user; caption].
Proof. split; vm_compute; reflexivity. Qed.

(** A result that arrives after a switch to the design tab adds its
    caption to the transcript of that tab without the user entry; the
    replay shows the user entry as well. *)
Example replay_adds_entry_of_turn_settled_after_switch :
  let a := run [Input (lit "logo"); Send; Switch design;
                Settle 0 example_response]
             (idle (load blank_page)) in
  let caption := entry (successMsg design example_images) ai in
  dapp__chat (page a) = [entry (greeting design) ai; caption] /\
  dapp__chat (exec (switchTab design) (page a)) =
    [entry (greeting design) ai; entry (lit "logo") user; caption].
Proof. split; vm_compute; reflexivity. Qed.

End ChatSessions.

(** ** The stats page as a run of events *)

Section StatsPolling.
Import Stats Events.
Local Open Scope js_scope.
Local Open Scope Z_scope.

Lemma fetchStats_resume_rendered variant r p :
  fetchStats_resume variant r p = updateStatsDisplay variant (rendered r) p.
Proof.
  unfold fetchStats_resume, try_catch.
  assert (forall stats, exists q,
            updateStatsDisplay variant stats p = (Return tt, q)) as Hc.
  { intros stats. unfold updateStatsDisplay.
    erewrite bind_return by reflexivity.
    destruct (counter__item p) as [|item0 [|item1 [|item2 rest]]]; eauto.
    destruct (span item0), (label item0), (span item1), (label item1),
      (span item2), (label item2); cbn [when_found];
      repeat (erewrite bind_return
                by first [apply animateNumber_spec | reflexivity]);
      rewrite ?animateNumber_spec; eauto. }
  destruct r as [|status [data|]]; cbn [rendered].
  - reflexivity.
  - erewrite bind_return by reflexivity. cbn [fst snd].
    destruct (ok status); cbn [negb]; [|reflexivity].
    erewrite bind_return by reflexivity.
    by destruct (Hc data) as [q ->].
  - erewrite bind_return by reflexivity. cbn [fst snd].
    destruct (ok status); reflexivity.
Qed.

Section Showing.
Variables (variant : Variant) (T : Z) (stats : StatsSnapshot).

Lemma animationFrame_showing q t :
  showing variant T stats q ->
  exists cs Q' a0 a2,
    heading T 0 (token_created stats) a0 /\
    heading T 2 (active_users stats) a2 /\
    (3 <= length cs)%nat /\
    span <$> cs !! 1%nat =
      Some (Some (formatVolume variant (trading_volume stats))) /\
    pending_ok T Q' /\ (T <= t -> Q' = []) /\
    exec (animationFrame t) q =
      set_animationFrames
        (Q' ++ (if t - startTime a0 <? duration a0 then [a0] else [])
            ++ (if t - startTime a2 <? duration a2 then [a2] else []))
        (set_counter__item (written a2 t (written a0 t cs)) (set_now t q)).
Proof.
  intros (Hlen & Hvol & Q & a0 & a2 & Hq & HQ & H0 & H2).
  unfold exec, animationFrame.
  erewrite bind_return by reflexivity.
  erewrite bind_return by reflexivity.
  erewrite bind_return by reflexivity.
  cbn [animationFrames set_now]. rewrite Hq.
  rewrite forEach_app.
  match goal with |- context [bind (forEach Q update) _ ?q0] =>
    destruct (update_pending T Q q0 HQ) as (cs & Q' & Hf & Hl & H1 & HQ' & Hd)
  end.
  erewrite bind_return by exact Hf.
  cbn [forEach]. erewrite bind_return by apply update_spec.
  erewrite bind_return by apply update_spec.
  cbn in Hl, H1, Hd |- *.
  exists cs, Q', a0, a2.
  split; [done|]. split; [done|]. split; [lia|].
  split; [by rewrite H1|]. split; [done|]. split; [done|].
  cbn. by rewrite <- app_assoc.
Qed.

Lemma showing_frame q t :
  t < T -> showing variant T stats q ->
  showing variant T stats (exec (animationFrame t) q).
Proof.
  intros Ht Hq.
  destruct (animationFrame_showing q t Hq)
    as (cs & Q' & a0 & a2 & H0 & H2 & Hlen & Hvol & HQ' & _ & ->).
  pose proof H0 as (He0 & _ & Hd0 & Hs0).
  pose proof H2 as (He2 & _ & Hd2 & Hs2).
  rewrite Hd0, Hs0, Hd2, Hs2.
  replace (t - (T - 1000) <? 1000) with true by lia.
  split; [|split].
  - cbn. unfold written. by rewrite !length_alter.
  - cbn. unfold written. rewrite He0, He2.
    by rewrite !list_lookup_alter_ne by done.
  - by exists Q', a0, a2.
Qed.

Lemma showing_frames ts q :
  Forall (fun ti => ti < T) ts ->
  showing variant T stats q ->
  showing variant T stats (animationFrames_at ts q).
Proof.
  intros Hts. unfold animationFrames_at. revert q.
  induction Hts as [|ti ts Hti _ IH]; intros q Hq; simpl.
  - done.
  - apply IH. by apply showing_frame.
Qed.

Lemma showing_settles q t :
  T <= t -> showing variant T stats q ->
  let q' := exec (animationFrame t) q in
  displayed q' =
    [Some (formatNumber (token_created stats));
     Some (formatVolume variant (trading_volume stats));
     Some (formatNumber (active_users stats))] /\
  animationFrames q' = [].
Proof.
  intros Ht Hq.
  destruct (animationFrame_showing q t Hq)
    as (cs & Q' & a0 & a2 & H0 & H2 & Hlen & Hvol & _ & HQ' & Hex).
  cbn zeta. rewrite Hex.
  destruct H0 as (He0 & Ht0 & Hd0 & Hs0).
  destruct H2 as (He2 & Ht2 & Hd2 & Hs2).
  split.
  - unfold displayed, written.
    cbn [counter__item set_animationFrames set_counter__item].
    rewrite !currentValue_finished by lia.
    rewrite Ht0, Ht2, He0, He2.
    destruct cs as [|c0 [|c1 [|c2 rest]]]; simpl in Hlen; try lia.
    cbn in Hvol |- *. by injection Hvol as ->.
  - cbn [animationFrames set_animationFrames].
    rewrite HQ' by done. rewrite Hd0, Hs0, Hd2, Hs2.
    by replace (t - (T - 1000) <? 1000) with false by lia.
Qed.

End Showing.

Lemma updateStatsDisplay_showing variant stats p :
  (3 <= length (counter__item p))%nat ->
  Forall (fun c => is_Some (span c)) (firstn 3 (counter__item p)) ->
  pending_ok (now p + 1000) (animationFrames p) ->
  showing variant (now p + 1000) stats
    (exec (updateStatsDisplay variant stats) p).
Proof.
  intros Hlen Hspans Hpend.
  destruct (counter__item p) as [|item0 [|item1 [|item2 rest]]] eqn:Hcs;
    simpl in Hlen; try lia.
  cbn in Hspans.
  inversion_clear Hspans as [|? ? [text0 H0] Hs1].
  inversion_clear Hs1 as [|? ? [text1 H1] Hs2].
  inversion_clear Hs2 as [|? ? [text2 H2] _].
  unfold exec, updateStatsDisplay.
  erewrite bind_return by reflexivity. rewrite Hcs, H0, H1, H2.
  cbn [when_found].
  destruct (label item0), (label item1), (label item2);
    cbn [when_found];
    repeat (erewrite bind_return
              by first [apply animateNumber_spec | reflexivity]);
    rewrite ?animateNumber_spec;
    cbn -[formatVolume formatNumber lit]; rewrite Hcs;
    cbn -[formatVolume formatNumber lit].
  all: split; [cbn; lia|]; (split; [done|]).
  all: eexists (animationFrames p), _, _.
  all: split; [cbn; by rewrite <- app_assoc|].
  all: split; [done|].
  all: unfold heading; cbn -[formatVolume formatNumber lit];
    repeat split; lia.
Qed.

(** X13. When the stats request settles, with the snapshot of the server
    or, on a failure, the zeroed one, the volume counter shows its
    formatted volume at once and keeps showing it through the animation
    frames that follow, and once the animations have run their 1000
    milliseconds (after any number of earlier frames) the two animated
    counters show its formatted counts and no animation is pending any
    more. Animations still running from an earlier poll do not change
    this. The counts of the snapshot and the numbers the two counters
    show when the request settles are of magnitude below [2^52]: there
    the last frame of the script, computed on doubles, is the exact one
    computed here. *)
Theorem fetchStats_shows_rendered
    (variant : Variant) (r : FetchResult StatsSnapshot) (p : Page)
    (ts : list Z) (t : Z) :
  (3 <= length (counter__item p))%nat ->
  Forall (fun c => is_Some (span c)) (firstn 3 (counter__item p)) ->
  pending_ok (now p + 1000) (animationFrames p) ->
  Forall (fun ti => ti < now p + 1000) ts ->
  now p + 1000 <= t ->
  Z.abs (token_created (rendered r)) < 2 ^ 52 ->
  Z.abs (active_users (rendered r)) < 2 ^ 52 ->
  Z.abs (shown_number 0 p) < 2 ^ 52 ->
  Z.abs (shown_number 2 p) < 2 ^ 52 ->
  let q0 := exec (fetchStats variant r) p in
  let q := exec (animationFrame t) (animationFrames_at ts q0) in
  let volume := formatVolume variant (trading_volume (rendered r)) in
  span <$> counter__item q0 !! 1%nat = Some (Some volume) /\
  span <$> counter__item (animationFrames_at ts q0) !! 1%nat =
    Some (Some volume) /\
  displayed q =
    [Some (formatNumber (token_created (rendered r)));
     Some volume;
     Some (formatNumber (active_users (rendered r)))] /\
  animationFrames q = [].
Proof.
  intros Hlen Hspans Hpend Hts Ht _ _ _ _ q0 q volume.
  assert (showing variant (now p + 1000) (rendered r) q0) as Hq0.
  { unfold q0, exec, fetchStats.
    erewrite bind_return by reflexivity.
    rewrite fetchStats_resume_rendered.
    by apply (updateStatsDisplay_showing variant (rendered r)
                (set_requests (requests p ++ [API_URL ++ lit "/stats"]) p)). }
  pose proof (showing_frames variant (now p + 1000) (rendered r) ts q0
                Hts Hq0) as Hqs.
  split; [exact (proj1 (proj2 Hq0))|].
  split; [exact (proj1 (proj2 Hqs))|].
  by apply (showing_settles variant (now p + 1000) (rendered r)).
Qed.

Lemma fetchStats_shows_rendered_witness :
  let q0 := exec (fetchStats BNB (Resolved 200 (Some example_stats)))
              (fresh_stats_page example_counters) in
  let q := exec (animationFrame 1000) (animationFrames_at [100; 500] q0) in
  span <$> counter__item q0 !! 1%nat = Some (Some (lit "1.50K BNB")) /\
  span <$> counter__item (animationFrames_at [100; 500] q0) !! 1%nat =
    Some (Some (lit "1.50K BNB")) /\
  displayed q =
    [Some (lit "1 234"); Some (lit "1.50K BNB"); Some (lit "56")] /\
  animationFrames q = [].
Proof.
  apply (fetchStats_shows_rendered BNB (Resolved 200 (Some example_stats))
           (fresh_stats_page example_counters) [100; 500] 1000).
  - simpl. lia.
  - repeat constructor; eexists; reflexivity.
  - constructor.
  - repeat constructor.
  - simpl. lia.
  - vm_compute. reflexivity.
  - vm_compute. reflexivity.
  - vm_compute. reflexivity.
  - vm_compute. reflexivity.
Defined.

Lemma written_labels a t cs : map label (written a t cs) = map label cs.
Proof.
  unfold written. generalize (element a) as i. intros i.
  revert i. induction cs as [|c cs IH]; intros [|i]; cbn; try done.
  f_equal. apply IH.
Qed.

Lemma update_keeps_labels a :
  keeps (fun p => map label (counter__item p)) (update a).
Proof.
  intros p. rewrite update_spec. cbn. apply written_labels.
Qed.

Lemma animationFrame_keeps_labels t :
  keeps (fun p => map label (counter__item p)) (animationFrame t).
Proof.
  unfold animationFrame.
  apply keeps_bind; [by apply keeps_modify|intros _].
  apply keeps_bind; [apply keeps_get|intros callbacks].
  apply keeps_bind; [by apply keeps_modify|intros _].
  apply keeps_forEach, update_keeps_labels.
Qed.

Lemma labels_firstn p p' :
  map label (counter__item p') = map label (counter__item p) ->
  labels p' = labels p.
Proof.
  intros H. unfold labels. by rewrite <- !firstn_map, H.
Qed.

(** X14. After a poll, whatever its outcome, the counters that have a
    label element read [Token created], [Trading volume] and
    [Active users], also when they have no number element; the animation
    frames that follow do not change them. *)
Theorem fetchStats_writes_labels
    (variant : Variant) (r : FetchResult StatsSnapshot) (p : Page)
    (ts : list Z) :
  (3 <= length (counter__item p))%nat ->
  labels (animationFrames_at ts (exec (fetchStats variant r) p)) =
    zip_with (fun old text => (fun _ => text) <$> old) (labels p) captions.
Proof.
  intros Hlen.
  assert (forall q, labels (animationFrames_at ts q) = labels q) as ->.
  { unfold animationFrames_at. induction ts as [|t ts IH]; intros q; [done|].
    cbn [fold_left]. rewrite IH. apply labels_firstn.
    apply (animationFrame_keeps_labels t q). }
  unfold exec, fetchStats.
  erewrite bind_return by reflexivity.
  rewrite fetchStats_resume_rendered.
  generalize (rendered r) as stats. intros stats.
  unfold updateStatsDisplay. erewrite bind_return by reflexivity.
  cbn [counter__item set_requests].
  unfold labels at 2.
  destruct (counter__item p) as [|item0 [|item1 [|item2 rest]]] eqn:Hcs;
    simpl in Hlen; try lia.
  destruct (label item0) eqn:El0, (label item1) eqn:El1,
    (label item2) eqn:El2;
    destruct (span item0), (span item1), (span item2); cbn [when_found];
    repeat (erewrite bind_return
              by first [apply animateNumber_spec | reflexivity]);
    rewrite ?animateNumber_spec; unfold labels;
    cbn -[formatVolume formatNumber lit]; rewrite ?Hcs;
    cbn -[formatVolume formatNumber lit];
    rewrite ?El0, ?El1, ?El2; reflexivity.
Qed.

Lemma fetchStats_writes_labels_witness :
  let p := fresh_stats_page
             [{| span := None; label := Some (lit "a") |};
              {| span := Some (lit "1"); label := None |};
              {| span := Some (lit "2"); label := Some (lit "c") |}] in
  labels (animationFrames_at [500]
            (exec (fetchStats Dollar (Resolved 404 None)) p)) =
    zip_with (fun old text => (fun _ => text) <$> old) (labels p) captions.
Proof.
  intros p.
  apply (fetchStats_writes_labels Dollar (Resolved 404 None) p [500]).
  simpl. lia.
Defined.

(** X15. On a page with fewer than three counters a poll sends its
    request and then touches nothing: no counter is written, no animation
    is started, whatever the outcome of the request. *)
Theorem fetchStats_needs_three_counters
    (variant : Variant) (r : FetchResult StatsSnapshot) (p : Page) :
  (length (counter__item p) < 3)%nat ->
  exec (fetchStats variant r) p =
    set_requests (requests p ++ [API_URL ++ lit "/stats"]) p.
Proof.
  intros Hlen. unfold exec, fetchStats.
  erewrite bind_return by reflexivity.
  rewrite fetchStats_resume_rendered.
  unfold updateStatsDisplay. erewrite bind_return by reflexivity.
  cbn [counter__item set_requests].
  destruct (counter__item p) as [|item0 [|item1 [|item2 rest]]];
    simpl in Hlen; try lia; reflexivity.
Qed.

Lemma fetchStats_needs_three_counters_witness :
  let p := fresh_stats_page (firstn 2 example_counters) in
  exec (fetchStats BNB (Resolved 200 (Some example_stats))) p =
    set_requests (requests p ++ [API_URL ++ lit "/stats"]) p.
Proof.
  intros p.
  apply (fetchStats_needs_three_counters BNB
           (Resolved 200 (Some example_stats)) p).
  simpl. lia.
Defined.

Section Display.
Context {X : Type} (f : Page -> X).
Hypothesis f_counters : forall v p, f (set_counter__item v p) = f p.
Hypothesis f_frames : forall v p, f (set_animationFrames v p) = f p.

Lemma update_display a : keeps f (update a).
Proof. intros p. rewrite update_spec. cbn [snd]. by rewrite f_frames. Qed.

Lemma animateNumber_display i target : keeps f (animateNumber i target).
Proof.
  intros p. rewrite animateNumber_spec. cbn [snd]. by rewrite f_frames.
Qed.

Lemma updateStatsDisplay_display variant stats :
  keeps f (updateStatsDisplay variant stats).
Proof.
  unfold updateStatsDisplay, when_found, set_span, set_label.
  pose proof animateNumber_display.
  repeat first
    [ apply keeps_ret | apply keeps_get | apply H
    | apply keeps_bind; [|intros ?]
    | apply keeps_modify; intros ?; by rewrite f_counters
    | match goal with
      | |- keeps _ (match ?x with _ => _ end) => destruct x
      end ].
Qed.

Lemma fetchStats_resume_display variant r :
  keeps f (fetchStats_resume variant r).
Proof.
  intros p. rewrite fetchStats_resume_rendered.
  apply updateStatsDisplay_display.
Qed.

Lemma animationFrame_display t :
  (forall v p, f (set_now v p) = f p) -> keeps f (animationFrame t).
Proof.
  intros f_now. unfold animationFrame.
  apply keeps_bind; [by apply keeps_modify|intros _].
  apply keeps_bind; [apply keeps_get|intros callbacks].
  apply keeps_bind; [by apply keeps_modify|intros _].
  apply keeps_forEach, update_display.
Qed.
End Display.

Lemma intervalTick_requests p :
  intervalTick p =
    (Return tt,
     set_requests
       (requests p ++ map (fun _ => API_URL ++ lit "/stats") (intervals p)) p).
Proof.
  unfold intervalTick. erewrite bind_return by reflexivity.
  assert (forall l q,
            forEach l (fun _ : Z => fetchStats_request) q =
              (Return tt,
               set_requests
                 (requests q ++ map (fun _ => API_URL ++ lit "/stats") l) q))
    as Hloop.
  { induction l as [|id l IH]; intros q; cbn [forEach map].
    - rewrite app_nil_r. by destruct q.
    - erewrite bind_return by reflexivity. rewrite IH. cbn.
      by rewrite <- app_assoc. }
  apply Hloop.
Qed.

Lemma clearInterval_own id p :
  (intervals p = [] \/ intervals p = [id]) ->
  intervals (exec (clearInterval (Some id)) p) = [].
Proof.
  intros [H|H]; unfold exec, clearInterval; cbn; rewrite H; cbn; [done|].
  by rewrite bool_decide_eq_true_2.
Qed.

Lemma timer_ok_intervals p id :
  timer_ok p -> statsUpdateTimer p = Some id ->
  intervals p = [] \/ intervals p = [id].
Proof.
  intros (_ & _ & [H|(id' & Ht & H)]) Hid; [by left|].
  right. rewrite Ht in Hid. by injection Hid as ->.
Qed.

Lemma beforeunload_clears p :
  timer_ok p ->
  let p' := exec beforeunload p in
  intervals p' = [] /\
  statsUpdateTimer p' = statsUpdateTimer p /\
  nextHandle p' = nextHandle p /\
  requests p' = requests p.
Proof.
  intros Hp. unfold exec, beforeunload.
  erewrite bind_return by reflexivity.
  destruct (statsUpdateTimer p) as [id|] eqn:Ht.
  - pose proof Hp as (_ & Hid & _). specialize (Hid id Ht).
    unfold truthy. replace (id =? 0) with false by lia. cbn [negb].
    split; [|done].
    apply clearInterval_own. by apply timer_ok_intervals.
  - destruct Hp as (_ & _ & [H|(id & Hid & _)]); [|congruence].
    done.
Qed.

Lemma initializeStats_timer p :
  timer_ok p ->
  let p' := exec initializeStats p in
  statsUpdateTimer p' = Some (nextHandle p) /\
  intervals p' = [nextHandle p] /\
  nextHandle p' = nextHandle p + 1.
Proof.
  intros Hp. unfold exec, initializeStats.
  erewrite bind_return by reflexivity.
  erewrite bind_return by reflexivity.
  cbn [statsUpdateTimer set_requests].
  destruct (statsUpdateTimer p) as [id|] eqn:Ht.
  - pose proof Hp as (_ & Hid & _). specialize (Hid id Ht).
    unfold truthy. replace (id =? 0) with false by lia. cbn [negb].
    destruct (timer_ok_intervals p id Hp Ht) as [Hi|Hi];
      cbn; rewrite Hi; cbn; [done|].
    by rewrite bool_decide_eq_true_2.
  - destruct Hp as (_ & _ & [H|(id & Hid & _)]); [|congruence].
    cbn. by rewrite H.
Qed.

Lemma stats_step_timer_ok variant e p :
  timer_ok p -> timer_ok (stats_step variant e p).
Proof.
  intros Hp. destruct e as [| | |r|t]; cbn [stats_step].
  - destruct (initializeStats_timer p Hp) as (Ht & Hi & Hn).
    destruct Hp as (Hpos & _ & _). unfold timer_ok.
    rewrite Ht, Hi, Hn. split; [lia|]. split.
    + intros id [= <-]. lia.
    + right. by exists (nextHandle p).
  - unfold exec. rewrite intervalTick_requests. exact Hp.
  - destruct (beforeunload_clears p Hp) as (Hi & Ht & Hn & _).
    destruct Hp as (Hpos & Hid & _). unfold timer_ok.
    rewrite Hi, Ht, Hn. by auto.
  - pose proof (fetchStats_resume_display statsUpdateTimer
                  ltac:(done) ltac:(done) variant r p) as Ht.
    pose proof (fetchStats_resume_display intervals
                  ltac:(done) ltac:(done) variant r p) as Hi.
    pose proof (fetchStats_resume_display nextHandle
                  ltac:(done) ltac:(done) variant r p) as Hn.
    unfold timer_ok, exec. rewrite Ht, Hi, Hn. exact Hp.
  - pose proof (animationFrame_display statsUpdateTimer
                  ltac:(done) ltac:(done) t ltac:(done) p) as Ht.
    pose proof (animationFrame_display intervals
                  ltac:(done) ltac:(done) t ltac:(done) p) as Hi.
    pose proof (animationFrame_display nextHandle
                  ltac:(done) ltac:(done) t ltac:(done) p) as Hn.
    unfold timer_ok, exec. rewrite Ht, Hi, Hn. exact Hp.
Qed.

(** X16. Whatever happens on the stats page, in whatever order (the
    script starting the poller again, interval ticks, requests settling,
    animation frames, the page unloading), at most one interval is active,
    and if one is, it is the one whose handle [statsUpdateTimer] holds. *)
Theorem polling_keeps_one_timer
    (variant : Variant) (events : list StatsEvent) (p : Page) :
  timer_ok p ->
  let q := stats_run variant events p in
  timer_ok q /\ (length (intervals q) <= 1)%nat.
Proof.
  intros Hp q.
  assert (timer_ok q) as Hq.
  { subst q. revert p Hp. induction events as [|e events IH]; intros p Hp.
    - exact Hp.
    - apply IH, stats_step_timer_ok, Hp. }
  split; [exact Hq|].
  destruct Hq as (_ & _ & [->|(id & _ & ->)]); cbn; lia.
Qed.

Lemma polling_keeps_one_timer_witness :
  let q := stats_run BNB
             [Init; Tick; Settled Rejected; Unload; Init; Init; Frame 500]
             (fresh_stats_page example_counters) in
  timer_ok q /\ (length (intervals q) <= 1)%nat.
Proof.
  apply (polling_keeps_one_timer BNB
           [Init; Tick; Settled Rejected; Unload; Init; Init; Frame 500]
           (fresh_stats_page example_counters)).
  split; [reflexivity|]. split; [discriminate|]. by left.
Defined.

(** X17. Every request of the stats page goes to [/stats]; the script
    starting the poller issues one, a tick issues one for each active
    interval, and nothing else issues any: not a request settling (no
    retry after a failure), not an animation frame, not the page
    unloading. *)
Theorem stats_requests_per_event
    (variant : Variant) (e : StatsEvent) (p : Page) :
  requests (stats_step variant e p) = requests p ++ stats_requests_of e p.
Proof.
  destruct e as [| | |r|t]; cbn [stats_step stats_requests_of];
    rewrite ?app_nil_r; unfold exec.
  - unfold initializeStats.
    erewrite bind_return by reflexivity.
    erewrite bind_return by reflexivity.
    cbn [statsUpdateTimer set_requests].
    by destruct (truthy (statsUpdateTimer p)).
  - by rewrite intervalTick_requests.
  - unfold beforeunload. erewrite bind_return by reflexivity.
    by destruct (truthy (statsUpdateTimer p)).
  - by rewrite (fetchStats_resume_display requests).
  - by rewrite (animationFrame_display requests).
Qed.

(** X18. Once the page has unloaded, the poller is off: as long as the
    script does not start it again, no tick and no other event issues a
    request. *)
Theorem beforeunload_stops_polling
    (variant : Variant) (events : list StatsEvent) (p : Page) :
  timer_ok p ->
  Forall (fun e => e <> Init) events ->
  let q := stats_step variant Unload p in
  intervals q = [] /\
  requests (stats_run variant events q) = requests p.
Proof.
  intros Hp Hev q.
  destruct (beforeunload_clears p Hp) as (Hi & _ & _ & Hr).
  fold (stats_step variant Unload p) in Hi, Hr. fold q in Hi, Hr.
  split; [exact Hi|]. rewrite <- Hr. clearbody q. clear Hr Hp p.
  revert q Hi. induction Hev as [|e events He _ IH]; intros q Hi; [done|].
  cbn [stats_run fold_left].
  change (fold_left _ events ?x) with (stats_run variant events x).
  assert (intervals (stats_step variant e q) = [] /\
          requests (stats_step variant e q) = requests q) as [Hi' Hr'].
  { destruct e as [| | |r|t]; cbn [stats_step]; unfold exec.
    - done.
    - rewrite intervalTick_requests. cbn. rewrite Hi. cbn.
      by rewrite app_nil_r.
    - unfold beforeunload. erewrite bind_return by reflexivity.
      destruct (truthy (statsUpdateTimer q)); cbn; [|done].
      by rewrite Hi.
    - by rewrite (fetchStats_resume_display intervals),
        (fetchStats_resume_display requests).
    - by rewrite (animationFrame_display intervals),
        (animationFrame_display requests). }
  rewrite IH by done. exact Hr'.
Qed.

Lemma beforeunload_stops_polling_witness :
  let p := stats_run Dollar [Init; Tick]
             (fresh_stats_page example_counters) in
  let q := stats_step Dollar Unload p in
  intervals q = [] /\
  requests (stats_run Dollar [Tick; Settled Rejected; Frame 2000; Tick] q) =
    requests p.
Proof.
  intros p.
  apply (beforeunload_stops_polling Dollar
           [Tick; Settled Rejected; Frame 2000; Tick] p).
  - split; [reflexivity|]. split.
    + intros id [= <-]. done.
    + right. by exists 1.
  - repeat constructor; discriminate.
Defined.

(** *** Reading back a displayed number *)

Lemma remove_whitespace_separate_thousands prev s :
  remove_whitespace (separate_thousands prev s) = remove_whitespace s.
Proof.
  unfold remove_whitespace. revert prev.
  induction s as [|c s IH]; intros prev; [done|].
  cbn [separate_thousands]. rewrite List.filter_app.
  cbn [List.filter]. rewrite IH.
  by destruct (_ && _).
Qed.

Lemma all_digits_no_whitespace s :
  all_digits s -> remove_whitespace s = s.
Proof.
  unfold remove_whitespace.
  induction 1 as [|c s Hc _ IH]; [done|]. cbn [List.filter].
  rewrite IH.
  replace (isWhiteSpace c) with false; [done|].
  unfold isDigit in Hc. unfold isWhiteSpace.
  apply andb_true_iff in Hc as [H1 H2].
  apply N.leb_le in H1, H2.
  symmetry. repeat (apply orb_false_iff; split);
    try (apply N.eqb_neq; lia).
  apply andb_false_iff. left. apply N.leb_gt. lia.
Qed.

Lemma parse_digits_step radix acc c v s :
  digit_value radix c = Some v ->
  parse_digits radix acc (c :: s) =
    parse_digits radix (Some (default 0 acc * radix + v)) s.
Proof. intros H. cbn [parse_digits]. by rewrite H. Qed.

Lemma lit_String c s : lit (String c s) = N_of_ascii c :: lit s.
Proof. reflexivity. Qed.

Ltac digit_step :=
  rewrite lit_String;
  first [ rewrite (parse_digits_step 10 _ _ 0) by reflexivity
        | rewrite (parse_digits_step 10 _ _ 1) by reflexivity
        | rewrite (parse_digits_step 10 _ _ 2) by reflexivity
        | rewrite (parse_digits_step 10 _ _ 3) by reflexivity
        | rewrite (parse_digits_step 10 _ _ 4) by reflexivity
        | rewrite (parse_digits_step 10 _ _ 5) by reflexivity
        | rewrite (parse_digits_step 10 _ _ 6) by reflexivity
        | rewrite (parse_digits_step 10 _ _ 7) by reflexivity
        | rewrite (parse_digits_step 10 _ _ 8) by reflexivity
        | rewrite (parse_digits_step 10 _ _ 9) by reflexivity ];
  cbn [default from_option id].

Lemma parse_uint_acc d acc :
  parse_digits 10 (Some (Z.pos acc)) (lit (NilEmpty.string_of_uint d)) =
    Some (Z.pos (Pos.of_uint_acc d acc)).
Proof.
  revert acc. induction d; intros acc;
    cbn [Pos.of_uint_acc NilEmpty.string_of_uint]; [reflexivity|..];
    digit_step; rewrite <- IHd; do 2 f_equal; lia.
Qed.

Lemma parse_uint_zero d :
  parse_digits 10 (Some 0) (lit (NilEmpty.string_of_uint d)) =
    Some (Z.of_N (Pos.of_uint d)).
Proof.
  induction d; cbn [Pos.of_uint NilEmpty.string_of_uint]; [reflexivity|..];
    digit_step; rewrite ?Z.mul_0_l, ?Z.add_0_l;
    first [exact IHd | apply parse_uint_acc].
Qed.

Lemma parse_uint d :
  d <> Decimal.Nil ->
  parse_digits 10 None (lit (NilEmpty.string_of_uint d)) =
    Some (Z.of_N (Pos.of_uint d)).
Proof.
  intros Hd. rewrite <- parse_uint_zero.
  destruct d; [done|..]; reflexivity.
Qed.

Lemma parseInt_uint d :
  d <> Decimal.Nil ->
  parseInt (lit (NilEmpty.string_of_uint d)) = Some (Z.of_N (Pos.of_uint d)) /\
  parseInt (lit "-" ++ lit (NilEmpty.string_of_uint d)) =
    Some (- Z.of_N (Pos.of_uint d)).
Proof.
  intros Hd. pose proof (parse_uint d Hd) as H.
  assert (forall sign,
            (fun v => sign * v) <$>
              parse_digits 10 None (lit (NilEmpty.string_of_uint d)) =
            Some (sign * Z.of_N (Pos.of_uint d))) as Hs
    by (intros sign; by rewrite H).
  split;
    [replace (Z.of_N (Pos.of_uint d)) with (1 * Z.of_N (Pos.of_uint d))
       by lia
    |replace (- Z.of_N (Pos.of_uint d)) with (-1 * Z.of_N (Pos.of_uint d))
       by lia];
    rewrite <- Hs; clear.
  - destruct d as [|d|d|d|d|d|d|d|d|d|d]; try reflexivity.
    destruct d; reflexivity.
  - destruct d as [|d|d|d|d|d|d|d|d|d|d]; try reflexivity.
    destruct d; reflexivity.
Qed.

Lemma int_toString_pos p :
  int_toString (Z.pos p) = lit (NilEmpty.string_of_uint (Pos.to_uint p)).
Proof.
  unfold int_toString. cbn [Z.to_int NilZero.string_of_int].
  pose proof (Unsigned.to_uint_nonnil p).
  unfold NilZero.string_of_uint. by destruct (Pos.to_uint p).
Qed.

Lemma int_toString_neg p :
  int_toString (Z.neg p) =
    lit "-" ++ lit (NilEmpty.string_of_uint (Pos.to_uint p)).
Proof.
  unfold int_toString. cbn [Z.to_int NilZero.string_of_int].
  pose proof (Unsigned.to_uint_nonnil p).
  unfold NilZero.string_of_uint. by destruct (Pos.to_uint p).
Qed.

Lemma parseInt_int_toString n : parseInt (int_toString n) = Some n.
Proof.
  destruct n as [|p|p].
  - reflexivity.
  - rewrite int_toString_pos.
    destruct (parseInt_uint (Pos.to_uint p)) as [-> _];
      [apply Unsigned.to_uint_nonnil|].
    by rewrite DecimalPos.Unsigned.of_to.
  - rewrite int_toString_neg.
    destruct (parseInt_uint (Pos.to_uint p)) as [_ ->];
      [apply Unsigned.to_uint_nonnil|].
    by rewrite DecimalPos.Unsigned.of_to.
Qed.

Lemma remove_whitespace_int_toString n :
  remove_whitespace (int_toString n) = int_toString n.
Proof.
  destruct n as [|p|p].
  - reflexivity.
  - rewrite int_toString_pos.
    apply all_digits_no_whitespace, lit_uint_digits.
  - rewrite int_toString_neg. unfold remove_whitespace.
    rewrite List.filter_app. f_equal.
    apply all_digits_no_whitespace, lit_uint_digits.
Qed.

Lemma remove_whitespace_formatNumber n :
  remove_whitespace (formatNumber n) = int_toString n.
Proof.
  rewrite <- (remove_whitespace_int_toString n). unfold formatNumber.
  destruct (int_toString n) as [|c s]; [done|].
  change (c :: separate_thousands c s)
    with ([c] ++ separate_thousands c s).
  change (c :: s) with ([c] ++ s).
  unfold remove_whitespace. rewrite !List.filter_app. f_equal.
  apply remove_whitespace_separate_thousands.
Qed.

Lemma parseInt_formatNumber n :
  parseInt (remove_whitespace (formatNumber n)) = Some n.
Proof. by rewrite remove_whitespace_formatNumber, parseInt_int_toString. Qed.

(** X19. A number that [formatNumber] printed reads back as itself: the
    spaces it puts between the groups of digits are white space, which
    [animateNumber] removes before it parses the text. (For the integers a
    double represents exactly.) *)
Theorem formatNumber_reads_back (n : Z) :
  Z.abs n < 2 ^ 53 ->
  remove_whitespace (formatNumber n) = int_toString n /\
  parseInt (remove_whitespace (formatNumber n)) = Some n.
Proof.
  intros _. split.
  - apply remove_whitespace_formatNumber.
  - apply parseInt_formatNumber.
Qed.

Lemma formatNumber_reads_back_witness :
  remove_whitespace (formatNumber (-1234567)) = int_toString (-1234567) /\
  parseInt (remove_whitespace (formatNumber (-1234567))) = Some (-1234567).
Proof.
  apply (formatNumber_reads_back (-1234567)).
  vm_compute. reflexivity.
Defined.



Lemma every_three_snoc l c :
  every_three (l ++ [c]) =
    every_three l ++
    (if (0 <? length l)%nat && (length l mod 3 =? 0)%nat
     then [0x20%N; c] else [c]).
Proof.
  assert (forall l,
            (fun l => every_three (l ++ [c]) =
               every_three l ++
               (if (0 <? length l)%nat && (length l mod 3 =? 0)%nat
                then [0x20%N; c] else [c])) l /\
            (forall x, (fun l => every_three (l ++ [c]) =
               every_three l ++
               (if (0 <? length l)%nat && (length l mod 3 =? 0)%nat
                then [0x20%N; c] else [c])) (x :: l)) /\
            (forall x y, (fun l => every_three (l ++ [c]) =
               every_three l ++
               (if (0 <? length l)%nat && (length l mod 3 =? 0)%nat
                then [0x20%N; c] else [c])) (x :: y :: l))) as H.
  { clear l. induction l as [|z l (IH0 & IH1 & IH2)].
    - repeat split; intros; reflexivity.
    - split; [apply IH1|]. split; [intros x; apply IH2|].
      intros x y.
      destruct l as [|w l].
      + reflexivity.
      + change (every_three ((x :: y :: z :: w :: l) ++ [c]))
          with (x :: y :: z :: 0x20%N :: every_three ((w :: l) ++ [c])).
        change (every_three (x :: y :: z :: w :: l))
          with (x :: y :: z :: 0x20%N :: every_three (w :: l)).
        rewrite IH0.
        cbn [length].
        replace (S (S (S (S (length l)))) mod 3)%nat
          with (S (length l) mod 3)%nat; [reflexivity|].
        change (S (S (S (S (length l))))) with (3 + S (length l))%nat.
        rewrite Nat.Div0.add_mod.
        change (3 mod 3)%nat with 0%nat. cbn [Nat.add].
        by rewrite Nat.Div0.mod_mod. }
  apply H.
Qed.

Lemma thousands_cons c s :
  thousands (c :: s) =
    c :: (if (0 <? length s)%nat && (length s mod 3 =? 0)%nat
          then [0x20%N] else []) ++ thousands s.
Proof.
  unfold thousands. cbn [rev]. rewrite every_three_snoc, rev_app_distr.
  rewrite length_rev.
  by destruct ((0 <? length s)%nat && (length s mod 3 =? 0)%nat).
Qed.

Lemma digit_run_all_digits s : all_digits s -> digit_run s = length s.
Proof.
  induction 1 as [|c s Hc _ IH]; [done|].
  cbn [digit_run length]. by rewrite Hc, IH.
Qed.

Lemma isDigit_isWordChar c : isDigit c = true -> isWordChar c = true.
Proof. unfold isDigit, isWordChar. by intros ->. Qed.

Lemma separate_thousands_digits c s :
  isDigit c = true -> all_digits s ->
  c :: separate_thousands c s = thousands (c :: s).
Proof.
  intros Hc Hs. revert c Hc.
  induction Hs as [|d s Hd Hs IH]; intros c Hc; [done|].
  rewrite thousands_cons. f_equal.
  cbn [separate_thousands]. rewrite IH by done. f_equal.
  rewrite !isDigit_isWordChar by done.
  rewrite bool_decide_eq_true_2 by done. cbn [andb].
  unfold groups_of_three_ahead.
  rewrite digit_run_all_digits by by constructor.
  reflexivity.
Qed.

(** X21. [formatNumber] prints a non-negative integer with its digits in
    groups of three counted from the right, one space between two groups,
    and changes nothing else. *)
Theorem formatNumber_groups_of_three (n : Z) :
  0 <= n < 2 ^ 53 ->
  formatNumber n = thousands (digits n).
Proof.
  intros [Hn _]. unfold formatNumber.
  destruct (digits_nonneg n Hn) as [Hd Hne]. unfold digits in *.
  destruct (int_toString n) as [|c s]; [done|].
  inversion_clear Hd. by apply separate_thousands_digits.
Qed.

Lemma formatNumber_groups_of_three_witness :
  formatNumber 1234567 = thousands (digits 1234567).
Proof.
  apply (formatNumber_groups_of_three 1234567).
  vm_compute. split; [discriminate | reflexivity].
Defined.

Example thousands_example : thousands (lit "1234567") = lit "1 234 567".
Proof. reflexivity. Qed.


Lemma spans_stay_refl p : spans_stay p p.
Proof. unfold spans_stay. by apply Forall_Forall2_diag, Forall_forall. Qed.

Lemma spans_stay_trans p q r :
  spans_stay p q -> spans_stay q r -> spans_stay p r.
Proof.
  unfold spans_stay.
  generalize (counter__item p), (counter__item q), (counter__item r).
  intros l1 l2 l3 H1. revert l3.
  induction H1 as [|c c' cs cs' Hc _ IH]; intros l3 H2;
    inversion_clear H2; constructor; auto.
Qed.

Lemma spans_stay_alter f i p :
  (forall c, is_Some (span c) -> is_Some (span (f c))) ->
  spans_stay p (set_counter__item (alter f i (counter__item p)) p).
Proof.
  intros Hf. unfold spans_stay. cbn [counter__item set_counter__item].
  generalize (counter__item p) as cs. intros cs. revert i.
  induction cs as [|c cs IH]; intros [|i]; cbn; constructor; auto.
  - by apply Forall_Forall2_diag, Forall_forall.
Qed.

Lemma spans_stay_same p p' :
  counter__item p' = counter__item p -> spans_stay p p'.
Proof.
  intros H. unfold spans_stay. rewrite H.
  by apply Forall_Forall2_diag, Forall_forall.
Qed.

Lemma update_spans_stay a : follows spans_stay (update a).
Proof.
  intros p. rewrite update_spec. cbn [snd].
  eapply spans_stay_trans; [|by apply spans_stay_same].
  unfold written. by apply spans_stay_alter.
Qed.

Lemma animateNumber_spans_stay i target :
  follows spans_stay (animateNumber i target).
Proof.
  intros p. rewrite animateNumber_spec. cbn [snd].
  eapply spans_stay_trans; [|by apply spans_stay_same].
  unfold written. by apply spans_stay_alter.
Qed.

Lemma updateStatsDisplay_spans_stay variant stats :
  follows spans_stay (updateStatsDisplay variant stats).
Proof.
  unfold updateStatsDisplay, when_found, set_span, set_label.
  repeat first
    [ apply follows_ret, spans_stay_refl
    | apply follows_get, spans_stay_refl
    | apply animateNumber_spans_stay
    | apply follows_bind; [exact spans_stay_trans| |intros ?]
    | apply follows_modify; intros ?; by apply spans_stay_alter
    | match goal with
      | |- follows _ (match ?x with _ => _ end) => destruct x
      end ].
Qed.

Lemma animationFrame_spans_stay t : follows spans_stay (animationFrame t).
Proof.
  unfold animationFrame.
  apply follows_bind; [exact spans_stay_trans| |intros _].
  { apply follows_modify. intros p. by apply spans_stay_same. }
  apply follows_bind;
    [exact spans_stay_trans|apply follows_get, spans_stay_refl|
     intros callbacks].
  apply follows_bind; [exact spans_stay_trans| |intros _].
  { apply follows_modify. intros p. by apply spans_stay_same. }
  apply follows_forEach;
    [exact spans_stay_refl|exact spans_stay_trans|apply update_spans_stay].
Qed.

Lemma spans_stay_pollable p p' :
  spans_stay p p' ->
  (3 <= length (counter__item p))%nat ->
  Forall (fun c => is_Some (span c)) (firstn 3 (counter__item p)) ->
  (3 <= length (counter__item p'))%nat /\
  Forall (fun c => is_Some (span c)) (firstn 3 (counter__item p')).
Proof.
  unfold spans_stay. intros H Hlen Hs.
  split; [apply Forall2_length in H as Hl; lia|].
  apply (Forall2_take _ _ _ 3) in H.
  revert Hs H. generalize (take 3 (counter__item p')).
  generalize (take 3 (counter__item p)).
  intros l l' Hs H. induction H; inversion_clear Hs; constructor; auto.
Qed.

Section Poller.
Context {X : Type} (f : Page -> X).
Hypothesis f_requests : forall v p, f (set_requests v p) = f p.
Hypothesis f_timers : forall v h p, f (set_timers v h p) = f p.
Hypothesis f_timer : forall v p, f (set_statsUpdateTimer v p) = f p.

Ltac poller :=
  repeat first
    [ apply keeps_ret | apply keeps_get
    | apply keeps_bind; [|intros ?]
    | apply keeps_forEach; intros ?
    | apply keeps_modify; intros ?;
      rewrite ?f_requests, ?f_timers, ?f_timer; reflexivity
    | match goal with
      | |- keeps _ (if ?x then _ else _) => destruct x
      end ].

Lemma initializeStats_poller : keeps f initializeStats.
Proof.
  unfold initializeStats, fetchStats_request, clearInterval, setInterval.
  poller.
Qed.

Lemma intervalTick_poller : keeps f intervalTick.
Proof. unfold intervalTick, fetchStats_request. poller. Qed.

Lemma beforeunload_poller : keeps f beforeunload.
Proof. unfold beforeunload, clearInterval. poller. Qed.
End Poller.

Lemma animationFrame_now t p : now (exec (animationFrame t) p) = t.
Proof.
  unfold exec, animationFrame.
  erewrite bind_return by reflexivity.
  erewrite bind_return by reflexivity.
  erewrite bind_return by reflexivity.
  by rewrite (keeps_forEach now _ update
                (update_display now ltac:(done) ltac:(done))).
Qed.

Lemma stats_step_pollable variant e p :
  pollable p ->
  match e with Frame t => now p <= t | _ => True end ->
  pollable (stats_step variant e p) /\
  now (stats_step variant e p) =
    match e with Frame t => t | _ => now p end.
Proof.
  intros (Hlen & Hs & Hp) He.
  assert (forall c : Script.M Page unit,
            keeps counter__item c -> keeps now c -> keeps animationFrames c ->
            pollable (exec c p) /\ now (exec c p) = now p) as Hsame.
  { intros c Hc Hn Ha. unfold pollable, exec. by rewrite Hc, Hn, Ha. }
  destruct e as [| | |r|t]; cbn [stats_step].
  - apply Hsame; by apply initializeStats_poller.
  - apply Hsame; by apply intervalTick_poller.
  - apply Hsame; by apply beforeunload_poller.
  - unfold exec. rewrite fetchStats_resume_rendered.
    destruct (queues_updateStatsDisplay variant (rendered r) p)
      as (Hn & Q & Hq & HQ).
    split; [|exact Hn].
    destruct (spans_stay_pollable p _
                (updateStatsDisplay_spans_stay variant (rendered r) p)
                Hlen Hs) as [Hlen' Hs'].
    split; [exact Hlen'|]. split; [exact Hs'|].
    rewrite Hn, Hq. apply Forall_app. by split.
  - split; [|apply animationFrame_now].
    destruct (spans_stay_pollable p _ (animationFrame_spans_stay t p)
                Hlen Hs) as [Hlen' Hs'].
    split; [exact Hlen'|]. split; [exact Hs'|].
    by apply animationFrame_pending_ok.
Qed.

(** X22. A stats page with three counters that have a number element
    stays one, and each animation that is pending on it is over within
    1000 milliseconds of the current time, whatever happens on the page
    (polls starting and settling in any order and number, animation
    frames, the page unloading), as long as the clock does not run
    backwards. So a poll always finds the page as it needs it. *)
Theorem stats_page_stays_pollable
    (variant : Variant) (events : list StatsEvent) (p : Page) :
  pollable p ->
  clock_forward (now p) events ->
  pollable (stats_run variant events p).
Proof.
  revert p. induction events as [|e events IH]; intros p Hp Hc; [exact Hp|].
  cbn [stats_run fold_left].
  change (fold_left _ events ?x) with (stats_run variant events x).
  assert (match e with Frame t => now p <= t | _ => True end /\
          clock_forward
            (match e with Frame t => t | _ => now p end) events) as [He Hc'].
  { destruct e; cbn [clock_forward] in Hc; tauto. }
  destruct (stats_step_pollable variant e p Hp He) as [Hp' Hn].
  apply IH; [exact Hp'|]. by rewrite Hn.
Qed.

Lemma stats_page_stays_pollable_witness :
  pollable
    (stats_run Dollar
       [Init; Frame 100; Settled (Resolved 200 (Some example_stats)); Tick;
        Frame 400; Settled Rejected; Frame 2000; Unload]
       (fresh_stats_page example_counters)).
Proof.
  apply (stats_page_stays_pollable Dollar
           [Init; Frame 100; Settled (Resolved 200 (Some example_stats)); Tick;
            Frame 400; Settled Rejected; Frame 2000; Unload]
           (fresh_stats_page example_counters)).
  - split; [simpl; lia|]. split.
    + repeat constructor; eexists; reflexivity.
    + constructor.
  - cbn. lia.
Defined.

End StatsPolling.
